(** * ComicViewer2 backend: page source, chapter-number heuristic, cover
      picker and library scanner

    A shallow embedding of [backend_p/comic_parser.py] and
    [backend_p/scanner.py].

    Conventions of the model.
    - A Python [str] is a [string]; a character is read as a code point
      below 256, so [str.lower] and the regular-expression classes are the
      Python ones restricted to that range.  The chapter-number heuristic
      is given a second time on names of any code point ([Unicode]), with
      the Unicode classes; the two readings agree on names below 256.
    - A Python [int] is a [Z]; [len] is [Z.of_nat (length _)].
    - A Python [float] obtained by [float(token)] from a decimal token is
      represented by the exact decimal value of the token, a [Q] in lowest
      terms (Python rounds that value to the nearest double).
    - A call that may raise returns an [outcome]; the file system, the
      [zipfile] module and Pillow are the environment and appear as
      oracles.  Paths follow [posixpath].
    - The database is modelled three times: as two tables whose inserts
      always succeed ([DatabaseManager]), as any state with two inserts
      that may raise ([Port]), and as the tables behind the foreign keys
      of the schema ([Sqlite]).  With the first the scan of [Port] is the
      scan of [scanner].
    - The size rule of [Image.thumbnail] and the modes of the JPEG writer
      are written from Pillow's documentation ([Pillow]). *)

From Stdlib Require Import String Ascii List ZArith QArith Bool Lia.
From Stdlib Require Import Qround Qabs.
From Stdlib Require Import Permutation Sorted Orders Mergesort.
From Stdlib.Strings Require Import Byte.
From Stdlib Require DecimalString.
Import ListNotations.

Local Open Scope string_scope.
Local Open Scope Z_scope.

(* ------------------------------------------------------------------ *)
(** ** Python strings *)

Module PyStr.

Definition code (c : ascii) : N := N_of_ascii c.

(** [str.lower] on one code point below 256: A-Z and the Latin-1
    capitals U+00C0..U+00DE (U+00D7, the multiplication sign, apart). *)
Definition lower_char (c : ascii) : ascii :=
  let n := code c in
  if ((65 <=? n) && (n <=? 90))%N
     || ((192 <=? n) && (n <=? 222) && negb (n =? 215))%N
  then ascii_of_N (n + 32)
  else c.

Fixpoint lower (s : string) : string :=
  match s with
  | EmptyString => EmptyString
  | String c t => String (lower_char c) (lower t)
  end.

Definition startswith (s pre : string) : bool := String.prefix pre s.

Definition endswith (s suf : string) : bool :=
  (String.length suf <=? String.length s)%nat
  && String.eqb
       (substring (String.length s - String.length suf)
                  (String.length suf) s)
       suf.

(** [s.rfind(c)]: the highest index of [c], or -1. *)
Fixpoint rfind_from (c : ascii) (s : string) (i last : Z) : Z :=
  match s with
  | EmptyString => last
  | String a t =>
      rfind_from c t (i + 1) (if Ascii.eqb a c then i else last)
  end.

Definition rfind (c : ascii) (s : string) : Z := rfind_from c s 0 (-1).

(** [s[i:]] and [s[:i]] for [0 <= i <= len(s)]. *)
Definition slice_from (s : string) (i : Z) : string :=
  substring (Z.to_nat i) (String.length s - Z.to_nat i) s.

Definition slice_to (s : string) (i : Z) : string :=
  substring 0 (Z.to_nat i) s.

Definition char_at (s : string) (i : Z) : option ascii :=
  String.get (Z.to_nat i) s.

End PyStr.

(* ------------------------------------------------------------------ *)
(** ** [os.path] (posixpath) *)

Module OsPath.
Import PyStr.

(** The [while filenameIndex < dotIndex] loop of [genericpath._splitext]:
    [n] iterations remain; the answer is [true] when some character of
    the file name before the last dot is not a dot. *)
Fixpoint has_non_dot (p : string) (filenameIndex : Z) (n : nat) : bool :=
  match n with
  | O => false
  | S n' =>
      match char_at p filenameIndex with
      | Some c =>
          if Ascii.eqb c "."%char
          then has_non_dot p (filenameIndex + 1) n'
          else true
      | None => true
      end
  end.

(** [os.path.splitext(p)]. *)
Definition splitext (p : string) : string * string :=
  let sepIndex := rfind "/"%char p in
  let dotIndex := rfind "."%char p in
  if sepIndex <? dotIndex then
    if has_non_dot p (sepIndex + 1) (Z.to_nat (dotIndex - (sepIndex + 1)))
    then (slice_to p dotIndex, slice_from p dotIndex)
    else (p, "")
  else (p, "").

(** [os.path.join(a, b)] with two components. *)
Definition join (a b : string) : string :=
  if startswith b "/" then b
  else if String.eqb a "" || endswith a "/" then a ++ b
  else a ++ "/" ++ b.

End OsPath.

(* ------------------------------------------------------------------ *)
(** ** Exceptions and outcomes *)

(** The exception classes the code can meet.  All are subclasses of
    [Exception]; [IntegrityError] is [sqlite3.IntegrityError]. *)
Inductive exn : Type :=
| KeyError
| BadZipFile
| OSError
| UnidentifiedImageError
| IntegrityError
| OtherError.

Inductive outcome (A : Type) : Type :=
| Ret (a : A)
| Raise (e : exn).

Arguments Ret {A} a.
Arguments Raise {A} e.

Definition bind {A B : Type} (c : outcome A) (k : A -> outcome B)
  : outcome B :=
  match c with
  | Ret a => k a
  | Raise e => Raise e
  end.

Declare Scope py_scope.
Delimit Scope py_scope with py.
Notation "x <- c ;; k" := (bind c (fun x => k))
  (at level 61, c at next level, right associativity) : py_scope.

Definition raises {A : Type} (c : outcome A) : Prop :=
  exists e, c = Raise e.

(* ------------------------------------------------------------------ *)
(** ** The environment: file system and [zipfile] *)

Definition bytes := list byte.

(** An opened [zipfile.ZipFile]: the central-directory records in order,
    each with what reading that member yields. *)
Record ZipFile : Type := mkZip {
  filelist : list (string * outcome bytes)
}.

Definition namelist (z : ZipFile) : list string := map fst (filelist z).

(** [NameToInfo[name]]: a later record of the same name replaces an
    earlier one. *)
Fixpoint NameToInfo (l : list (string * outcome bytes)) (name : string)
  : option (outcome bytes) :=
  match l with
  | [] => None
  | (n, r) :: t =>
      match NameToInfo t name with
      | Some r' => Some r'
      | None => if String.eqb n name then Some r else None
      end
  end.

(** [z.read(name)]. *)
Definition zip_read (z : ZipFile) (name : string) : outcome bytes :=
  match NameToInfo (filelist z) name with
  | Some r => r
  | None => Raise KeyError
  end.

Record filesystem : Type := mkFs {
  os_path_isdir : string -> bool;
  os_path_isfile : string -> bool;
  os_listdir : string -> outcome (list string);
  (** [zipfile.is_zipfile] swallows [OSError] and answers a boolean. *)
  zipfile_is_zipfile : string -> bool;
  (** [zipfile.ZipFile(path, "r")]. *)
  zipfile_open : string -> outcome ZipFile;
  (** [open(path, "rb").read()]. *)
  open_rb_read : string -> outcome bytes
}.

(** [sorted] / [list.sort] on strings: code-point order. *)
Module StringOrder <: TotalLeBool.
Definition t := string.
Definition leb := String.leb.
Definition leb_total
  : forall a1 a2, leb a1 a2 = true \/ leb a2 a1 = true := String.leb_total.
End StringOrder.

Module StringSort := Sort StringOrder.

Definition sorted (l : list string) : list string := StringSort.sort l.

Definition len {A : Type} (l : list A) : Z := Z.of_nat (length l).

(* ------------------------------------------------------------------ *)
(** ** comic_parser.py *)

Module comic_parser.
Import PyStr.
Local Open Scope py_scope.

Definition IMAGE_EXTENSIONS : list string :=
  [".jpg"; ".jpeg"; ".png"; ".webp"; ".gif"; ".bmp"; ".tiff"].

Definition mem (x : string) (l : list string) : bool :=
  existsb (String.eqb x) l.

Definition is_image_file (filename : string) : bool :=
  let '(_, ext) := OsPath.splitext filename in
  mem (lower ext) IMAGE_EXTENSIONS.

Definition is_cbz_file (fs : filesystem) (filepath : string) : bool :=
  os_path_isfile fs filepath
  && (endswith (lower filepath) ".cbz" || endswith (lower filepath) ".zip")
  && zipfile_is_zipfile fs filepath.

Definition list_cbz_pages (fs : filesystem) (cbz_path : string)
  : outcome (list string) :=
  z <- zipfile_open fs cbz_path ;;
  let entries :=
    filter (fun name => is_image_file name
                        && negb (startswith name "__MACOSX"))
           (namelist z) in
  Ret (sorted entries).

Definition extract_cbz_page (fs : filesystem) (cbz_path page_name : string)
  : outcome (option bytes) :=
  match (z <- zipfile_open fs cbz_path ;; zip_read z page_name) with
  | Ret b => Ret (Some b)
  | Raise KeyError => Ret None
  | Raise BadZipFile => Ret None
  | Raise e => Raise e
  end.

Definition list_folder_pages (fs : filesystem) (folder_path : string)
  : outcome (list string) :=
  if negb (os_path_isdir fs folder_path) then Ret []
  else
    names <- os_listdir fs folder_path ;;
    let images :=
      map (fun f => OsPath.join folder_path f)
          (filter is_image_file names) in
    Ret (sorted images).

Definition get_page_count (fs : filesystem) (chapter_path : string)
  : outcome Z :=
  if is_cbz_file fs chapter_path then
    pages <- list_cbz_pages fs chapter_path ;; Ret (len pages)
  else if os_path_isdir fs chapter_path then
    pages <- list_folder_pages fs chapter_path ;; Ret (len pages)
  else Ret 0.

(** [pages[i]] for an index already checked to be in range. *)
Definition item (pages : list string) (i : Z) : string :=
  nth (Z.to_nat i) pages "".

Definition get_page_image (fs : filesystem) (chapter_path : string)
           (page_number : Z) : outcome (option bytes) :=
  if is_cbz_file fs chapter_path then
    pages <- list_cbz_pages fs chapter_path ;;
    if (0 <=? page_number) && (page_number <? len pages)
    then extract_cbz_page fs chapter_path (item pages page_number)
    else Ret None
  else if os_path_isdir fs chapter_path then
    pages <- list_folder_pages fs chapter_path ;;
    if (0 <=? page_number) && (page_number <? len pages)
    then b <- open_rb_read fs (item pages page_number) ;; Ret (Some b)
    else Ret None
  else Ret None.

End comic_parser.

(* ------------------------------------------------------------------ *)
(** ** The fragment of [re] that scanner.py uses

    A backtracking matcher in continuation-passing style: a continuation
    receives the rest of the subject and the text of group 1, and a greedy
    operator tries the longer alternative first, as [sre] does.
    Repetition is applied to character sets only, which is all the two
    patterns of scanner.py need. *)

Module re.
Import PyStr.

Inductive regex : Type :=
| Str (w : string)               (* literal text, matched under [re.I] *)
| Seq (r1 r2 : regex)
| Opt (r : regex)                (* [r?], greedy *)
| Star (p : ascii -> bool)       (* [[set]*], greedy *)
| Plus (p : ascii -> bool)       (* [[set]+], greedy *)
| Group (r : regex).             (* capturing group 1 *)

(** [\d] on code points below 256. *)
Definition digit (c : ascii) : bool :=
  let n := code c in ((48 <=? n) && (n <=? 57))%N.

(** [\s] on code points below 256 ([str.isspace]). *)
Definition space (c : ascii) : bool :=
  let n := code c in
  (((9 <=? n) && (n <=? 13)) || ((28 <=? n) && (n <=? 32))
   || (n =? 133) || (n =? 160))%N.

(** The literal [w] at the head of [s], letter case ignored. *)
Fixpoint lit_ci (w s : string) : option string :=
  match w with
  | EmptyString => Some s
  | String a w' =>
      match s with
      | String c t =>
          if Ascii.eqb (lower_char c) (lower_char a) then lit_ci w' t
          else None
      | EmptyString => None
      end
  end.

(** The text consumed between the subject [s] and its suffix [s']. *)
Definition consumed (s s' : string) : string :=
  substring 0 (String.length s - String.length s') s.

Section Matcher.
Variable R : Type.

Fixpoint star (p : ascii -> bool) (s : string) (k : string -> option R)
  : option R :=
  match s with
  | String c t =>
      if p c then
        match star p t k with
        | Some r => Some r
        | None => k s
        end
      else k s
  | EmptyString => k s
  end.

Fixpoint run (r : regex) (s : string) (cap : option string)
         (k : string -> option string -> option R) {struct r} : option R :=
  match r with
  | Str w =>
      match lit_ci w s with
      | Some t => k t cap
      | None => None
      end
  | Seq r1 r2 => run r1 s cap (fun s' cap' => run r2 s' cap' k)
  | Opt r' =>
      match run r' s cap k with
      | Some x => Some x
      | None => k s cap
      end
  | Star p => star p s (fun s' => k s' cap)
  | Plus p =>
      match s with
      | String c t => if p c then star p t (fun s' => k s' cap) else None
      | EmptyString => None
      end
  | Group r' => run r' s cap (fun s' _ => k s' (Some (consumed s s')))
  end.

End Matcher.

(** [re.match(r, s, re.I)]: [Some g] with [g] the text of group 1
    ([None] inside when the group did not take part). *)
Definition match_ (r : regex) (s : string) : option (option string) :=
  run (option string) r s None (fun _ cap => Some cap).

(** [re.search(r, s, re.I)]: the first position where [r] matches. *)
Fixpoint search (r : regex) (s : string) : option (option string) :=
  match match_ r s with
  | Some g => Some g
  | None =>
      match s with
      | String _ t => search r t
      | EmptyString => None
      end
  end.

End re.

(* ------------------------------------------------------------------ *)
(** ** [float] of a decimal token *)

Module PyFloat.

Definition digit_value (c : ascii) : Z := Z.of_N (N_of_ascii c) - 48.

(** [int(s)] for a string of decimal digits, continuing from [acc]. *)
Fixpoint int_digits (s : string) (acc : Z) : Z :=
  match s with
  | EmptyString => acc
  | String c t => int_digits t (10 * acc + digit_value c)
  end.

(** The token split at its first dot: integer part and fraction digits. *)
Fixpoint split_dot (s : string) : string * string :=
  match s with
  | EmptyString => (EmptyString, EmptyString)
  | String c t =>
      if Ascii.eqb c "."%char then (EmptyString, t)
      else let '(a, b) := split_dot t in (String c a, b)
  end.

(** [float(token)] for a token of the shape [\d+(\.\d+)?]: the value
    [int(ip ++ fp) / 10 ^ len(fp)], in lowest terms. *)
Definition float (token : string) : Q :=
  let '(ip, fp) := split_dot token in
  Qred (Qmake (int_digits fp (int_digits ip 0))
              (Z.to_pos (10 ^ Z.of_nat (String.length fp)))).

End PyFloat.

(* ------------------------------------------------------------------ *)
(** ** database.py: the two insert operations the scanner calls

    Each table is a list of rows in insertion order; an
    [INTEGER PRIMARY KEY AUTOINCREMENT] column is a counter of the last
    identifier handed out.  Constraint failures of SQLite are outside
    this model of the tables; [Port] and [Sqlite] below have them. *)

Record manga_row : Type := mkManga {
  m_id : Z;
  m_title : string;
  m_source_id : Z;
  m_cover_path : string;
  m_total_chapters : Z
}.

Record chapter_row : Type := mkChapter {
  c_id : Z;
  c_manga_id : Z;
  c_chapter_number : Q;
  c_title : string;
  c_file_path : string;
  c_page_count : Z
}.

Record DatabaseManager : Type := mkDb {
  mangas : list manga_row;
  chapters : list chapter_row;
  mangas_seq : Z;
  chapters_seq : Z
}.

Definition add_manga (db : DatabaseManager) (title : string) (source_id : Z)
           (cover_path : string) (total_chapters : Z)
  : Z * DatabaseManager :=
  let rowid := mangas_seq db + 1 in
  (rowid,
   mkDb (mangas db ++ [mkManga rowid title source_id cover_path
                               total_chapters])
        (chapters db) rowid (chapters_seq db)).

Definition add_chapter (db : DatabaseManager) (manga_id : Z)
           (chapter_number : Q) (file_path title : string) (page_count : Z)
  : Z * DatabaseManager :=
  let rowid := chapters_seq db + 1 in
  (rowid,
   mkDb (mangas db)
        (chapters db ++ [mkChapter rowid manga_id chapter_number title
                                   file_path page_count])
        (mangas_seq db) rowid).

(* ------------------------------------------------------------------ *)
(** ** scanner.py *)

Module scanner.
Import PyStr comic_parser.
Local Open Scope py_scope.

(** [[\s._-]] *)
Definition separator (c : ascii) : bool :=
  re.space c || Ascii.eqb c "."%char || Ascii.eqb c "_"%char
  || Ascii.eqb c "-"%char.

(** [(\d+(?:\.\d+)?)] *)
Definition number_group : re.regex :=
  re.Group (re.Seq (re.Plus re.digit)
                   (re.Opt (re.Seq (re.Str ".") (re.Plus re.digit)))).

(** The first pattern of [_extract_chapter_number]: [ch], an optional
    [apter], the set [[\s._-]] any number of times, the number group. *)
Definition chapter_pattern : re.regex :=
  re.Seq (re.Seq (re.Str "ch")
                 (re.Seq (re.Opt (re.Str "apter")) (re.Star separator)))
         number_group.

(** [match.group(1)]; group 1 takes part in every match of both patterns. *)
Definition group1 (g : option string) : string :=
  match g with
  | Some t => t
  | None => ""
  end.

Definition _extract_chapter_number (name : string) : Q :=
  match re.search chapter_pattern name with
  | Some g => PyFloat.float (group1 g)
  | None =>
      match re.match_ number_group name with
      | Some g => PyFloat.float (group1 g)
      | None => 0%Q
      end
  end.

Definition cover_names : list string :=
  ["cover"; "folder"; "poster"; "thumb"; "thumbnail"].

Definition is_named_cover (f : string) : bool :=
  let '(stem, ext) := OsPath.splitext f in
  mem (lower stem) cover_names && mem (lower ext) IMAGE_EXTENSIONS.

(** The two [for f in files] loops of [_find_cover]: the first entry that
    passes the test, joined to the directory. *)
Fixpoint first_match (test : string -> bool) (path : string)
         (files : list string) : option string :=
  match files with
  | [] => None
  | f :: rest =>
      if test f then Some (OsPath.join path f)
      else first_match test path rest
  end.

Definition _find_cover (fs : filesystem) (path : string)
  : outcome (option string) :=
  if negb (os_path_isdir fs path) then Ret None
  else
    names <- os_listdir fs path ;;
    let files := sorted names in
    match first_match is_named_cover path files with
    | Some p => Ret (Some p)
    | None => Ret (first_match is_image_file path files)
    end.

(** One element of [chapters_found]. *)
Record chapter : Type := mkCh {
  number : Q;
  title : string;
  path : string;
  page_count : Z
}.

(** The loop [for entry in sorted(os.listdir(manga_dir))] of [scan_source],
    over the entries still to visit. *)
Fixpoint discover_chapters (fs : filesystem) (manga_dir : string)
         (entries : list string) (chapters_found : list chapter)
  : outcome (list chapter) :=
  match entries with
  | [] => Ret chapters_found
  | entry :: rest =>
      let entry_path := OsPath.join manga_dir entry in
      if is_cbz_file fs entry_path then
        n <- get_page_count fs entry_path ;;
        discover_chapters fs manga_dir rest
          (chapters_found
             ++ [mkCh (_extract_chapter_number entry)
                      (fst (OsPath.splitext entry)) entry_path n])
      else if os_path_isdir fs entry_path then
        page_cnt <- get_page_count fs entry_path ;;
        if page_cnt >? 0 then
          discover_chapters fs manga_dir rest
            (chapters_found
               ++ [mkCh (_extract_chapter_number entry) entry entry_path
                        page_cnt])
        else discover_chapters fs manga_dir rest chapters_found
      else discover_chapters fs manga_dir rest chapters_found
  end.

(** The loop [for ch in chapters_found]. *)
Fixpoint register_chapters (db : DatabaseManager) (manga_id : Z)
         (chs : list chapter) (chapter_count : Z) : Z * DatabaseManager :=
  match chs with
  | [] => (chapter_count, db)
  | ch :: rest =>
      let '(_, db') :=
        add_chapter db manga_id (number ch) (path ch) (title ch)
                    (page_count ch) in
      register_chapters db' manga_id rest (chapter_count + 1)
  end.

(** [cover or ""]. *)
Definition or_empty (cover : option string) : string :=
  match cover with
  | Some p => p
  | None => ""
  end.

(** The result dictionary [{"mangas": _, "chapters": _}]. *)
Record summary : Type := mkSummary {
  s_mangas : Z;
  s_chapters : Z
}.

(** The loop [for manga_name in sorted(os.listdir(source_path))].  The
    database is returned also when an exception leaves the loop: rows
    inserted before it stay inserted. *)
Fixpoint scan_mangas (fs : filesystem) (source_id : Z) (source_path : string)
         (names : list string) (db : DatabaseManager)
         (manga_count chapter_count : Z)
  : outcome summary * DatabaseManager :=
  match names with
  | [] => (Ret (mkSummary manga_count chapter_count), db)
  | manga_name :: rest =>
      let manga_dir := OsPath.join source_path manga_name in
      if negb (os_path_isdir fs manga_dir) then
        scan_mangas fs source_id source_path rest db manga_count chapter_count
      else
        match (entries <- os_listdir fs manga_dir ;;
               discover_chapters fs manga_dir (sorted entries) []) with
        | Raise e => (Raise e, db)
        | Ret [] =>
            scan_mangas fs source_id source_path rest db manga_count
                        chapter_count
        | Ret chapters_found =>
            match _find_cover fs manga_dir with
            | Raise e => (Raise e, db)
            | Ret cover =>
                let '(manga_id, db1) :=
                  add_manga db manga_name source_id (or_empty cover)
                            (len chapters_found) in
                let '(chapter_count', db2) :=
                  register_chapters db1 manga_id chapters_found
                                    chapter_count in
                scan_mangas fs source_id source_path rest db2
                            (manga_count + 1) chapter_count'
            end
        end
  end.

Definition scan_source (fs : filesystem) (db : DatabaseManager)
           (source_id : Z) (source_path : string)
  : outcome summary * DatabaseManager :=
  if negb (os_path_isdir fs source_path) then (Ret (mkSummary 0 0), db)
  else
    match os_listdir fs source_path with
    | Raise e => (Raise e, db)
    | Ret names =>
        scan_mangas fs source_id source_path (sorted names) db 0 0
    end.

End scanner.

(* ------------------------------------------------------------------ *)
(** ** [get_page_thumbnail] over Pillow

    Pillow is the environment: decoding, [Image.thumbnail] (which resizes
    in place; here it returns the resized image) and JPEG encoding are
    oracles that may raise. *)

Section Thumbnail.
Import comic_parser.
Local Open Scope py_scope.

Variable Image : Type.
Variable Image_open : bytes -> outcome Image.
Variable Image_thumbnail : Image -> Z * Z -> outcome Image.
Variable Image_save_jpeg : Image -> Z -> outcome bytes.

(** The body of the [try] block. *)
Definition render_thumbnail (image_data : bytes) (max_size : Z * Z)
  : outcome bytes :=
  img <- Image_open image_data ;;
  img' <- Image_thumbnail img max_size ;;
  Image_save_jpeg img' 85.

Definition get_page_thumbnail (fs : filesystem) (chapter_path : string)
           (page_number : Z) (max_size : Z * Z) : outcome (option bytes) :=
  image_data <- get_page_image fs chapter_path page_number ;;
  match image_data with
  | None => Ret None
  | Some data =>
      match render_thumbnail data max_size with
      | Ret b => Ret (Some b)
      | Raise _ => Ret None
      end
  end.

End Thumbnail.

(* ------------------------------------------------------------------ *)
(** ** The chapter-number rules as the specification words them

    A second definition, written from the three rules of the
    specification and not from the regular expressions, to be compared
    with [scanner._extract_chapter_number].  The set of separator
    characters is a parameter. *)

Module HeuristicSpec.

Fixpoint take_while (p : ascii -> bool) (s : string) : string :=
  match s with
  | String c t => if p c then String c (take_while p t) else EmptyString
  | EmptyString => EmptyString
  end.

Fixpoint drop_while (p : ascii -> bool) (s : string) : string :=
  match s with
  | String c t => if p c then drop_while p t else s
  | EmptyString => EmptyString
  end.

(** A numeric token at the head of [s]: an integer (a run of digits), or
    a decimal (a run of digits, a dot, a run of digits). *)
Definition numeric_token (s : string) : option string :=
  match take_while re.digit s with
  | EmptyString => None
  | ip =>
      match drop_while re.digit s with
      | String c t =>
          if Ascii.eqb c "."%char then
            match take_while re.digit t with
            | EmptyString => Some ip
            | fp => Some (ip ++ "." ++ fp)
            end
          else Some ip
      | EmptyString => Some ip
      end
  end.

(** Rule 1 at the head of [s]: the literal [ch], optionally followed by
    [apter], then optional separators, then a numeric token. *)
Definition marker_at (sep : ascii -> bool) (s : string) : option string :=
  match re.lit_ci "ch" s with
  | None => None
  | Some s1 =>
      let s2 := match re.lit_ci "apter" s1 with
                | Some t => t
                | None => s1
                end in
      numeric_token (drop_while sep s2)
  end.

(** Rule 1 searched anywhere in the name, leftmost first. *)
Fixpoint find_marker (sep : ascii -> bool) (s : string) : option string :=
  match marker_at sep s with
  | Some t => Some t
  | None =>
      match s with
      | String _ t => find_marker sep t
      | EmptyString => None
      end
  end.

Definition extractNumber (sep : ascii -> bool) (name : string) : Q :=
  match find_marker sep name with
  | Some t => PyFloat.float t
  | None =>
      match numeric_token name with
      | Some t => PyFloat.float t
      | None => 0%Q
      end
  end.

(** The separators the specification lists: space, [.], [_], [-]. *)
Definition listed_separator (c : ascii) : bool :=
  Ascii.eqb c " "%char || Ascii.eqb c "."%char || Ascii.eqb c "_"%char
  || Ascii.eqb c "-"%char.

End HeuristicSpec.

(* ------------------------------------------------------------------ *)
(** ** Concrete file systems

    A file system given by a table from paths to nodes, used to run the
    code on explicit trees. *)

Module Disk.

Inductive zip_state : Type :=
| NotZip                    (* [is_zipfile] answers [False] *)
| Zip (z : ZipFile)         (* a ZIP container that opens *)
| DamagedZip.               (* the end-of-central-directory record is
                               there, so [is_zipfile] answers [True]; a
                               central-directory record is damaged, so
                               [ZipFile] raises [BadZipFile] *)

Inductive node : Type :=
| Folder (names : list string)
| LockedFolder              (* a directory whose listing is denied *)
| File (content : bytes) (z : zip_state).

Definition table := list (string * node).

Fixpoint lookup (t : table) (p : string) : option node :=
  match t with
  | [] => None
  | (q, n) :: rest => if String.eqb q p then Some n else lookup rest p
  end.

Definition mount (t : table) : filesystem :=
  mkFs
    (fun p => match lookup t p with
              | Some (Folder _) | Some LockedFolder => true
              | _ => false
              end)
    (fun p => match lookup t p with
              | Some (File _ _) => true
              | _ => false
              end)
    (fun p => match lookup t p with
              | Some (Folder names) => Ret names
              | _ => Raise OSError
              end)
    (fun p => match lookup t p with
              | Some (File _ (Zip _)) | Some (File _ DamagedZip) => true
              | _ => false
              end)
    (fun p => match lookup t p with
              | Some (File _ (Zip z)) => Ret z
              | Some (File _ _) => Raise BadZipFile
              | _ => Raise OSError
              end)
    (fun p => match lookup t p with
              | Some (File content _) => Ret content
              | _ => Raise OSError
              end).

(** No locked folder and no damaged archive in the table. *)
Definition healthy_node (n : node) : bool :=
  match n with
  | LockedFolder => false
  | File _ DamagedZip => false
  | _ => true
  end.

Definition healthy (t : table) : bool :=
  forallb (fun e => healthy_node (snd e)) t.

Definition empty_db : DatabaseManager := mkDb [] [] 0 0.

(** An archive member holding the given bytes. *)
Definition member (name : string) (b : bytes) : string * outcome bytes :=
  (name, Ret b).

End Disk.

(** The trees the statements below are run on. *)
Module Scenario.
Import Disk.

Definition jpeg : bytes := [xff; xd8; xff; xe0].
Definition png : bytes := [x89; x50; x4e; x47].

(** [Chapter 01.cbz]: three images (stored out of order) and a note. *)
Definition chapter01 : ZipFile :=
  mkZip [member "p3.jpg" [x33]; member "p1.jpg" [x31];
         member "readme.txt" [x72]; member "p2.PNG" [x32]].

(** [Chapter 02.cbz]: a ZIP container with no image in it. *)
Definition chapter02 : ZipFile :=
  mkZip [member "readme.txt" [x72]; member "__MACOSX/p1.jpg" [x00]].

(** A source root with [Alpha/] (two archives) and an empty [Beta/]. *)
Definition library : table :=
  [ ("/lib", Folder ["Beta"; "Alpha"]);
    ("/lib/Alpha", Folder ["Chapter 02.cbz"; "Chapter 01.cbz"]);
    ("/lib/Alpha/Chapter 01.cbz", File [] (Zip chapter01));
    ("/lib/Alpha/Chapter 02.cbz", File [] (Zip chapter02));
    ("/lib/Beta", Folder []) ].

(** A chapter folder of two images and a text file. *)
Definition folder_chapter : table :=
  [ ("/m/001", Folder ["b.png"; "notes.txt"; "a.jpg"]);
    ("/m/001/a.jpg", File jpeg NotZip);
    ("/m/001/b.png", File png NotZip);
    ("/m/001/notes.txt", File [x68; x69] NotZip) ].

(** A manga whose second archive passes [is_zipfile] and cannot be
    opened, and a manga with a chapter folder that cannot be listed. *)
Definition damaged_library : table :=
  [ ("/lib", Folder ["Alpha"]);
    ("/lib/Alpha", Folder ["Chapter 01.cbz"; "Chapter 02.cbz"]);
    ("/lib/Alpha/Chapter 01.cbz", File [] (Zip chapter01));
    ("/lib/Alpha/Chapter 02.cbz", File [] DamagedZip) ].

Definition locked_library : table :=
  [ ("/lib", Folder ["Alpha"]);
    ("/lib/Alpha", Folder ["001"; "Chapter 01.cbz"]);
    ("/lib/Alpha/001", LockedFolder);
    ("/lib/Alpha/Chapter 01.cbz", File [] (Zip chapter01)) ].

(** An archive that opens and lists one page whose data cannot be read. *)
Definition bad_member : table :=
  [ ("/c.cbz", File [] (Zip (mkZip [("p1.jpg", Raise BadZipFile)]))) ].

(** A file named like an archive and cut off before its end record:
    [is_zipfile] answers [False]. *)
Definition truncated : table :=
  [ ("/t.cbz", File [x50; x4b; x03; x04] NotZip) ].

(** Cover picking. *)
Definition with_cover : table :=
  [ ("/m", Folder ["page_001.jpg"; "cover.jpg"]) ].
Definition without_cover : table :=
  [ ("/m", Folder ["page_002.jpg"; "page_001.jpg"]) ].
Definition no_images : table :=
  [ ("/m", Folder ["notes.txt"; "Chapter 01.cbz"]) ].

(** A manga directory [/m] with the given entries. *)
Definition shelf (names : list string) : table := [ ("/m", Folder names) ].

(** A stand-in for Pillow: an image is its size; bytes decode when they
    start with the JPEG marker. *)
Definition toy_open (b : bytes) : outcome (Z * Z) :=
  match b with
  | xff :: xd8 :: _ => Ret (1200, 1600)
  | _ => Raise UnidentifiedImageError
  end.
Definition toy_thumbnail (img : Z * Z) (max_size : Z * Z)
  : outcome (Z * Z) := Ret max_size.
Definition toy_save (img : Z * Z) (quality : Z) : outcome bytes :=
  Ret [xff; xd8].

End Scenario.

(* ------------------------------------------------------------------ *)
(** ** Vocabulary of the statements *)

(** Ascending order of names, as [sorted] produces it. *)
Definition le_name (a b : string) : Prop := String.leb a b = true.

(** [f] is the first, by name, of the entries of [names] that pass
    [test]. *)
Definition first_by_name (test : string -> bool) (names : list string)
           (f : string) : Prop :=
  In f names /\ test f = true
  /\ forall g, In g names -> test g = true -> le_name f g.

(** A chapter row as [scan_source] may insert it: the path is an archive
    that [is_cbz_file] accepts, or a directory with at least one page; the
    stored page count is the one [get_page_count] returned. *)
Definition accepted_row (fs : filesystem) (c : chapter_row) : Prop :=
  comic_parser.get_page_count fs (c_file_path c) = Ret (c_page_count c)
  /\ (comic_parser.is_cbz_file fs (c_file_path c) = true
      \/ (os_path_isdir fs (c_file_path c) = true /\ 0 < c_page_count c)).

(** The same for an element of [chapters_found]. *)
Definition accepted (fs : filesystem) (ch : scanner.chapter) : Prop :=
  comic_parser.get_page_count fs (scanner.path ch)
  = Ret (scanner.page_count ch)
  /\ (comic_parser.is_cbz_file fs (scanner.path ch) = true
      \/ (os_path_isdir fs (scanner.path ch) = true
          /\ 0 < scanner.page_count ch)).

(** The sum of the [total_chapters] columns. *)
Definition total_of (ms : list manga_row) : Z :=
  fold_right (fun m acc => m_total_chapters m + acc) 0 ms.

(** A chapter row holding the fields of a discovered chapter. *)
Definition row_of (manga_id : Z) (ch : scanner.chapter) (r : chapter_row)
  : Prop :=
  c_manga_id r = manga_id
  /\ c_chapter_number r = scanner.number ch
  /\ c_title r = scanner.title ch
  /\ c_file_path r = scanner.path ch
  /\ c_page_count r = scanner.page_count ch.

(** What a scan that started from [db] with the counters [mc] and [cc]
    has inserted when it leaves [db'] and the outcome [r]: new rows only,
    appended; every new manga row announces at least one chapter; every
    new chapter row is an accepted one; the new chapter rows are as many
    as the new manga rows announce; the returned counters count the new
    rows. *)
Definition emitted (fs : filesystem) (db db' : DatabaseManager)
           (r : outcome scanner.summary) (mc cc : Z) : Prop :=
  exists new_m new_c,
    mangas db' = (mangas db ++ new_m)%list
    /\ chapters db' = (chapters db ++ new_c)%list
    /\ Forall (fun m => 1 <= m_total_chapters m) new_m
    /\ Forall (accepted_row fs) new_c
    /\ total_of new_m = len new_c
    /\ forall s, r = Ret s ->
                 scanner.s_mangas s = mc + len new_m
                 /\ scanner.s_chapters s = cc + len new_c.

(** Every directory can be listed, and every archive that [is_cbz_file]
    accepts can be opened. *)
Definition listable (fs : filesystem) : Prop :=
  forall p, os_path_isdir fs p = true -> exists l, os_listdir fs p = Ret l.

Definition openable (fs : filesystem) : Prop :=
  forall p, comic_parser.is_cbz_file fs p = true ->
            exists z, zipfile_open fs p = Ret z.

(** A name made of [ch], a tab and [5]. *)
Definition ch_tab_5 : string :=
  String "c" (String "h" (String (ascii_of_nat 9) "5")).

(** An optional token with the outer layer [re.match_] adds. *)
Definition lift (t : option string) : option (option string) :=
  match t with
  | Some x => Some (Some x)
  | None => None
  end.

(* ------------------------------------------------------------------ *)
(** ** Vocabulary of the further properties *)

(** The test of the comprehension in [list_cbz_pages] and of the loop in
    [extract_cbz_to_folder]. *)
Definition is_page_member (name : string) : bool :=
  comic_parser.is_image_file name
  && negb (PyStr.startswith name "__MACOSX").

(** Two file systems that differ at most in the order in which
    [os.listdir] enumerates a directory. *)
Definition same_listing (a b : outcome (list string)) : Prop :=
  match a, b with
  | Ret l, Ret l' => Permutation l l'
  | Raise e, Raise e' => e = e'
  | _, _ => False
  end.

Definition same_up_to_listing_order (fs fs' : filesystem) : Prop :=
  (forall p, os_path_isdir fs p = os_path_isdir fs' p)
  /\ (forall p, os_path_isfile fs p = os_path_isfile fs' p)
  /\ (forall p, zipfile_is_zipfile fs p = zipfile_is_zipfile fs' p)
  /\ (forall p, zipfile_open fs p = zipfile_open fs' p)
  /\ (forall p, open_rb_read fs p = open_rb_read fs' p)
  /\ (forall p, same_listing (os_listdir fs p) (os_listdir fs' p)).

(** The same file system with every directory enumerated backwards. *)
Definition reversed_listing (fs : filesystem) : filesystem :=
  mkFs (os_path_isdir fs) (os_path_isfile fs)
       (fun p => bind (os_listdir fs p) (fun l => Ret (rev l)))
       (zipfile_is_zipfile fs) (zipfile_open fs) (open_rb_read fs).

(** [start, start + 1, ...], [n] identifiers. *)
Definition ids_from (start : Z) (n : nat) : list Z :=
  map (fun k => start + Z.of_nat k) (seq 0 n).

(** A chapter row lies two levels below [root]: it is the entry [e] of
    the directory [root/name], and [name] is the title of the manga row it
    refers to. *)
Definition two_levels_below (fs : filesystem) (root : string)
           (names : list string) (new_m : list manga_row) (c : chapter_row)
  : Prop :=
  exists m e entries,
    In m new_m /\ c_manga_id c = m_id m
    /\ In (m_title m) names
    /\ os_listdir fs (OsPath.join root (m_title m)) = Ret entries
    /\ In e entries
    /\ c_file_path c = OsPath.join (OsPath.join root (m_title m)) e.

(** The rows a scan of the directories [names] of [root] adds to [db]. *)
Definition inserted (fs : filesystem) (sid : Z) (root : string)
           (names : list string) (db db' : DatabaseManager) : Prop :=
  exists new_m new_c,
    mangas db' = (mangas db ++ new_m)%list
    /\ chapters db' = (chapters db ++ new_c)%list
    /\ map m_id new_m = ids_from (mangas_seq db + 1) (length new_m)
    /\ mangas_seq db' = mangas_seq db + len new_m
    /\ map c_id new_c = ids_from (chapters_seq db + 1) (length new_c)
    /\ chapters_seq db' = chapters_seq db + len new_c
    /\ Forall (fun m => m_source_id m = sid /\ In (m_title m) names
                        /\ os_path_isdir fs (OsPath.join root (m_title m))
                           = true) new_m
    /\ Forall (two_levels_below fs root names new_m) new_c.

(** No character of [w] matches a dot under [re.I]. *)
Fixpoint dotless (w : string) : bool :=
  match w with
  | EmptyString => true
  | String a w' =>
      negb (Ascii.eqb (PyStr.lower_char ".") (PyStr.lower_char a))
      && dotless w'
  end.

(** The extensions [is_cbz_file] accepts, in any letter case. *)
Definition archive_extension (x : string) : Prop :=
  PyStr.lower x = ".cbz" \/ PyStr.lower x = ".zip".

(** Whether a slash occurs in [s]. *)
Fixpoint has_slash (s : string) : bool :=
  match s with
  | EmptyString => false
  | String c t => Ascii.eqb c "/" || has_slash t
  end.

(** Whether [s] is made of decimal digits. *)
Fixpoint all_digits (s : string) : bool :=
  match s with
  | EmptyString => true
  | String c t => re.digit c && all_digits t
  end.

(** The shape of a numeric token: digits, or digits, a dot and digits. *)
Definition token_shape (t : string) : Prop :=
  exists ip fp,
    all_digits ip = true /\ all_digits fp = true
    /\ (t = ip \/ t = ip ++ String "." fp).

(* ------------------------------------------------------------------ *)
(** ** [extract_cbz_to_folder]

    The function writes to the disk.  Its effects are recorded as events,
    in order; [tempfile.mkdtemp] and [ZipFile.extract] are oracles that may
    raise.  The events are returned also when an exception leaves the
    function: what was written before stays written. *)

Inductive disk_event : Type :=
| MadeTempDir (path : string)
| Extracted (member dest_dir : string).

Section ExtractToFolder.
Variable tempfile_mkdtemp : string -> outcome string.
Variable zip_extract : ZipFile -> string -> string -> outcome string.

(** The loop [for name in z.namelist()]. *)
Fixpoint extract_members (z : ZipFile) (names : list string)
         (dest_dir : string) (log : list disk_event)
  : outcome unit * list disk_event :=
  match names with
  | [] => (Ret tt, log)
  | name :: rest =>
      if comic_parser.is_image_file name
         && negb (PyStr.startswith name "__MACOSX")
      then
        match zip_extract z name dest_dir with
        | Ret _ =>
            extract_members z rest dest_dir
                            (log ++ [Extracted name dest_dir])%list
        | Raise e => (Raise e, log)
        end
      else extract_members z rest dest_dir log
  end.

Definition extract_cbz_to_folder (fs : filesystem) (cbz_path : string)
           (dest_dir : option string) : outcome string * list disk_event :=
  match
    match dest_dir with
    | None =>
        match tempfile_mkdtemp "comicviewer_" with
        | Ret d => Ret (d, [MadeTempDir d])
        | Raise e => Raise e
        end
    | Some d => Ret (d, [])
    end
  with
  | Raise e => (Raise e, [])
  | Ret (dest, log) =>
      match zipfile_open fs cbz_path with
      | Raise e => (Raise e, log)
      | Ret z =>
          match extract_members z (namelist z) dest log with
          | (Ret _, log') => (Ret dest, log')
          | (Raise e, log') => (Raise e, log')
          end
      end
  end.

End ExtractToFolder.

(** The members an event list extracted, in order. *)
Fixpoint extracted_members (log : list disk_event) : list string :=
  match log with
  | [] => []
  | Extracted name _ :: rest => name :: extracted_members rest
  | MadeTempDir _ :: rest => extracted_members rest
  end.

(* ------------------------------------------------------------------ *)
(** ** api.py: the page endpoints

    An endpoint returns a response, raises [HTTPException], or lets
    another exception through (which the framework turns into a server
    error). *)

Module api.

Inductive http (A : Type) : Type :=
| Ok (a : A)
| HTTPException (status_code : Z) (detail : string)
| Unhandled (e : exn).

Arguments Ok {A} a.
Arguments HTTPException {A} status_code detail.
Arguments Unhandled {A} e.

(** [DatabaseManager.get_chapter]: [SELECT * FROM chapters WHERE id = ?],
    first row. *)
Definition get_chapter (db : DatabaseManager) (chapter_id : Z)
  : option chapter_row :=
  find (fun r => c_id r =? chapter_id) (chapters db).

(** [str(n)] for an [int]. *)
Definition str (n : Z) : string :=
  DecimalString.NilZero.string_of_int (Z.to_int n).

(** [range(n)]. *)
Definition range (n : Z) : list Z := map Z.of_nat (seq 0 (Z.to_nat n)).

Record page_entry : Type := mkPageEntry {
  page_number : Z;
  url : string
}.

Record page_listing : Type := mkPageListing {
  pl_chapter_id : Z;
  pl_page_count : Z;
  pl_pages : list page_entry
}.

Definition list_pages (db : DatabaseManager) (fs : filesystem)
           (chapter_id : Z) : http page_listing :=
  match get_chapter db chapter_id with
  | None => HTTPException 404 "Chapter not found."
  | Some chapter =>
      match comic_parser.get_page_count fs (c_file_path chapter) with
      | Raise e => Unhandled e
      | Ret page_count =>
          Ok (mkPageListing
                chapter_id page_count
                (map (fun i =>
                        mkPageEntry
                          i ("/api/chapters/" ++ str chapter_id
                             ++ "/pages/" ++ str i))
                     (range page_count)))
      end
  end.

Definition bytes_eqb (a b : bytes) : bool :=
  if list_eq_dec Byte.byte_eq_dec a b then true else false.

(** [image_data[i:j]]. *)
Definition slice (image_data : bytes) (i j : nat) : bytes :=
  firstn (j - i) (skipn i image_data).

Definition png_magic : bytes := [x89; x50; x4e; x47; x0d; x0a; x1a; x0a].
Definition riff_magic : bytes := [x52; x49; x46; x46].
Definition webp_magic : bytes := [x57; x45; x42; x50].
Definition gif_magic : bytes := [x47; x49; x46].

(** The content-type detection of [get_page]. *)
Definition content_type (image_data : bytes) : string :=
  if bytes_eqb (slice image_data 0 8) png_magic then "image/png"
  else if bytes_eqb (slice image_data 0 4) riff_magic
          && bytes_eqb (slice image_data 8 12) webp_magic
       then "image/webp"
  else if bytes_eqb (slice image_data 0 3) gif_magic then "image/gif"
  else "image/jpeg".

Record response : Type := mkResponse {
  content : bytes;
  media_type : string
}.

Definition get_page (db : DatabaseManager) (fs : filesystem)
           (chapter_id page_number : Z) : http response :=
  match get_chapter db chapter_id with
  | None => HTTPException 404 "Chapter not found."
  | Some chapter =>
      match comic_parser.get_page_image fs (c_file_path chapter)
                                        page_number with
      | Raise e => Unhandled e
      | Ret None => HTTPException 404 "Page not found."
      | Ret (Some image_data) =>
          Ok (mkResponse image_data (content_type image_data))
      end
  end.

End api.

(** An entry path that [scan_source] takes for a chapter: an archive that
    [is_cbz_file] accepts, or a directory whose page count is above 0. *)
Definition chapter_path (fs : filesystem) (p : string) : Prop :=
  comic_parser.is_cbz_file fs p = true
  \/ (os_path_isdir fs p = true
      /\ exists n, comic_parser.get_page_count fs p = Ret n /\ 0 < n).

(** The thumbnail endpoint of api.py, over Pillow. *)
Section ThumbnailEndpoint.
Variable Image : Type.
Variable Image_open : bytes -> outcome Image.
Variable Image_thumbnail : Image -> Z * Z -> outcome Image.
Variable Image_save_jpeg : Image -> Z -> outcome bytes.

Definition get_thumbnail (db : DatabaseManager) (fs : filesystem)
           (chapter_id page_number : Z) : api.http api.response :=
  match api.get_chapter db chapter_id with
  | None => api.HTTPException 404 "Chapter not found."
  | Some chapter =>
      match get_page_thumbnail Image Image_open Image_thumbnail
                               Image_save_jpeg fs (c_file_path chapter)
                               page_number (300, 400) with
      | Raise e => api.Unhandled e
      | Ret None => api.HTTPException 404 "Page not found."
      | Ret (Some thumb_data) =>
          api.Ok (api.mkResponse thumb_data "image/jpeg")
      end
  end.

End ThumbnailEndpoint.

(** Stand-ins for [tempfile.mkdtemp] and [ZipFile.extract], and the
    database a scan of [Scenario.library] leaves. *)
Definition toy_mkdtemp (prefix : string) : outcome string :=
  Ret ("/tmp/" ++ prefix ++ "0001").

Definition toy_extract (z : ZipFile) (member dest_dir : string)
  : outcome string :=
  match zip_read z member with
  | Ret _ => Ret (OsPath.join dest_dir member)
  | Raise e => Raise e
  end.

Definition scanned_library : DatabaseManager :=
  snd (scanner.scan_source (Disk.mount Scenario.library) Disk.empty_db 1
                           "/lib").

(* ------------------------------------------------------------------ *)
(** ** scanner.py over a database whose inserts can fail

    [scan_source] receives the database as its parameter [db] and calls
    [db.add_manga] and [db.add_chapter], outside any [try].  Here the
    database is any state with these two operations, each returning the
    new row id or raising; an exception of an insert leaves the scan at
    the call, with the rows of the earlier inserts in place.  The
    file-system side is the one of [scanner]. *)

Module Port.
Import scanner.

Section Database.

Variable Store : Type.
Variable add_manga :
  Store -> string -> Z -> string -> Z -> outcome Z * Store.
Variable add_chapter :
  Store -> Z -> Q -> string -> string -> Z -> outcome Z * Store.

(** The loop [for ch in chapters_found]. *)
Fixpoint register_chapters (db : Store) (manga_id : Z) (chs : list chapter)
         (chapter_count : Z) : outcome Z * Store :=
  match chs with
  | [] => (Ret chapter_count, db)
  | ch :: rest =>
      match add_chapter db manga_id (number ch) (path ch) (title ch)
                        (page_count ch) with
      | (Raise e, db') => (Raise e, db')
      | (Ret _, db') =>
          register_chapters db' manga_id rest (chapter_count + 1)
      end
  end.

(** The loop [for manga_name in sorted(os.listdir(source_path))]. *)
Fixpoint scan_mangas (fs : filesystem) (source_id : Z) (source_path : string)
         (names : list string) (db : Store) (manga_count chapter_count : Z)
  : outcome summary * Store :=
  match names with
  | [] => (Ret (mkSummary manga_count chapter_count), db)
  | manga_name :: rest =>
      let manga_dir := OsPath.join source_path manga_name in
      if negb (os_path_isdir fs manga_dir) then
        scan_mangas fs source_id source_path rest db manga_count chapter_count
      else
        match bind (os_listdir fs manga_dir)
                   (fun entries =>
                      discover_chapters fs manga_dir (sorted entries) []) with
        | Raise e => (Raise e, db)
        | Ret [] =>
            scan_mangas fs source_id source_path rest db manga_count
                        chapter_count
        | Ret chapters_found =>
            match _find_cover fs manga_dir with
            | Raise e => (Raise e, db)
            | Ret cover =>
                match add_manga db manga_name source_id (or_empty cover)
                                (len chapters_found) with
                | (Raise e, db1) => (Raise e, db1)
                | (Ret manga_id, db1) =>
                    match register_chapters db1 manga_id chapters_found
                                            chapter_count with
                    | (Raise e, db2) => (Raise e, db2)
                    | (Ret chapter_count', db2) =>
                        scan_mangas fs source_id source_path rest db2
                                    (manga_count + 1) chapter_count'
                    end
                end
            end
        end
  end.

Definition scan_source (fs : filesystem) (db : Store) (source_id : Z)
           (source_path : string) : outcome summary * Store :=
  if negb (os_path_isdir fs source_path) then (Ret (mkSummary 0 0), db)
  else
    match os_listdir fs source_path with
    | Raise e => (Raise e, db)
    | Ret names =>
        scan_mangas fs source_id source_path (sorted names) db 0 0
    end.

End Database.

End Port.

(** The tables of [DatabaseManager] as such a database: both inserts
    succeed on every state. *)
Definition tables_add_manga (db : DatabaseManager) (title : string)
           (source_id : Z) (cover_path : string) (total_chapters : Z)
  : outcome Z * DatabaseManager :=
  let '(rowid, db') := add_manga db title source_id cover_path
                                 total_chapters in
  (Ret rowid, db').

Definition tables_add_chapter (db : DatabaseManager) (manga_id : Z)
           (chapter_number : Q) (file_path title : string) (page_count : Z)
  : outcome Z * DatabaseManager :=
  let '(rowid, db') := add_chapter db manga_id chapter_number file_path title
                                   page_count in
  (Ret rowid, db').

(** database.py with the foreign keys of its schema.  Connections are
    opened with [PRAGMA foreign_keys = ON]; [mangas.source_id] references
    [sources(id)] and [chapters.manga_id] references [mangas(id)]: an
    insert whose reference has no row raises [sqlite3.IntegrityError] and
    inserts nothing.  [sources] holds the ids of the rows of that table. *)
Module Sqlite.

Record Database : Type := mkSql {
  sources : list Z;
  tables : DatabaseManager
}.

Definition has_source (db : Database) (source_id : Z) : bool :=
  existsb (Z.eqb source_id) (sources db).

Definition has_manga (db : Database) (manga_id : Z) : bool :=
  existsb (fun m => m_id m =? manga_id) (mangas (tables db)).

Definition add_manga (db : Database) (title : string) (source_id : Z)
           (cover_path : string) (total_chapters : Z)
  : outcome Z * Database :=
  if has_source db source_id then
    let '(rowid, t) := add_manga (tables db) title source_id cover_path
                                 total_chapters in
    (Ret rowid, mkSql (sources db) t)
  else (Raise IntegrityError, db).

Definition add_chapter (db : Database) (manga_id : Z) (chapter_number : Q)
           (file_path title : string) (page_count : Z)
  : outcome Z * Database :=
  if has_manga db manga_id then
    let '(rowid, t) := add_chapter (tables db) manga_id chapter_number
                                   file_path title page_count in
    (Ret rowid, mkSql (sources db) t)
  else (Raise IntegrityError, db).

End Sqlite.

(** The part of the tree under [root] that a scan reads can be read: the
    root lists; each of its entries that is a directory lists; and of the
    entries of such a directory, each archive that [is_cbz_file] accepts
    opens and each other directory lists.  Nothing is asked of any other
    path of the file system. *)
Definition readable_entry (fs : filesystem) (p : string) : Prop :=
  (comic_parser.is_cbz_file fs p = true ->
   exists z, zipfile_open fs p = Ret z)
  /\ (comic_parser.is_cbz_file fs p = false ->
      os_path_isdir fs p = true ->
      exists l, os_listdir fs p = Ret l).

Definition readable_manga (fs : filesystem) (d : string) : Prop :=
  os_path_isdir fs d = true ->
  exists entries,
    os_listdir fs d = Ret entries
    /\ forall e, In e entries -> readable_entry fs (OsPath.join d e).

Definition readable_source (fs : filesystem) (root : string) : Prop :=
  os_path_isdir fs root = true ->
  exists names,
    os_listdir fs root = Ret names
    /\ forall n, In n names -> readable_manga fs (OsPath.join root n).

(** What a scan of [root] finds: [name] is a directory listed in [root]
    whose entries give the chapters [chs], at least one.  For such a
    manga the scan inserts one manga row and one chapter row for each
    element of [chs]. *)
Definition found (fs : filesystem) (root name : string)
           (chs : list scanner.chapter) : Prop :=
  exists names entries,
    os_listdir fs root = Ret names
    /\ In name names
    /\ os_path_isdir fs (OsPath.join root name) = true
    /\ os_listdir fs (OsPath.join root name) = Ret entries
    /\ scanner.discover_chapters fs (OsPath.join root name)
                                 (sorted entries) [] = Ret chs
    /\ chs <> [].

(** The database accepts the inserts that the scan of [root] for source
    [source_id], started in state [db], asks for: some condition [ready]
    holds of [db]; in a ready state the insert of a manga the scan found,
    with its cover and its number of chapters, succeeds and leaves the
    new manga [open_]; for an open manga the insert of one of the
    chapters found succeeds and leaves it open; and a state with an open
    manga is ready.  Nothing is asked about any other insert. *)
Definition accepts_scan (Store : Type)
           (add_manga :
              Store -> string -> Z -> string -> Z -> outcome Z * Store)
           (add_chapter :
              Store -> Z -> Q -> string -> string -> Z -> outcome Z * Store)
           (fs : filesystem) (root : string) (source_id : Z) (db : Store)
  : Prop :=
  exists (ready : Store -> Prop) (open_ : Store -> Z -> Prop),
    ready db
    /\ (forall d name chs cover,
           ready d ->
           found fs root name chs ->
           scanner._find_cover fs (OsPath.join root name) = Ret cover ->
           exists id d',
             add_manga d name source_id (scanner.or_empty cover) (len chs)
             = (Ret id, d')
             /\ open_ d' id)
    /\ (forall d id name chs ch,
           open_ d id ->
           found fs root name chs ->
           In ch chs ->
           exists cid d',
             add_chapter d id (scanner.number ch) (scanner.path ch)
                         (scanner.title ch) (scanner.page_count ch)
             = (Ret cid, d')
             /\ open_ d' id)
    /\ (forall d id, open_ d id -> ready d).

(** A library beside a folder that cannot be listed and an archive that
    cannot be opened, both outside the scanned root. *)
Definition library_and_more : Disk.table :=
  (Scenario.library
     ++ [ ("/other", Disk.LockedFolder);
          ("/other.cbz", Disk.File [] Disk.DamagedZip) ])%list.

(* ------------------------------------------------------------------ *)
(** ** Pillow, as its documentation describes it

    [get_page_thumbnail] calls three operations of Pillow, which is not
    code of this repository.  What follows is written from Pillow's
    documentation and the size rule of [Image.thumbnail]
    ([preserve_aspect_ratio]): an image is its size and its mode;
    [Image.thumbnail] keeps an image that already fits, and otherwise
    resizes it to the requested box with one side recomputed from the
    aspect ratio, never enlarging it and keeping the mode; the JPEG writer
    accepts the modes of its [RAWMODE] table and raises [OSError] (cannot
    write mode ... as JPEG) for every other mode, RGBA, LA and P among
    them.  Python floats are replaced by exact rationals.  Decoding bytes
    and encoding pixels stay oracles. *)

Module Pillow.

Record Image : Type := mkImage {
  width : Z;
  height : Z;
  mode : string
}.

(** [max(min(math.floor(number), math.ceil(number), key=key), 1)];
    [min] keeps its first argument on a tie. *)
Definition round_aspect (number : Q) (key : Z -> Q) : Z :=
  let lo := Qfloor number in
  let hi := Qceiling number in
  Z.max (if Qle_bool (key lo) (key hi) then lo else hi) 1.

(** The size [Image.thumbnail] resizes to, [None] when the image already
    fits the requested size. *)
Definition preserve_aspect_ratio (img : Image) (provided_size : Z * Z)
  : option (Z * Z) :=
  let '(x, y) := provided_size in
  if (x >=? width img) && (y >=? height img) then None
  else
    let aspect := (inject_Z (width img) / inject_Z (height img))%Q in
    if Qle_bool aspect (inject_Z x / inject_Z y)%Q then
      Some (round_aspect
              (inject_Z y * aspect)%Q
              (fun n => Qabs (aspect - inject_Z n / inject_Z y)%Q),
            y)
    else
      Some (x,
            round_aspect
              (inject_Z x / aspect)%Q
              (fun n => if n =? 0 then 0%Q
                        else Qabs (aspect - inject_Z x / inject_Z n)%Q)).

(** [img.thumbnail(size, resample)]: the image itself when it fits;
    a division by zero or a size that is not positive raises. *)
Definition thumbnail (img : Image) (size : Z * Z) : outcome Image :=
  match preserve_aspect_ratio img size with
  | None => Ret img
  | Some (x, y) =>
      if (height img =? 0) || (width img =? 0) || (snd size =? 0)
      then Raise OtherError
      else if (0 <? x) && (0 <? y) then Ret (mkImage x y (mode img))
      else Raise OtherError
  end.

(** The modes the JPEG writer accepts. *)
Definition JPEG_RAWMODE : list string :=
  ["1"; "L"; "RGB"; "RGBX"; "CMYK"; "YCbCr"].

Section Codec.

(** The pixels as JPEG bytes at a given quality. *)
Variable encode : Image -> Z -> bytes.

(** [img.save(buf, format="JPEG", quality=quality)] followed by
    [buf.getvalue()]. *)
Definition save_jpeg (img : Image) (quality : Z) : outcome bytes :=
  if comic_parser.mem (mode img) JPEG_RAWMODE
  then Ret (encode img quality)
  else Raise OSError.

End Codec.

End Pillow.

(** A decoder and an encoder to run the thumbnail code on: bytes that
    start as a JPEG file decode to a 1200 by 1600 RGB image, bytes that
    start as a PNG file to a 1200 by 1600 RGBA image (a PNG with an alpha
    channel), bytes that start as a GIF file to a 100 by 100 palette
    image, any other bytes to nothing; the encoder writes the JPEG
    marker. *)
Definition sample_decode (b : bytes) : outcome Pillow.Image :=
  match b with
  | xff :: xd8 :: _ => Ret (Pillow.mkImage 1200 1600 "RGB")
  | x89 :: x50 :: _ => Ret (Pillow.mkImage 1200 1600 "RGBA")
  | x47 :: x49 :: _ => Ret (Pillow.mkImage 100 100 "P")
  | _ => Raise UnidentifiedImageError
  end.

Definition sample_encode (img : Pillow.Image) (quality : Z) : bytes :=
  [xff; xd8; xff; xdb].

(** A chapter folder with a JPEG page, a PNG page with an alpha channel
    and a GIF page. *)
Definition mixed_chapter : Disk.table :=
  [ ("/m/002", Disk.Folder ["a.jpg"; "b.png"; "c.gif"]);
    ("/m/002/a.jpg", Disk.File Scenario.jpeg Disk.NotZip);
    ("/m/002/b.png", Disk.File Scenario.png Disk.NotZip);
    ("/m/002/c.gif", Disk.File [x47; x49; x46; x38] Disk.NotZip) ].

(* ------------------------------------------------------------------ *)
(** ** The chapter-number heuristic on names of any code point

    [scanner._extract_chapter_number] above reads a name as code points
    below 256.  A Python [str] holds any code point, and on a [str] the
    classes of [re] and [float] are the Unicode ones: [\d] is
    [Py_UNICODE_ISDECIMAL], every decimal digit of every script; [\s] is
    [Py_UNICODE_ISSPACE]; a letter of the pattern matches, under [re.I],
    the characters with the same [Py_UNICODE_TOLOWER]; and [float] reads
    each decimal digit by its [Py_UNICODE_TODECIMAL] value.  Here a name
    is the list of its code points; the two tables of the Unicode
    database that the interpreter was built with, lower-casing and the
    decimal value, are the environment. *)

Module Unicode.

Definition str : Type := list N.

(** The code points of a string of the 8-bit model. *)
Fixpoint of_string (s : string) : str :=
  match s with
  | EmptyString => []
  | String c t => N_of_ascii c :: of_string t
  end.

Definition between (lo hi c : N) : bool := ((lo <=? c) && (c <=? hi))%N.

(** [Py_UNICODE_ISSPACE]: the characters of bidirectional type WS, B or
    S and those of category Zs. *)
Definition isspace (c : N) : bool :=
  between 9 13 c || between 28 32 c || (c =? 133)%N || (c =? 160)%N
  || (c =? 5760)%N || between 8192 8202 c || (c =? 8232)%N
  || (c =? 8233)%N || (c =? 8239)%N || (c =? 8287)%N || (c =? 12288)%N.

(** The code points of [.], [_] and [-]. *)
Definition dot : N := 46.
Definition underscore : N := 95.
Definition hyphen : N := 45.

(** [[\s._-]] *)
Definition separator (c : N) : bool :=
  isspace c || (c =? dot)%N || (c =? underscore)%N || (c =? hyphen)%N.

Inductive regex : Type :=
| Chr (a : N)                    (* a literal without case, as [\.] *)
| Str (w : str)                  (* literal letters, matched under [re.I] *)
| Seq (r1 r2 : regex)
| Opt (r : regex)                (* [r?], greedy *)
| Star (p : N -> bool)           (* [[set]*], greedy *)
| Plus (p : N -> bool)           (* [[set]+], greedy *)
| Group (r : regex).             (* capturing group 1 *)

(** The text consumed between the subject [s] and its suffix [s']. *)
Definition consumed (s s' : str) : str :=
  firstn (length s - length s') s.

(** An optional token with the outer layer [re.match] adds. *)
Definition lift (t : option str) : option (option str) :=
  match t with
  | Some x => Some (Some x)
  | None => None
  end.

(** [match.group(1)]. *)
Definition group1 (g : option str) : str :=
  match g with
  | Some t => t
  | None => []
  end.

Section Database.

(** [Py_UNICODE_TOLOWER]. *)
Variable tolower : N -> N.
(** [Py_UNICODE_TODECIMAL], [None] for -1. *)
Variable todecimal : N -> option Z.

(** [\d]. *)
Definition isdecimal (c : N) : bool :=
  match todecimal c with
  | Some _ => true
  | None => false
  end.

(** The letters [w] at the head of [s], letter case ignored. *)
Fixpoint lit_ci (w s : str) : option str :=
  match w with
  | [] => Some s
  | a :: w' =>
      match s with
      | c :: t => if (tolower c =? tolower a)%N then lit_ci w' t else None
      | [] => None
      end
  end.

Section Matcher.
Variable R : Type.

Fixpoint star (p : N -> bool) (s : str) (k : str -> option R) : option R :=
  match s with
  | c :: t =>
      if p c then
        match star p t k with
        | Some r => Some r
        | None => k s
        end
      else k s
  | [] => k s
  end.

Fixpoint run (r : regex) (s : str) (cap : option str)
         (k : str -> option str -> option R) {struct r} : option R :=
  match r with
  | Chr a =>
      match s with
      | c :: t => if (c =? a)%N then k t cap else None
      | [] => None
      end
  | Str w =>
      match lit_ci w s with
      | Some t => k t cap
      | None => None
      end
  | Seq r1 r2 => run r1 s cap (fun s' cap' => run r2 s' cap' k)
  | Opt r' =>
      match run r' s cap k with
      | Some x => Some x
      | None => k s cap
      end
  | Star p => star p s (fun s' => k s' cap)
  | Plus p =>
      match s with
      | c :: t => if p c then star p t (fun s' => k s' cap) else None
      | [] => None
      end
  | Group r' => run r' s cap (fun s' _ => k s' (Some (consumed s s')))
  end.

End Matcher.

(** [re.match(r, s, re.I)]. *)
Definition match_ (r : regex) (s : str) : option (option str) :=
  run (option str) r s None (fun _ cap => Some cap).

(** [re.search(r, s, re.I)]: the first position where [r] matches. *)
Fixpoint search (r : regex) (s : str) : option (option str) :=
  match match_ r s with
  | Some g => Some g
  | None =>
      match s with
      | _ :: t => search r t
      | [] => None
      end
  end.

(** [float(token)] for a token of decimal digits with at most one dot:
    every digit counts by its decimal value. *)
Definition digit_value (c : N) : Z :=
  match todecimal c with
  | Some v => v
  | None => 0
  end.

Fixpoint int_digits (s : str) (acc : Z) : Z :=
  match s with
  | [] => acc
  | c :: t => int_digits t (10 * acc + digit_value c)
  end.

Fixpoint split_dot (s : str) : str * str :=
  match s with
  | [] => ([], [])
  | c :: t =>
      if (c =? dot)%N then ([], t)
      else let '(a, b) := split_dot t in (c :: a, b)
  end.

Definition float (token : str) : Q :=
  let '(ip, fp) := split_dot token in
  Qred (Qmake (int_digits fp (int_digits ip 0))
              (Z.to_pos (10 ^ Z.of_nat (length fp)))).

(** [(\d+(?:\.\d+)?)] *)
Definition number_group : regex :=
  Group (Seq (Plus isdecimal) (Opt (Seq (Chr dot) (Plus isdecimal)))).

(** The first pattern: [ch], an optional [apter], the set [[\s._-]] any
    number of times, the number group. *)
Definition chapter_pattern : regex :=
  Seq (Seq (Str (of_string "ch"))
           (Seq (Opt (Str (of_string "apter"))) (Star separator)))
      number_group.

Definition _extract_chapter_number (name : str) : Q :=
  match search chapter_pattern name with
  | Some g => float (group1 g)
  | None =>
      match match_ number_group name with
      | Some g => float (group1 g)
      | None => 0%Q
      end
  end.

(** *** The three rules, read directly

    A second definition, written from the rules of the specification and
    not from the regular expressions. *)

Fixpoint take_while (p : N -> bool) (s : str) : str :=
  match s with
  | c :: t => if p c then c :: take_while p t else []
  | [] => []
  end.

Fixpoint drop_while (p : N -> bool) (s : str) : str :=
  match s with
  | c :: t => if p c then drop_while p t else s
  | [] => []
  end.

(** A numeric token at the head of [s]: an integer (a run of decimal
    digits), or a decimal (a run of digits, a dot, a run of digits). *)
Definition numeric_token (s : str) : option str :=
  match take_while isdecimal s with
  | [] => None
  | ip =>
      match drop_while isdecimal s with
      | c :: t =>
          if (c =? dot)%N then
            match take_while isdecimal t with
            | [] => Some ip
            | fp => Some (ip ++ dot :: fp)%list
            end
          else Some ip
      | [] => Some ip
      end
  end.

(** Rule 1 at the head of [s]: the letters [ch] in either case,
    optionally followed by [apter], then optional separators, then a
    numeric token. *)
Definition marker_at (sep : N -> bool) (s : str) : option str :=
  match lit_ci (of_string "ch") s with
  | None => None
  | Some s1 =>
      let s2 := match lit_ci (of_string "apter") s1 with
                | Some t => t
                | None => s1
                end in
      numeric_token (drop_while sep s2)
  end.

(** Rule 1 searched anywhere in the name, leftmost first. *)
Fixpoint find_marker (sep : N -> bool) (s : str) : option str :=
  match marker_at sep s with
  | Some t => Some t
  | None =>
      match s with
      | _ :: t => find_marker sep t
      | [] => None
      end
  end.

Definition extractNumber (sep : N -> bool) (name : str) : Q :=
  match find_marker sep name with
  | Some t => float t
  | None =>
      match numeric_token name with
      | Some t => float t
      | None => 0%Q
      end
  end.

(** Two facts of the Unicode database that the patterns rest on: no
    separator is a decimal digit, and a character that lower-cases as
    [a] does is neither a separator nor a decimal digit. *)
Definition plain_letters : Prop :=
  (forall c, separator c = true -> todecimal c = None)
  /\ (forall c, tolower c = tolower 97%N ->
                separator c = false /\ todecimal c = None).

End Database.

(** The separators the specification lists: space, [.], [_], [-]. *)
Definition listed_separator (c : N) : bool :=
  (c =? 32)%N || (c =? dot)%N || (c =? underscore)%N || (c =? hyphen)%N.

(** A letter of the pattern read without letter case: the lower-case
    ASCII letter [a] itself or its capital. *)
Definition either_case (a c : N) : bool := ((c =? a) || (c =? a - 32))%N.

(** The lower-case ASCII letters [w] at the head of [s], each in either
    case. *)
Fixpoint letters (w s : str) : option str :=
  match w with
  | [] => Some s
  | a :: w' =>
      match s with
      | c :: t => if either_case a c then letters w' t else None
      | [] => None
      end
  end.

(** A fact of the Unicode database: the only characters that lower-case
    like a letter of [chapter] are that letter and its capital. *)
Definition folds_to_ascii (tolower : N -> N) : Prop :=
  forall a c,
    In a (of_string "chapter") ->
    (tolower c =? tolower a)%N = either_case a c.

(** The database continues the 8-bit model: on the code points below
    256 it lower-cases as [PyStr.lower_char] does and its decimal digits
    are the ten ASCII digits with their values. *)
Definition continues_8bit (tolower : N -> N) (todecimal : N -> option Z)
  : Prop :=
  (forall c : ascii,
      tolower (N_of_ascii c) = N_of_ascii (PyStr.lower_char c))
  /\ (forall c : ascii,
         todecimal (N_of_ascii c)
         = if re.digit c then Some (PyFloat.digit_value c) else None).

(** A part of the Unicode database to run the heuristic on: lower-casing
    of the Latin letters below 256, and the decimal digits of ASCII, of
    the Arabic-Indic block (U+0660), of Devanagari (U+0966) and of the
    fullwidth forms (U+FF10). *)
Definition sample_tolower (c : N) : N :=
  if between 65 90 c then (c + 32)%N
  else if between 192 222 c && negb (c =? 215)%N then (c + 32)%N
  else c.

Definition sample_todecimal (c : N) : option Z :=
  if between 48 57 c then Some (Z.of_N c - 48)
  else if between 1632 1641 c then Some (Z.of_N c - 1632)
  else if between 2406 2415 c then Some (Z.of_N c - 2406)
  else if between 65296 65305 c then Some (Z.of_N c - 65296)
  else None.

(** The reading of a numeric token as made of the ten ASCII digits
    only. *)
Definition ascii_todecimal (c : N) : option Z :=
  if between 48 57 c then Some (Z.of_N c - 48) else None.

End Unicode.

(* ================================================================== *)
(** * Properties *)

(* ------------------------------------------------------------------ *)
(** ** Sorting by name *)

Section SortedFacts.

Lemma leb_trans (a b c : string) :
  String.leb a b = true -> String.leb b c = true -> String.leb a c = true.
Proof.
  revert b c. induction a as [|x a IH]; intros [|y b] [|z c];
    unfold String.leb; simpl; try congruence.
  unfold Ascii.compare.
  destruct (N.compare_spec (N_of_ascii x) (N_of_ascii y)) as [Hxy|Hxy|Hxy];
    destruct (N.compare_spec (N_of_ascii y) (N_of_ascii z)) as [Hyz|Hyz|Hyz];
    destruct (N.compare_spec (N_of_ascii x) (N_of_ascii z)) as [Hxz|Hxz|Hxz];
    try congruence; try lia.
  intros Hab Hbc. exact (IH b c Hab Hbc).
Qed.

Lemma sorted_perm (l : list string) : Permutation l (sorted l).
Proof. apply StringSort.Permuted_sort. Qed.

Lemma sorted_In (l : list string) (x : string) : In x (sorted l) <-> In x l.
Proof.
  split; intro H.
  - eapply Permutation_in; [apply Permutation_sym, sorted_perm | exact H].
  - eapply Permutation_in; [apply sorted_perm | exact H].
Qed.

Lemma sorted_ascending (l : list string) : StronglySorted le_name (sorted l).
Proof.
  assert (H : StronglySorted (fun a b => is_true (StringOrder.leb a b))
                             (StringSort.sort l)).
  { apply StringSort.StronglySorted_sort.
    intros a b c Hab Hbc. exact (leb_trans a b c Hab Hbc). }
  exact H.
Qed.

End SortedFacts.

(* ------------------------------------------------------------------ *)
(** ** Page source *)

Lemma bind_ret_inv {A B : Type} (c : outcome A) (k : A -> outcome B) (b : B) :
  bind c k = Ret b -> exists a, c = Ret a /\ k a = Ret b.
Proof. destruct c as [a|e]; simpl; intro H; [eauto | discriminate]. Qed.

Lemma list_cbz_pages_ascending (fs : filesystem) (p : string)
      (pages : list string) :
  comic_parser.list_cbz_pages fs p = Ret pages ->
  StronglySorted le_name pages.
Proof.
  unfold comic_parser.list_cbz_pages. intro H.
  apply bind_ret_inv in H. destruct H as [z [_ H]].
  injection H as <-. apply sorted_ascending.
Qed.

Lemma list_cbz_pages_members (fs : filesystem) (p : string)
      (pages : list string) (z : ZipFile) :
  zipfile_open fs p = Ret z ->
  comic_parser.list_cbz_pages fs p = Ret pages ->
  forall name,
    In name pages <->
    In name (namelist z)
    /\ comic_parser.is_image_file name = true
    /\ PyStr.startswith name "__MACOSX" = false.
Proof.
  unfold comic_parser.list_cbz_pages. intros Hz H name.
  rewrite Hz in H. simpl in H. injection H as <-.
  rewrite sorted_In, filter_In, andb_true_iff, negb_true_iff. tauto.
Qed.

Lemma list_folder_pages_ascending (fs : filesystem) (p : string)
      (pages : list string) :
  comic_parser.list_folder_pages fs p = Ret pages ->
  StronglySorted le_name pages.
Proof.
  unfold comic_parser.list_folder_pages.
  destruct (negb (os_path_isdir fs p)).
  - intro H. injection H as <-. constructor.
  - intro H. apply bind_ret_inv in H. destruct H as [names [_ H]].
    injection H as <-. apply sorted_ascending.
Qed.

Lemma in_range_true (i n : Z) :
  0 <= i < n -> (0 <=? i) && (i <? n) = true.
Proof. intros [H1 H2]. apply andb_true_iff. split; lia. Qed.

Lemma in_range_false (i n : Z) :
  ~ (0 <= i < n) -> (0 <=? i) && (i <? n) = false.
Proof.
  intro H. apply andb_false_iff.
  destruct (Z.leb_spec 0 i); [right; apply Z.ltb_ge; lia | left; reflexivity].
Qed.

(** C2.  The page count is the length of the page listing: for a path
    that [is_cbz_file] accepts it is [len] of what [list_cbz_pages]
    returns, for a directory it is [len] of what [list_folder_pages]
    returns, and for a path that is neither the count is 0, returned and
    not raised, and the folder listing is empty. *)
Theorem page_count_is_listing_length (fs : filesystem) (p : string) :
  (forall pages,
      comic_parser.is_cbz_file fs p = true ->
      comic_parser.list_cbz_pages fs p = Ret pages ->
      comic_parser.get_page_count fs p = Ret (len pages))
  /\ (forall pages,
         os_path_isfile fs p = false ->
         os_path_isdir fs p = true ->
         comic_parser.list_folder_pages fs p = Ret pages ->
         comic_parser.get_page_count fs p = Ret (len pages))
  /\ (comic_parser.is_cbz_file fs p = false ->
      os_path_isdir fs p = false ->
      comic_parser.get_page_count fs p = Ret 0
      /\ comic_parser.list_folder_pages fs p = Ret []).
Proof.
  unfold comic_parser.get_page_count. split; [|split].
  - intros pages Hc Hl. rewrite Hc, Hl. reflexivity.
  - intros pages Hf Hd Hl.
    unfold comic_parser.is_cbz_file. rewrite Hf. simpl.
    rewrite Hd, Hl. reflexivity.
  - intros Hc Hd. rewrite Hc, Hd. split; [reflexivity|].
    unfold comic_parser.list_folder_pages. rewrite Hd. reflexivity.
Qed.

Lemma page_count_is_listing_length_witness :
  comic_parser.get_page_count (Disk.mount Scenario.library)
                              "/lib/Alpha/Chapter 01.cbz" = Ret 3
  /\ comic_parser.get_page_count (Disk.mount Scenario.folder_chapter)
                                 "/m/001" = Ret 2
  /\ comic_parser.get_page_count (Disk.mount Scenario.library)
                                 "/lib/missing.cbz" = Ret 0.
Proof.
  split; [|split].
  - apply (proj1 (page_count_is_listing_length
                    (Disk.mount Scenario.library)
                    "/lib/Alpha/Chapter 01.cbz")
                 ["p1.jpg"; "p2.PNG"; "p3.jpg"]); reflexivity.
  - apply (proj1 (proj2 (page_count_is_listing_length
                           (Disk.mount Scenario.folder_chapter) "/m/001"))
                 ["/m/001/a.jpg"; "/m/001/b.png"]); reflexivity.
  - apply (proj2 (proj2 (page_count_is_listing_length
                           (Disk.mount Scenario.library)
                           "/lib/missing.cbz"))); reflexivity.
Defined.

(** C3.  [get_page_image] serves the page at index [i] of the ascending
    page list.  For an archive that [is_cbz_file] accepts and whose
    listing is [pages]: the list is sorted ascending by name; for
    [0 <= i < len pages] the result is the bytes that reading the member
    named [pages[i]] yields; for every other index (the count itself,
    anything above, anything negative) the result is [None].  The same
    holds for a directory, the bytes being those of the file [pages[i]].
    For a path that is neither, the result is [None] at every index. *)
Theorem get_page_image_by_index (fs : filesystem) (p : string) (i : Z) :
  (forall pages,
      comic_parser.is_cbz_file fs p = true ->
      comic_parser.list_cbz_pages fs p = Ret pages ->
      StronglySorted le_name pages
      /\ (0 <= i < len pages ->
          forall z b,
            zipfile_open fs p = Ret z ->
            zip_read z (comic_parser.item pages i) = Ret b ->
            comic_parser.get_page_image fs p i = Ret (Some b))
      /\ (~ (0 <= i < len pages) ->
          comic_parser.get_page_image fs p i = Ret None))
  /\ (forall pages,
         os_path_isfile fs p = false ->
         os_path_isdir fs p = true ->
         comic_parser.list_folder_pages fs p = Ret pages ->
         StronglySorted le_name pages
         /\ (0 <= i < len pages ->
             forall b,
               open_rb_read fs (comic_parser.item pages i) = Ret b ->
               comic_parser.get_page_image fs p i = Ret (Some b))
         /\ (~ (0 <= i < len pages) ->
             comic_parser.get_page_image fs p i = Ret None))
  /\ (comic_parser.is_cbz_file fs p = false ->
      os_path_isdir fs p = false ->
      comic_parser.get_page_image fs p i = Ret None).
Proof.
  split; [|split].
  - intros pages Hc Hl. split; [|split].
    + exact (list_cbz_pages_ascending fs p pages Hl).
    + intros Hi z b Hz Hb.
      unfold comic_parser.get_page_image. rewrite Hc, Hl. simpl.
      rewrite (in_range_true _ _ Hi).
      unfold comic_parser.extract_cbz_page. rewrite Hz. simpl.
      rewrite Hb. reflexivity.
    + intro Hi. unfold comic_parser.get_page_image. rewrite Hc, Hl. simpl.
      rewrite (in_range_false _ _ Hi). reflexivity.
  - intros pages Hf Hd Hl.
    assert (Hc : comic_parser.is_cbz_file fs p = false).
    { unfold comic_parser.is_cbz_file. rewrite Hf. reflexivity. }
    split; [|split].
    + exact (list_folder_pages_ascending fs p pages Hl).
    + intros Hi b Hb.
      unfold comic_parser.get_page_image. rewrite Hc, Hd, Hl. simpl.
      rewrite (in_range_true _ _ Hi), Hb. reflexivity.
    + intro Hi. unfold comic_parser.get_page_image. rewrite Hc, Hd, Hl.
      simpl. rewrite (in_range_false _ _ Hi). reflexivity.
  - intros Hc Hd. unfold comic_parser.get_page_image.
    rewrite Hc, Hd. reflexivity.
Qed.

Lemma get_page_image_by_index_witness :
  comic_parser.get_page_image (Disk.mount Scenario.library)
                              "/lib/Alpha/Chapter 01.cbz" 1
  = Ret (Some [x32])
  /\ comic_parser.get_page_image (Disk.mount Scenario.library)
                                 "/lib/Alpha/Chapter 01.cbz" 3 = Ret None
  /\ comic_parser.get_page_image (Disk.mount Scenario.folder_chapter)
                                 "/m/001" 0 = Ret (Some Scenario.jpeg)
  /\ comic_parser.get_page_image (Disk.mount Scenario.folder_chapter)
                                 "/m/001" (-1) = Ret None
  /\ comic_parser.get_page_image (Disk.mount Scenario.library)
                                 "/lib/Alpha/notes.txt" 0 = Ret None.
Proof.
  split; [|split; [|split; [|split]]].
  - refine (proj1 (proj2 (proj1 (get_page_image_by_index
              (Disk.mount Scenario.library) "/lib/Alpha/Chapter 01.cbz" 1)
              ["p1.jpg"; "p2.PNG"; "p3.jpg"] eq_refl eq_refl))
              _ Scenario.chapter01 [x32] eq_refl eq_refl).
    unfold len; simpl; lia.
  - refine (proj2 (proj2 (proj1 (get_page_image_by_index
              (Disk.mount Scenario.library) "/lib/Alpha/Chapter 01.cbz" 3)
              ["p1.jpg"; "p2.PNG"; "p3.jpg"] eq_refl eq_refl)) _).
    unfold len; simpl; lia.
  - refine (proj1 (proj2 (proj1 (proj2 (get_page_image_by_index
              (Disk.mount Scenario.folder_chapter) "/m/001" 0))
              ["/m/001/a.jpg"; "/m/001/b.png"] eq_refl eq_refl eq_refl))
              _ Scenario.jpeg eq_refl).
    unfold len; simpl; lia.
  - refine (proj2 (proj2 (proj1 (proj2 (get_page_image_by_index
              (Disk.mount Scenario.folder_chapter) "/m/001" (-1)))
              ["/m/001/a.jpg"; "/m/001/b.png"] eq_refl eq_refl eq_refl))
              _).
    unfold len; simpl; lia.
  - exact (proj2 (proj2 (get_page_image_by_index
              (Disk.mount Scenario.library) "/lib/Alpha/notes.txt" 0))
              eq_refl eq_refl).
Defined.

(* ------------------------------------------------------------------ *)
(** ** Chapter-number heuristic *)

Section CharacterFacts.

Lemma separator_not_digit (c : ascii) :
  scanner.separator c = true -> re.digit c = false.
Proof. destruct c as [[] [] [] [] [] [] [] []]; vm_compute; congruence. Qed.

Lemma lit_dot (c : ascii) :
  Ascii.eqb (PyStr.lower_char c) (PyStr.lower_char ".") = Ascii.eqb c ".".
Proof. destruct c as [[] [] [] [] [] [] [] []]; reflexivity. Qed.

Lemma letter_a_is_plain (c : ascii) :
  Ascii.eqb (PyStr.lower_char c) (PyStr.lower_char "a") = true ->
  scanner.separator c = false /\ re.digit c = false.
Proof.
  destruct c as [[] [] [] [] [] [] [] []]; vm_compute; intuition congruence.
Qed.

Lemma listed_is_separator (c : ascii) :
  HeuristicSpec.listed_separator c = true -> scanner.separator c = true.
Proof. destruct c as [[] [] [] [] [] [] [] []]; vm_compute; congruence. Qed.

End CharacterFacts.

Section GreedyStar.
Import HeuristicSpec.
Variable R : Type.
Variable p : ascii -> bool.
Variable k : string -> option R.

(** A greedy star followed by a continuation that cannot fail takes the
    longest run. *)
Lemma star_total :
  (forall s, k s <> None) -> forall s, re.star R p s k = k (drop_while p s).
Proof.
  intros Hk s. induction s as [|c t IH]; simpl; [reflexivity|].
  destruct (p c); [|reflexivity].
  rewrite IH. destruct (k (drop_while p t)) eqn:E; [reflexivity|].
  exfalso. exact (Hk _ E).
Qed.

(** So does one followed by a continuation that fails on every character
    of the set: giving a character back never helps. *)
Lemma star_disjoint :
  (forall c t, p c = true -> k (String c t) = None) ->
  forall s, re.star R p s k = k (drop_while p s).
Proof.
  intros Hk s. induction s as [|c t IH]; simpl; [reflexivity|].
  destruct (p c) eqn:Hc; [|reflexivity].
  rewrite IH. destruct (k (drop_while p t)) eqn:E; [reflexivity|].
  apply Hk, Hc.
Qed.

End GreedyStar.

Section Tokens.
Import HeuristicSpec.

Lemma take_drop (p : ascii -> bool) (s : string) :
  s = take_while p s ++ drop_while p s.
Proof.
  induction s as [|c t IH]; simpl; [reflexivity|].
  destruct (p c); simpl; [f_equal; exact IH | reflexivity].
Qed.

Lemma length_append (a b : string) :
  String.length (a ++ b) = (String.length a + String.length b)%nat.
Proof. induction a; simpl; congruence. Qed.

Lemma append_assoc (a b c : string) : (a ++ b) ++ c = a ++ (b ++ c).
Proof. induction a; simpl; congruence. Qed.

Lemma substring_prefix (a b : string) :
  substring 0 (String.length a) (a ++ b) = a.
Proof.
  induction a as [|c a IH]; simpl.
  - destruct b; reflexivity.
  - f_equal. exact IH.
Qed.

Lemma consumed_token (s u ip : string) : s = ip ++ u -> re.consumed s u = ip.
Proof.
  intros ->. unfold re.consumed. rewrite length_append.
  replace (String.length ip + String.length u - String.length u)%nat
    with (String.length ip) by lia.
  apply substring_prefix.
Qed.

Variable R : Type.
Implicit Types (k : string -> option string -> option R).

Lemma run_plus_total (p : ascii -> bool) k (s : string)
      (cap : option string) :
  (forall s' cap', k s' cap' <> None) ->
  re.run R (re.Plus p) s cap k =
  match take_while p s with
  | EmptyString => None
  | _ => k (drop_while p s) cap
  end.
Proof.
  intro Hk. destruct s as [|c t]; simpl; [reflexivity|].
  destruct (p c); [|reflexivity].
  apply star_total. intro s'. apply Hk.
Qed.

Lemma run_opt_total (r : re.regex) k :
  (forall s' cap', k s' cap' <> None) ->
  forall s cap, re.run R (re.Opt r) s cap k <> None.
Proof.
  intros Hk s cap. simpl.
  destruct (re.run R r s cap k); [discriminate | apply Hk].
Qed.

(** The optional fraction [(?:\.\d+)?] before a continuation that cannot
    fail. *)
Lemma run_fraction k (s : string) (cap : option string) :
  (forall s' cap', k s' cap' <> None) ->
  re.run R (re.Opt (re.Seq (re.Str ".") (re.Plus re.digit))) s cap k =
  match s with
  | String d u =>
      if Ascii.eqb d "." then
        match take_while re.digit u with
        | EmptyString => k s cap
        | _ => k (drop_while re.digit u) cap
        end
      else k s cap
  | EmptyString => k s cap
  end.
Proof.
  intro Hk.
  change (re.run R (re.Opt (re.Seq (re.Str ".") (re.Plus re.digit))) s cap k)
    with (match match re.lit_ci "." s with
                | Some t => re.run R (re.Plus re.digit) t cap k
                | None => None
                end with
          | Some x => Some x
          | None => k s cap
          end).
  destruct s as [|d u]; [reflexivity|].
  simpl re.lit_ci. rewrite lit_dot.
  destruct (Ascii.eqb d "."); [|reflexivity].
  rewrite (run_plus_total _ _ _ _ Hk).
  destruct (take_while re.digit u); [reflexivity|].
  destruct (k (drop_while re.digit u) cap) eqn:E; [reflexivity|].
  exfalso. exact (Hk _ _ E).
Qed.

End Tokens.

Section Heuristic.
Import HeuristicSpec.

(** Group 1 of [(\d+(?:\.\d+)?)] is the numeric token at the head. *)
Lemma number_group_token (s : string) :
  re.match_ scanner.number_group s = lift (numeric_token s).
Proof.
  unfold re.match_, scanner.number_group, numeric_token.
  change (re.run (option string)
            (re.Group (re.Seq (re.Plus re.digit)
               (re.Opt (re.Seq (re.Str ".") (re.Plus re.digit))))) s None
            (fun _ cap => Some cap))
    with (re.run (option string) (re.Plus re.digit) s None
            (fun s1 cap1 =>
               re.run (option string)
                 (re.Opt (re.Seq (re.Str ".") (re.Plus re.digit))) s1 cap1
                 (fun s' _ => Some (Some (re.consumed s s'))))).
  assert (Hk : forall (s' : string) (cap : option string),
             Some (Some (re.consumed s s')) <> None) by discriminate.
  rewrite run_plus_total by (apply run_opt_total; exact Hk).
  pose proof (take_drop re.digit s) as Hs.
  destruct (take_while re.digit s) as [|c ip] eqn:Hip; [reflexivity|].
  rewrite (run_fraction _ _ _ _ Hk).
  destruct (drop_while re.digit s) as [|d u] eqn:Hd.
  - simpl. f_equal. f_equal. apply consumed_token. exact Hs.
  - destruct (Ascii.eqb d ".") eqn:Hdot.
    + apply Ascii.eqb_eq in Hdot. subst d.
      pose proof (take_drop re.digit u) as Hu.
      destruct (take_while re.digit u) as [|e fp] eqn:Hfp.
      * simpl. f_equal. f_equal. apply consumed_token. exact Hs.
      * simpl. f_equal. f_equal. apply consumed_token.
        rewrite Hs at 1. rewrite Hu at 1.
        simpl. f_equal. rewrite append_assoc. reflexivity.
    + simpl. f_equal. f_equal. apply consumed_token. exact Hs.
Qed.

Lemma star_separator (s : string) :
  re.star (option string) scanner.separator s
          (fun s' => re.match_ scanner.number_group s')
  = re.match_ scanner.number_group (drop_while scanner.separator s).
Proof.
  apply star_disjoint. intros c t Hc.
  rewrite number_group_token. unfold numeric_token. simpl.
  rewrite (separator_not_digit c Hc). reflexivity.
Qed.

(** The first pattern at one position: backtracking over [(?:apter)?] and
    over the separators finds nothing the direct reading misses. *)
Lemma chapter_pattern_marker (s : string) :
  re.match_ scanner.chapter_pattern s = lift (marker_at scanner.separator s).
Proof.
  unfold re.match_, scanner.chapter_pattern, marker_at.
  change (re.run (option string)
            (re.Seq (re.Seq (re.Str "ch")
                       (re.Seq (re.Opt (re.Str "apter"))
                               (re.Star scanner.separator)))
                    scanner.number_group) s None (fun _ cap => Some cap))
    with (match re.lit_ci "ch" s with
          | Some s1 =>
              match match re.lit_ci "apter" s1 with
                    | Some t =>
                        re.star (option string) scanner.separator t
                          (fun s' => re.match_ scanner.number_group s')
                    | None => None
                    end with
              | Some x => Some x
              | None =>
                  re.star (option string) scanner.separator s1
                    (fun s' => re.match_ scanner.number_group s')
              end
          | None => None
          end).
  destruct (re.lit_ci "ch" s) as [s1|]; [|reflexivity].
  rewrite (star_separator s1).
  destruct (re.lit_ci "apter" s1) as [t|] eqn:Ha.
  - rewrite star_separator, !number_group_token.
    destruct (numeric_token (drop_while scanner.separator t)) eqn:E;
      [reflexivity|].
    destruct s1 as [|c s1']; [discriminate|].
    simpl in Ha.
    destruct (Ascii.eqb (PyStr.lower_char c) (PyStr.lower_char "a")) eqn:Hc;
      [|discriminate].
    destruct (letter_a_is_plain c Hc) as [Hsep Hdig].
    simpl. rewrite Hsep. unfold numeric_token. simpl. rewrite Hdig.
    reflexivity.
  - rewrite number_group_token. reflexivity.
Qed.

Lemma search_chapter_pattern (s : string) :
  re.search scanner.chapter_pattern s
  = lift (find_marker scanner.separator s).
Proof.
  induction s as [|c t IH].
  - reflexivity.
  - cbn [re.search find_marker]. rewrite chapter_pattern_marker.
    destruct (marker_at scanner.separator (String c t)); [reflexivity|].
    exact IH.
Qed.

End Heuristic.

(* ------------------------------------------------------------------ *)
(** ** The heuristic on names of any code point *)

Section UnicodeHeuristic.
Import Unicode.

Variable tolower : N -> N.
Variable todecimal : N -> option Z.


Section Star.
Variable R : Type.
Variable p : N -> bool.
Variable k : str -> option R.

Lemma Unicode_star_total :
  (forall s, k s <> None) -> forall s, Unicode.star R p s k = k (drop_while p s).
Proof.
  intros Hk s. induction s as [|c t IH]; simpl; [reflexivity|].
  destruct (p c); [|reflexivity].
  rewrite IH. destruct (k (drop_while p t)) eqn:E; [reflexivity|].
  exfalso. exact (Hk _ E).
Qed.

Lemma Unicode_star_disjoint :
  (forall c t, p c = true -> k (c :: t) = None) ->
  forall s, Unicode.star R p s k = k (drop_while p s).
Proof.
  intros Hk s. induction s as [|c t IH]; simpl; [reflexivity|].
  destruct (p c) eqn:Hc; [|reflexivity].
  rewrite IH. destruct (k (drop_while p t)) eqn:E; [reflexivity|].
  apply Hk, Hc.
Qed.

End Star.

Lemma Unicode_take_drop (p : N -> bool) (s : str) :
  s = (take_while p s ++ drop_while p s)%list.
Proof.
  induction s as [|c t IH]; simpl; [reflexivity|].
  destruct (p c); simpl; [f_equal; exact IH | reflexivity].
Qed.

Lemma Unicode_consumed_token (s u ip : str) :
  s = (ip ++ u)%list -> consumed s u = ip.
Proof.
  intros ->. unfold consumed. rewrite length_app.
  replace (length ip + length u - length u)%nat with (length ip) by lia.
  rewrite firstn_app, Nat.sub_diag, firstn_all. simpl.
  apply app_nil_r.
Qed.

Section Tokens.
Variable R : Type.
Implicit Types (k : str -> option str -> option R).

Lemma Unicode_run_plus_total (p : N -> bool) k (s : str) (cap : option str) :
  (forall s' cap', k s' cap' <> None) ->
  (Unicode.run tolower) R (Plus p) s cap k =
  match take_while p s with
  | [] => None
  | _ => k (drop_while p s) cap
  end.
Proof.
  intro Hk. destruct s as [|c t]; simpl; [reflexivity|].
  destruct (p c); [|reflexivity].
  apply Unicode_star_total. intro s'. apply Hk.
Qed.

Lemma Unicode_run_opt_total (r : regex) k :
  (forall s' cap', k s' cap' <> None) ->
  forall s cap, (Unicode.run tolower) R (Opt r) s cap k <> None.
Proof.
  intros Hk s cap. simpl.
  destruct ((Unicode.run tolower) R r s cap k); [discriminate | apply Hk].
Qed.

Lemma Unicode_run_fraction k (s : str) (cap : option str) :
  (forall s' cap', k s' cap' <> None) ->
  (Unicode.run tolower) R (Opt (Seq (Chr dot) (Plus (Unicode.isdecimal todecimal)))) s cap k =
  match s with
  | d :: u =>
      if (d =? dot)%N then
        match take_while (Unicode.isdecimal todecimal) u with
        | [] => k s cap
        | _ => k (drop_while (Unicode.isdecimal todecimal) u) cap
        end
      else k s cap
  | [] => k s cap
  end.
Proof.
  intro Hk.
  change ((Unicode.run tolower) R (Opt (Seq (Chr dot) (Plus (Unicode.isdecimal todecimal)))) s cap k)
    with (match match s with
                | c :: t =>
                    if (c =? dot)%N then (Unicode.run tolower) R (Plus (Unicode.isdecimal todecimal)) t cap k
                    else None
                | [] => None
                end with
          | Some x => Some x
          | None => k s cap
          end).
  destruct s as [|d u]; [reflexivity|].
  destruct (d =? dot)%N; [|reflexivity].
  rewrite (Unicode_run_plus_total _ _ _ _ Hk).
  destruct (take_while (Unicode.isdecimal todecimal) u); [reflexivity|].
  destruct (k (drop_while (Unicode.isdecimal todecimal) u) cap) eqn:E; [reflexivity|].
  exfalso. exact (Hk _ _ E).
Qed.

End Tokens.

Lemma Unicode_number_group_token (s : str) :
  (Unicode.match_ tolower) (Unicode.number_group todecimal) s = lift ((Unicode.numeric_token todecimal) s).
Proof.
  unfold Unicode.match_, Unicode.number_group, Unicode.numeric_token.
  change ((Unicode.run tolower) (option str)
            (Group (Seq (Plus (Unicode.isdecimal todecimal))
               (Opt (Seq (Chr dot) (Plus (Unicode.isdecimal todecimal)))))) s None
            (fun _ cap => Some cap))
    with ((Unicode.run tolower) (option str) (Plus (Unicode.isdecimal todecimal)) s None
            (fun s1 cap1 =>
               (Unicode.run tolower) (option str)
                 (Opt (Seq (Chr dot) (Plus (Unicode.isdecimal todecimal)))) s1 cap1
                 (fun s' _ => Some (Some (consumed s s'))))).
  assert (Hk : forall (s' : str) (cap : option str),
             Some (Some (consumed s s')) <> None) by discriminate.
  rewrite Unicode_run_plus_total by (apply Unicode_run_opt_total; exact Hk).
  pose proof (Unicode_take_drop (Unicode.isdecimal todecimal) s) as Hs.
  destruct (take_while (Unicode.isdecimal todecimal) s) as [|c ip] eqn:Hip; [reflexivity|].
  rewrite (Unicode_run_fraction _ _ _ _ Hk).
  destruct (drop_while (Unicode.isdecimal todecimal) s) as [|d u] eqn:Hd.
  - simpl. f_equal. f_equal. apply Unicode_consumed_token. exact Hs.
  - destruct (d =? dot)%N eqn:Hdot.
    + apply N.eqb_eq in Hdot. subst d.
      pose proof (Unicode_take_drop (Unicode.isdecimal todecimal) u) as Hu.
      destruct (take_while (Unicode.isdecimal todecimal) u) as [|e fp] eqn:Hfp.
      * simpl. f_equal. f_equal. apply Unicode_consumed_token. exact Hs.
      * simpl. f_equal. f_equal. apply Unicode_consumed_token.
        rewrite Hs at 1. rewrite Hu at 1.
        simpl. f_equal. rewrite <- app_assoc. reflexivity.
    + simpl. f_equal. f_equal. apply Unicode_consumed_token. exact Hs.
Qed.

Hypothesis Hplain : plain_letters tolower todecimal.

Lemma Unicode_separator_not_decimal (c : N) :
  separator c = true -> (Unicode.isdecimal todecimal) c = false.
Proof.
  intro H. unfold Unicode.isdecimal. rewrite (proj1 Hplain c H). reflexivity.
Qed.

Lemma Unicode_star_separator (s : str) :
  Unicode.star (option str) separator s (fun s' => (Unicode.match_ tolower) (Unicode.number_group todecimal) s')
  = (Unicode.match_ tolower) (Unicode.number_group todecimal) (drop_while separator s).
Proof.
  apply Unicode_star_disjoint. intros c t Hc.
  rewrite Unicode_number_group_token. unfold Unicode.numeric_token. simpl.
  rewrite (Unicode_separator_not_decimal c Hc). reflexivity.
Qed.

Lemma Unicode_chapter_pattern_marker (s : str) :
  (Unicode.match_ tolower) (Unicode.chapter_pattern todecimal) s = lift ((Unicode.marker_at tolower todecimal) separator s).
Proof.
  unfold Unicode.match_, Unicode.chapter_pattern, Unicode.marker_at.
  change ((Unicode.run tolower) (option str)
            (Seq (Seq (Str (of_string "ch"))
                      (Seq (Opt (Str (of_string "apter")))
                           (Star separator)))
                 (Unicode.number_group todecimal)) s None (fun _ cap => Some cap))
    with (match (Unicode.lit_ci tolower) (of_string "ch") s with
          | Some s1 =>
              match match (Unicode.lit_ci tolower) (of_string "apter") s1 with
                    | Some t =>
                        Unicode.star (option str) separator t
                          (fun s' => (Unicode.match_ tolower) (Unicode.number_group todecimal) s')
                    | None => None
                    end with
              | Some x => Some x
              | None =>
                  Unicode.star (option str) separator s1
                    (fun s' => (Unicode.match_ tolower) (Unicode.number_group todecimal) s')
              end
          | None => None
          end).
  destruct ((Unicode.lit_ci tolower) (of_string "ch") s) as [s1|]; [|reflexivity].
  rewrite (Unicode_star_separator s1).
  destruct ((Unicode.lit_ci tolower) (of_string "apter") s1) as [t|] eqn:Ha.
  - rewrite Unicode_star_separator, !Unicode_number_group_token.
    destruct ((Unicode.numeric_token todecimal) (drop_while separator t)) eqn:E;
      [reflexivity|].
    destruct s1 as [|c s1']; [discriminate|].
    simpl in Ha.
    destruct (tolower c =? tolower 97)%N eqn:Hc; [|discriminate].
    apply N.eqb_eq in Hc.
    destruct (proj2 Hplain c Hc) as [Hsep Hdig].
    simpl. rewrite Hsep. unfold Unicode.numeric_token. simpl.
    unfold Unicode.isdecimal. rewrite Hdig. reflexivity.
  - rewrite Unicode_number_group_token. reflexivity.
Qed.

Lemma Unicode_search_chapter_pattern (s : str) :
  (Unicode.search tolower) (Unicode.chapter_pattern todecimal) s = lift ((Unicode.find_marker tolower todecimal) separator s).
Proof.
  induction s as [|c t IH].
  - cbn [Unicode.search Unicode.find_marker].
    rewrite Unicode_chapter_pattern_marker.
    destruct ((Unicode.marker_at tolower todecimal) separator []); reflexivity.
  - cbn [Unicode.search Unicode.find_marker].
    rewrite Unicode_chapter_pattern_marker.
    destruct ((Unicode.marker_at tolower todecimal) separator (c :: t)); [reflexivity|].
    exact IH.
Qed.

Lemma Unicode_extract_as_rules (name : str) :
  Unicode._extract_chapter_number tolower todecimal name
  = Unicode.extractNumber tolower todecimal separator name.
Proof.
  unfold Unicode._extract_chapter_number, Unicode.extractNumber.
  rewrite Unicode_search_chapter_pattern, Unicode_number_group_token.
  destruct ((Unicode.find_marker tolower todecimal) separator name); [reflexivity|].
  destruct ((Unicode.numeric_token todecimal) name); reflexivity.
Qed.

End UnicodeHeuristic.

Section SampleDatabase.
Import Unicode.

Lemma between_spec (lo hi c : N) :
  between lo hi c = true <-> (lo <= c <= hi)%N.
Proof.
  unfold between. rewrite andb_true_iff, !N.leb_le. reflexivity.
Qed.

Lemma between_false (lo hi c : N) :
  (c < lo \/ hi < c)%N -> between lo hi c = false.
Proof.
  intro H. destruct (between lo hi c) eqn:E; [|reflexivity].
  apply between_spec in E. lia.
Qed.

Lemma isspace_spec (c : N) :
  isspace c = true <->
  (9 <= c <= 13 \/ 28 <= c <= 32 \/ c = 133 \/ c = 160 \/ c = 5760
   \/ 8192 <= c <= 8202 \/ c = 8232 \/ c = 8233 \/ c = 8239 \/ c = 8287
   \/ c = 12288)%N.
Proof.
  unfold isspace. rewrite !orb_true_iff, !between_spec, !N.eqb_eq. tauto.
Qed.

Lemma separator_spec (c : N) :
  separator c = true <->
  isspace c = true \/ c = 46%N \/ c = 95%N \/ c = 45%N.
Proof.
  unfold separator, dot, underscore, hyphen.
  rewrite !orb_true_iff, !N.eqb_eq. tauto.
Qed.

Lemma Unicode_listed_is_separator (c : N) :
  listed_separator c = true -> separator c = true.
Proof.
  unfold listed_separator. rewrite !orb_true_iff, !N.eqb_eq.
  intros [[[->| ->]| ->]| ->]; reflexivity.
Qed.

Lemma sample_plain_letters : plain_letters sample_tolower sample_todecimal.
Proof.
  split.
  - intros c H. apply separator_spec in H. rewrite isspace_spec in H.
    unfold sample_todecimal.
    rewrite !between_false by lia. reflexivity.
  - intros c H. change (sample_tolower 97) with 97%N in H.
    assert (Hc : c = 65%N \/ c = 97%N).
    { unfold sample_tolower in H.
      destruct (between 65 90 c) eqn:E1; [lia|].
      destruct (between 192 222 c && negb (c =? 215)%N) eqn:E2; [|lia].
      apply andb_true_iff in E2. destruct E2 as [E2 _].
      apply between_spec in E2. lia. }
    destruct Hc as [-> | ->]; split; reflexivity.
Qed.

Lemma letters_spec (tolower : N -> N) (w : str) :
  folds_to_ascii tolower ->
  (forall a, In a w -> In a (of_string "chapter")) ->
  forall s, lit_ci tolower w s = letters w s.
Proof.
  intro Hf. induction w as [|a w IH]; intros Hw s; [reflexivity|].
  destruct s as [|c t]; [reflexivity|].
  cbn [lit_ci letters].
  rewrite (Hf a c (Hw a (or_introl eq_refl))).
  destruct (either_case a c); [|reflexivity].
  apply IH. intros x Hx. apply Hw. right. exact Hx.
Qed.

Lemma sample_folds_to_ascii : folds_to_ascii sample_tolower.
Proof.
  intros a c Ha. simpl in Ha.
  assert (Hlow : (97 <= a <= 122)%N)
    by (repeat (destruct Ha as [<- | Ha]; [lia|]); destruct Ha).
  assert (Ea : sample_tolower a = a).
  { unfold sample_tolower. rewrite !between_false by lia. reflexivity. }
  rewrite Ea. unfold either_case, sample_tolower.
  destruct (between 65 90 c) eqn:E1.
  - apply between_spec in E1.
    destruct (N.eqb_spec (c + 32) a), (N.eqb_spec c a),
      (N.eqb_spec c (a - 32)); simpl; try reflexivity; lia.
  - destruct (between 192 222 c && negb (c =? 215)%N) eqn:E2.
    + apply andb_true_iff in E2. destruct E2 as [E2 _].
      apply between_spec in E2.
      destruct (N.eqb_spec (c + 32) a), (N.eqb_spec c a),
        (N.eqb_spec c (a - 32)); simpl; try reflexivity; lia.
    + assert (Hc : (c < 65 \/ 90 < c)%N).
      { destruct (N.lt_ge_cases c 65) as [H|H]; [left; exact H|].
        destruct (N.lt_ge_cases 90 c) as [H'|H']; [right; exact H'|].
        assert (between 65 90 c = true) by (apply between_spec; lia).
        congruence. }
      destruct (N.eqb_spec c a), (N.eqb_spec c (a - 32)); simpl;
        try reflexivity; lia.
Qed.

End SampleDatabase.

(** C4 (as amended).  For every name, of whatever code points,
    [_extract_chapter_number] follows the three rules in strict
    precedence: (1) the first place in the name where, letter case
    ignored, [ch] stands, optionally followed by [apter], then any number
    of separator characters, then a numeric token, gives the value of that
    token; (2) otherwise a numeric token at the start of the name gives
    its value; (3) otherwise the result is 0.  A separator character is
    any Unicode whitespace character (the tab, the line breaks and the
    information separators, the space, U+0085, U+00A0, U+1680, U+2000 to
    U+200A, U+2028, U+2029, U+202F, U+205F, U+3000), [.], [_] or [-]; the
    four listed characters are among them.  A numeric token is made of
    decimal digits of any script, each read by its decimal value.  Rule 1
    wins whenever it applies, whatever the name starts with.  This holds
    for every Unicode database in which no separator is a decimal digit
    and nothing that lower-cases like [a] is a separator or a digit.
    Where only a letter and its capital lower-case like a letter of the
    pattern, letter case ignored means: each letter in either case. *)
Theorem extract_chapter_number_rules :
  (forall tolower todecimal,
      Unicode.plain_letters tolower todecimal ->
      forall name,
        Unicode._extract_chapter_number tolower todecimal name
        = Unicode.extractNumber tolower todecimal Unicode.separator name
        /\ (forall t,
               Unicode.find_marker tolower todecimal Unicode.separator name
               = Some t ->
               Unicode._extract_chapter_number tolower todecimal name
               = Unicode.float todecimal t))
  /\ (forall c,
         Unicode.separator c = true <->
         (9 <= c <= 13 \/ 28 <= c <= 32 \/ c = 133 \/ c = 160 \/ c = 5760
          \/ 8192 <= c <= 8202 \/ c = 8232 \/ c = 8233 \/ c = 8239
          \/ c = 8287 \/ c = 12288 \/ c = 46 \/ c = 95 \/ c = 45)%N)
  /\ (forall c,
         Unicode.listed_separator c = true -> Unicode.separator c = true)
  /\ (forall tolower,
         Unicode.folds_to_ascii tolower ->
         forall s,
           Unicode.lit_ci tolower (Unicode.of_string "ch") s
           = Unicode.letters [99; 104]%N s
           /\ Unicode.lit_ci tolower (Unicode.of_string "apter") s
              = Unicode.letters [97; 112; 116; 101; 114]%N s).
Proof.
  split; [|split; [|split]].
  - intros tolower todecimal Hplain name.
    pose proof (Unicode_extract_as_rules tolower todecimal Hplain name) as H.
    split; [exact H|].
    intros t Ht. rewrite H. unfold Unicode.extractNumber.
    rewrite Ht. reflexivity.
  - intro c. rewrite separator_spec, isspace_spec. tauto.
  - exact Unicode_listed_is_separator.
  - intros tolower Hf s. split.
    + apply (letters_spec tolower (Unicode.of_string "ch") Hf).
      simpl. tauto.
    + apply (letters_spec tolower (Unicode.of_string "apter") Hf).
      simpl. tauto.
Qed.

Lemma extract_chapter_number_rules_witness :
  Unicode.plain_letters Unicode.sample_tolower Unicode.sample_todecimal
  /\ Unicode.folds_to_ascii Unicode.sample_tolower
  /\ Unicode._extract_chapter_number
       Unicode.sample_tolower Unicode.sample_todecimal
       (Unicode.of_string "12 Ch_ 7.5 end")
     = Unicode.float Unicode.sample_todecimal (Unicode.of_string "7.5")
  /\ Unicode._extract_chapter_number
       Unicode.sample_tolower Unicode.sample_todecimal
       [67; 104; 32; 1635]%N
     = Unicode.extractNumber
         Unicode.sample_tolower Unicode.sample_todecimal Unicode.separator
         [67; 104; 32; 1635]%N
  /\ Unicode.lit_ci Unicode.sample_tolower (Unicode.of_string "ch")
                    [67; 72; 49]%N
     = Unicode.letters [99; 104]%N [67; 72; 49]%N.
Proof.
  split; [exact sample_plain_letters|].
  split; [exact sample_folds_to_ascii|]. split; [|split].
  - apply (proj2 (proj1 extract_chapter_number_rules
                        Unicode.sample_tolower Unicode.sample_todecimal
                        sample_plain_letters
                        (Unicode.of_string "12 Ch_ 7.5 end"))).
    reflexivity.
  - apply (proj1 (proj1 extract_chapter_number_rules
                        Unicode.sample_tolower Unicode.sample_todecimal
                        sample_plain_letters [67; 104; 32; 1635]%N)).
  - apply (proj1 (proj2 (proj2 (proj2 extract_chapter_number_rules))
                        Unicode.sample_tolower sample_folds_to_ascii
                        [67; 72; 49]%N)).
Defined.

(** C4, the statement as given: with the separators limited to the four
    listed characters the rules give 0 on the name [ch<TAB>5], and the
    code gives 5, in the 8-bit reading and in the Unicode one; the rules
    as given also miss the ideographic space (U+3000), which the code
    takes as a separator before the fullwidth digit five (U+FF15); and
    on [Ch], a space and the Arabic-Indic digit three (U+0663) the code
    gives 3 where a numeric token of ASCII digits gives 0. *)
Lemma extract_chapter_number_tab :
  scanner._extract_chapter_number ch_tab_5 = 5%Q
  /\ HeuristicSpec.extractNumber HeuristicSpec.listed_separator ch_tab_5
     = 0%Q
  /\ scanner._extract_chapter_number ch_tab_5
     <> HeuristicSpec.extractNumber HeuristicSpec.listed_separator ch_tab_5
  /\ Unicode._extract_chapter_number
       Unicode.sample_tolower Unicode.sample_todecimal
       (Unicode.of_string ch_tab_5) = 5%Q
  /\ Unicode.extractNumber
       Unicode.sample_tolower Unicode.sample_todecimal
       Unicode.listed_separator (Unicode.of_string ch_tab_5) = 0%Q
  /\ Unicode._extract_chapter_number
       Unicode.sample_tolower Unicode.sample_todecimal
       [99; 104; 12288; 65301]%N = 5%Q
  /\ Unicode.extractNumber
       Unicode.sample_tolower Unicode.sample_todecimal
       Unicode.listed_separator [99; 104; 12288; 65301]%N = 0%Q
  /\ Unicode._extract_chapter_number
       Unicode.sample_tolower Unicode.sample_todecimal
       [67; 104; 32; 1635]%N = 3%Q
  /\ Unicode.extractNumber
       Unicode.sample_tolower Unicode.ascii_todecimal
       Unicode.separator [67; 104; 32; 1635]%N = 0%Q.
Proof.
  split; [reflexivity|]. split; [reflexivity|]. split; [discriminate|].
  repeat split; vm_compute; reflexivity.
Qed.

(** C5.  The heuristic on the five names of the specification:
    ["Chapter 05"] gives 5, ["Ch.12"] gives 12, ["001 - Title"] gives 1 and
    ["Extra Stories"] gives 0; on ["c003"] the code gives 0 and not 3,
    since neither pattern accepts a lone [c]. *)
Theorem extract_chapter_number_examples :
  scanner._extract_chapter_number "Chapter 05" = 5%Q
  /\ scanner._extract_chapter_number "Ch.12" = 12%Q
  /\ scanner._extract_chapter_number "001 - Title" = 1%Q
  /\ scanner._extract_chapter_number "Extra Stories" = 0%Q
  /\ scanner._extract_chapter_number "c003" = 0%Q
  /\ re.search scanner.chapter_pattern "c003" = None
  /\ re.match_ scanner.number_group "c003" = None.
Proof. repeat split; reflexivity. Qed.

(* ------------------------------------------------------------------ *)
(** ** Library scanner *)

Section Discovery.
Import scanner comic_parser.
Variable fs : filesystem.

Lemma discover_accepted (d : string) (entries : list string) :
  forall acc chs,
    Forall (accepted fs) acc ->
    discover_chapters fs d entries acc = Ret chs ->
    Forall (accepted fs) chs.
Proof.
  induction entries as [|e rest IH]; intros acc chs Hacc; simpl.
  - intro H. injection H as <-. exact Hacc.
  - destruct (is_cbz_file fs (OsPath.join d e)) eqn:Hc.
    + destruct (get_page_count fs (OsPath.join d e)) as [n|x] eqn:Hn;
        simpl; [|discriminate].
      apply IH. apply Forall_app. split; [exact Hacc|].
      constructor; [|constructor]. split; simpl; [exact Hn | left; exact Hc].
    + destruct (os_path_isdir fs (OsPath.join d e)) eqn:Hd; [|apply IH, Hacc].
      destruct (get_page_count fs (OsPath.join d e)) as [n|x] eqn:Hn;
        simpl; [|discriminate].
      destruct (n >? 0) eqn:Hpos; [|apply IH, Hacc].
      apply IH. apply Forall_app. split; [exact Hacc|].
      constructor; [|constructor]. split; simpl; [exact Hn|].
      right. split; [exact Hd | lia].
Qed.

Lemma register_chapters_rows (chs : list chapter) :
  forall db mid cc,
  exists rows,
    register_chapters db mid chs cc
    = (cc + len chs,
       mkDb (mangas db) (chapters db ++ rows)%list (mangas_seq db)
            (chapters_seq db + len chs))
    /\ Forall2 (row_of mid) chs rows.
Proof.
  induction chs as [|ch rest IH]; intros db mid cc; simpl.
  - exists []. split; [|constructor]. unfold len. simpl.
    rewrite app_nil_r, !Z.add_0_r. destruct db; reflexivity.
  - destruct (IH (snd (add_chapter db mid (number ch) (path ch) (title ch)
                                   (page_count ch)))
                 mid (cc + 1))
      as [rows [Hreg Hrows]].
    simpl in Hreg.
    eexists (_ :: rows). split.
    + rewrite Hreg. unfold len. simpl length. rewrite <- app_assoc. simpl.
      f_equal; [lia|]. f_equal. lia.
    + constructor; [|exact Hrows]. repeat split.
Qed.

End Discovery.

Section ScanInvariant.
Import scanner comic_parser.
Variable fs : filesystem.

Lemma row_of_accepted (mid : Z) (chs : list chapter)
      (rows : list chapter_row) :
  Forall2 (row_of mid) chs rows ->
  Forall (accepted fs) chs ->
  Forall (accepted_row fs) rows /\ len rows = len chs.
Proof.
  induction 1 as [|ch r chs rows Hr _ IH]; intro Hacc.
  - split; [constructor | reflexivity].
  - inversion Hacc as [|? ? Hch Hrest]; subst.
    destruct (IH Hrest) as [IH1 IH2].
    split.
    + constructor; [|exact IH1].
      destruct Hr as (_ & _ & _ & Hp & Hn).
      unfold accepted_row. rewrite Hp, Hn. exact Hch.
    + unfold len in *. simpl. lia.
Qed.

Lemma emitted_nothing (db : DatabaseManager) (r : outcome summary)
      (mc cc : Z) :
  (forall s, r = Ret s -> s = mkSummary mc cc) -> emitted fs db db r mc cc.
Proof.
  intro Hr. exists [], []. rewrite !app_nil_r.
  split; [reflexivity|]. split; [reflexivity|].
  split; [constructor|]. split; [constructor|]. split; [reflexivity|].
  intros s Hs. rewrite (Hr s Hs). unfold len. simpl. lia.
Qed.

Lemma scan_mangas_emitted (sid : Z) (root : string) (names : list string) :
  forall db mc cc,
    emitted fs db (snd (scan_mangas fs sid root names db mc cc))
            (fst (scan_mangas fs sid root names db mc cc)) mc cc.
Proof.
  induction names as [|name rest IH]; intros db mc cc; simpl.
  - apply emitted_nothing. intros s H. injection H as <-. reflexivity.
  - destruct (negb (os_path_isdir fs (OsPath.join root name))); [apply IH|].
    destruct (os_listdir fs (OsPath.join root name)) as [entries|e]; simpl.
    2:{ apply emitted_nothing. discriminate. }
    destruct (discover_chapters fs (OsPath.join root name) (sorted entries) [])
      as [chs|e] eqn:Hdisc.
    2:{ apply emitted_nothing. discriminate. }
    destruct chs as [|ch chs']; [apply IH|].
    destruct (_find_cover fs (OsPath.join root name)) as [cover|e].
    2:{ apply emitted_nothing. discriminate. }
    assert (Hpos : 1 <= len (ch :: chs')).
    { unfold len. simpl length. lia. }
    remember (ch :: chs') as chs eqn:Echs. clear Echs ch chs'.
    unfold add_manga.
    set (db1 := mkDb _ _ _ _).
    destruct (register_chapters_rows chs db1 (mangas_seq db + 1) cc)
      as [rows [Hreg Hrows]].
    rewrite Hreg.
    set (db2 := mkDb _ _ _ _).
    destruct (IH db2 (mc + 1) (cc + len chs))
      as (new_m & new_c & Hm & Hc & Htot & Hacc & Hsum & Hret).
    assert (Hchs : Forall (accepted fs) chs).
    { eapply discover_accepted; [constructor | exact Hdisc]. }
    destruct (row_of_accepted (mangas_seq db + 1) chs rows Hrows Hchs)
      as [Hrows_acc Hlen].
    eexists (_ :: new_m), (rows ++ new_c)%list.
    rewrite Hm, Hc. simpl. rewrite <- !app_assoc. simpl.
    split; [reflexivity|]. split; [reflexivity|].
    split; [constructor; [exact Hpos | exact Htot]|].
    split; [apply Forall_app; split; assumption|].
    assert (Happ : len (rows ++ new_c) = len chs + len new_c).
    { rewrite <- Hlen. unfold len. rewrite length_app. lia. }
    split.
    + rewrite Hsum, Happ. reflexivity.
    + intros s Hs. destruct (Hret s Hs) as [H1 H2].
      rewrite H1, H2, Happ. unfold len. simpl length. lia.
Qed.

End ScanInvariant.

Section ScanTotal.
Import scanner comic_parser.
Variable fs : filesystem.
Hypothesis Hlist : listable fs.
Hypothesis Hopen : openable fs.

Lemma get_page_count_returns (p : string) :
  exists n, get_page_count fs p = Ret n.
Proof.
  unfold get_page_count.
  destruct (is_cbz_file fs p) eqn:Hc.
  - destruct (Hopen p Hc) as [z Hz].
    unfold list_cbz_pages. rewrite Hz. simpl. eauto.
  - destruct (os_path_isdir fs p) eqn:Hd; [|eauto].
    destruct (Hlist p Hd) as [l Hl].
    unfold list_folder_pages. rewrite Hd, Hl. simpl. eauto.
Qed.

Lemma discover_chapters_returns (d : string) (entries : list string) :
  forall acc, exists chs, discover_chapters fs d entries acc = Ret chs.
Proof.
  induction entries as [|e rest IH]; intro acc; simpl; [eauto|].
  destruct (get_page_count_returns (OsPath.join d e)) as [n Hn].
  rewrite Hn. simpl.
  destruct (is_cbz_file fs (OsPath.join d e)); [apply IH|].
  destruct (os_path_isdir fs (OsPath.join d e)); [|apply IH].
  destruct (n >? 0); apply IH.
Qed.

Lemma find_cover_returns (p : string) :
  exists c, _find_cover fs p = Ret c.
Proof.
  unfold _find_cover.
  destruct (os_path_isdir fs p) eqn:Hd; simpl; [|eauto].
  destruct (Hlist p Hd) as [l Hl]. rewrite Hl. simpl.
  destruct (first_match is_named_cover p (sorted l)); eauto.
Qed.

Lemma scan_mangas_returns (sid : Z) (root : string) (names : list string) :
  forall db mc cc,
  exists s, fst (scan_mangas fs sid root names db mc cc) = Ret s.
Proof.
  induction names as [|name rest IH]; intros db mc cc; simpl; [eauto|].
  destruct (os_path_isdir fs (OsPath.join root name)) eqn:Hd; simpl;
    [|apply IH].
  destruct (Hlist _ Hd) as [l Hl]. rewrite Hl. simpl.
  destruct (discover_chapters_returns (OsPath.join root name) (sorted l) [])
    as [chs Hchs].
  rewrite Hchs. destruct chs as [|ch chs']; [apply IH|].
  destruct (find_cover_returns (OsPath.join root name)) as [c Hc].
  rewrite Hc.
  unfold add_manga.
  destruct (register_chapters _ _ (ch :: chs') cc) as [cc' db2].
  apply IH.
Qed.

End ScanTotal.

Section DiskFacts.
Import Disk.

Lemma Disk_mount_listable (t : table) : healthy t = true -> listable (mount t).
Proof.
  intros Ht p. simpl.
  assert (H : forall n, lookup t p = Some n -> healthy_node n = true).
  { clear -Ht. induction t as [|[q m] rest IH]; simpl in *; [discriminate|].
    apply andb_true_iff in Ht. destruct Ht as [Hm Hrest].
    destruct (String.eqb q p); [|exact (IH Hrest)].
    intros n Hn. injection Hn as <-. exact Hm. }
  destruct (lookup t p) as [[names| |c z]|]; try discriminate.
  - eauto.
  - specialize (H _ eq_refl). discriminate.
Qed.

Lemma Disk_mount_openable (t : table) : healthy t = true -> openable (mount t).
Proof.
  intros Ht p. unfold comic_parser.is_cbz_file. simpl.
  assert (H : forall n, lookup t p = Some n -> healthy_node n = true).
  { clear -Ht. induction t as [|[q m] rest IH]; simpl in *; [discriminate|].
    apply andb_true_iff in Ht. destruct Ht as [Hm Hrest].
    destruct (String.eqb q p); [|exact (IH Hrest)].
    intros n Hn. injection Hn as <-. exact Hm. }
  destruct (lookup t p) as [[names| |c [|z|]]|]; simpl;
    rewrite ?andb_false_r; try discriminate.
  - eauto.
  - specialize (H _ eq_refl). discriminate.
Qed.

End DiskFacts.

Section Cover.
Import scanner comic_parser.

Lemma first_match_none (test : string -> bool) (path : string)
      (files : list string) :
  (forall g, In g files -> test g = false) ->
  first_match test path files = None.
Proof.
  induction files as [|x rest IH]; intro H; simpl; [reflexivity|].
  rewrite (H x (or_introl eq_refl)). apply IH.
  intros g Hg. apply H. right. exact Hg.
Qed.

Lemma first_match_least (test : string -> bool) (path : string)
      (files : list string) (f : string) :
  StronglySorted le_name files ->
  first_by_name test files f ->
  first_match test path files = Some (OsPath.join path f).
Proof.
  induction files as [|x rest IH]; intros Hs (Hin & Hf & Hmin).
  - destruct Hin.
  - inversion Hs as [|? ? Hrest Hx]; subst. simpl.
    destruct (test x) eqn:Hx_test.
    + assert (x = f) as ->; [|reflexivity].
      apply String.leb_antisym.
      * destruct Hin as [->|Hin].
        -- destruct (String.leb_total f f); assumption.
        -- rewrite Forall_forall in Hx. exact (Hx f Hin).
      * exact (Hmin x (or_introl eq_refl) Hx_test).
    + apply IH; [exact Hrest|].
      split; [|split].
      * destruct Hin as [->|Hin]; [congruence | exact Hin].
      * exact Hf.
      * intros g Hg. apply Hmin. right. exact Hg.
Qed.

Lemma first_by_name_sorted (test : string -> bool) (names : list string)
      (f : string) :
  first_by_name test names f -> first_by_name test (sorted names) f.
Proof.
  intros (Hin & Hf & Hmin). split; [|split].
  - apply sorted_In. exact Hin.
  - exact Hf.
  - intros g Hg. apply Hmin. apply sorted_In. exact Hg.
Qed.

Lemma named_cover_is_image (f : string) :
  is_named_cover f = true -> is_image_file f = true.
Proof.
  unfold is_named_cover, is_image_file.
  destruct (OsPath.splitext f) as [stem ext].
  intro H. apply andb_true_iff in H. tauto.
Qed.

End Cover.

(** C1.  [scan_source] inserts a manga only with at least one chapter
    candidate, and accepts chapters asymmetrically.  Whatever the tree and
    whatever the outcome, the rows a scan adds are [emitted] rows: each new
    manga row announces at least one chapter, the new chapter rows are as
    many as announced, and each is an archive accepted by [is_cbz_file] or
    a directory with a page count above 0.  In the entry loop an entry
    that [is_cbz_file] accepts becomes a chapter with whatever page count
    it has, 0 included, and a directory becomes one only when its count is
    above 0.  On the tree with [Alpha/] holding [Chapter 01.cbz] (3
    images) and [Chapter 02.cbz] (no image) and an empty [Beta/], the scan
    returns 1 manga and 2 chapters, [Chapter 02.cbz] is inserted with page
    count 0 and [Beta] is not inserted. *)
Theorem scan_source_emits_accepted_chapters :
  (forall fs db sid root,
      emitted fs db (snd (scanner.scan_source fs db sid root))
              (fst (scanner.scan_source fs db sid root)) 0 0)
  /\ (forall fs d e rest acc n,
         comic_parser.is_cbz_file fs (OsPath.join d e) = true ->
         comic_parser.get_page_count fs (OsPath.join d e) = Ret n ->
         scanner.discover_chapters fs d (e :: rest) acc
         = scanner.discover_chapters fs d rest
             (acc ++ [scanner.mkCh (scanner._extract_chapter_number e)
                                   (fst (OsPath.splitext e))
                                   (OsPath.join d e) n])%list)
  /\ (forall fs d e rest acc n,
         comic_parser.is_cbz_file fs (OsPath.join d e) = false ->
         os_path_isdir fs (OsPath.join d e) = true ->
         comic_parser.get_page_count fs (OsPath.join d e) = Ret n ->
         scanner.discover_chapters fs d (e :: rest) acc
         = if n >? 0
           then scanner.discover_chapters fs d rest
                  (acc ++ [scanner.mkCh (scanner._extract_chapter_number e)
                                        e (OsPath.join d e) n])%list
           else scanner.discover_chapters fs d rest acc)
  /\ scanner.scan_source (Disk.mount Scenario.library) Disk.empty_db 1 "/lib"
     = (Ret (scanner.mkSummary 1 2),
        mkDb [mkManga 1 "Alpha" 1 "" 2]
             [mkChapter 1 1 1%Q "Chapter 01" "/lib/Alpha/Chapter 01.cbz" 3;
              mkChapter 2 1 2%Q "Chapter 02" "/lib/Alpha/Chapter 02.cbz" 0]
             1 2).
Proof.
  split; [|split; [|split; [|reflexivity]]].
  - intros fs db sid root. unfold scanner.scan_source.
    destruct (negb (os_path_isdir fs root)).
    + apply emitted_nothing. intros s H. injection H as <-. reflexivity.
    + destruct (os_listdir fs root) as [names|e].
      * apply scan_mangas_emitted.
      * apply emitted_nothing. discriminate.
  - intros fs d e rest acc n Hc Hn. simpl. rewrite Hc, Hn. reflexivity.
  - intros fs d e rest acc n Hc Hd Hn. simpl. rewrite Hc, Hd, Hn. reflexivity.
Qed.

Lemma scan_source_emits_accepted_chapters_witness :
  scanner.discover_chapters (Disk.mount Scenario.library) "/lib/Alpha"
                            ["Chapter 02.cbz"] []
  = Ret [scanner.mkCh 2%Q "Chapter 02" "/lib/Alpha/Chapter 02.cbz" 0].
Proof.
  rewrite (proj1 (proj2 scan_source_emits_accepted_chapters)
                 (Disk.mount Scenario.library) "/lib/Alpha"
                 "Chapter 02.cbz" [] [] 0 eq_refl eq_refl).
  reflexivity.
Defined.

(* ------------------------------------------------------------------ *)
(** ** The scan over a database whose inserts can fail *)

Section PortFacts.
Import scanner comic_parser.

(** With the tables of [DatabaseManager], whose inserts always succeed,
    the scan is [scanner.scan_source]. *)
Lemma Port_register_chapters_tables (chs : list chapter) :
  forall db mid cc,
    Port.register_chapters DatabaseManager tables_add_chapter db mid chs cc
    = (Ret (fst (register_chapters db mid chs cc)),
       snd (register_chapters db mid chs cc)).
Proof.
  induction chs as [|ch rest IH]; intros db mid cc; [reflexivity|].
  cbn [Port.register_chapters register_chapters].
  unfold tables_add_chapter, add_chapter. apply IH.
Qed.

Lemma Port_scan_mangas_tables (fs : filesystem) (sid : Z) (root : string)
      (names : list string) :
  forall db mc cc,
    Port.scan_mangas DatabaseManager tables_add_manga tables_add_chapter
                     fs sid root names db mc cc
    = scan_mangas fs sid root names db mc cc.
Proof.
  induction names as [|name rest IH]; intros db mc cc; [reflexivity|].
  cbn [Port.scan_mangas scan_mangas].
  destruct (negb (os_path_isdir fs (OsPath.join root name))); [apply IH|].
  destruct (bind (os_listdir fs (OsPath.join root name)) _)
    as [[|ch chs]|e]; [apply IH | | reflexivity].
  destruct (_find_cover fs (OsPath.join root name)) as [c|e];
    [|reflexivity].
  unfold tables_add_manga, add_manga.
  rewrite Port_register_chapters_tables.
  destruct (register_chapters _ _ (ch :: chs) cc) as [cc' db2].
  apply IH.
Qed.

Lemma Port_scan_source_tables (fs : filesystem) (db : DatabaseManager)
      (sid : Z) (root : string) :
  Port.scan_source DatabaseManager tables_add_manga tables_add_chapter
                   fs db sid root
  = scan_source fs db sid root.
Proof.
  unfold Port.scan_source, scan_source.
  destruct (negb (os_path_isdir fs root)); [reflexivity|].
  destruct (os_listdir fs root); [apply Port_scan_mangas_tables|reflexivity].
Qed.

Lemma tables_accept_scan (fs : filesystem) (root : string) (sid : Z)
      (db : DatabaseManager) :
  accepts_scan DatabaseManager tables_add_manga tables_add_chapter
               fs root sid db.
Proof.
  exists (fun _ => True), (fun _ _ => True).
  split; [exact I|]. split; [|split].
  - intros d name chs cover _ _ _. unfold tables_add_manga, add_manga. eauto.
  - intros d id name chs ch _ _ _.
    unfold tables_add_chapter, add_chapter. eauto.
  - intros; exact I.
Qed.

Lemma existsb_last {A : Type} (f : A -> bool) (l : list A) (a : A) :
  f a = true -> existsb f (l ++ [a]) = true.
Proof.
  intro H. rewrite existsb_app. simpl. rewrite H.
  rewrite orb_true_r. reflexivity.
Qed.

(** SQLite accepts the scan of a source that has its row. *)
Lemma Sqlite_accepts_scan (fs : filesystem) (root : string) (sid : Z)
      (db : Sqlite.Database) :
  Sqlite.has_source db sid = true ->
  accepts_scan Sqlite.Database Sqlite.add_manga Sqlite.add_chapter
               fs root sid db.
Proof.
  intro Hs.
  exists (fun d => Sqlite.has_source d sid = true),
         (fun d id => Sqlite.has_source d sid = true
                      /\ Sqlite.has_manga d id = true).
  split; [exact Hs|]. split; [|split].
  - intros d name chs cover Hd _ _. unfold Sqlite.add_manga. rewrite Hd.
    unfold add_manga. eexists. eexists. split; [reflexivity|].
    split; [exact Hd|].
    unfold Sqlite.has_manga. simpl. apply existsb_last.
    simpl. apply Z.eqb_refl.
  - intros d id name chs ch [Hd Hm] _ _. unfold Sqlite.add_chapter.
    rewrite Hm. unfold add_chapter. eexists. eexists.
    split; [reflexivity|]. split; [exact Hd | exact Hm].
  - intros d id [Hd _]. exact Hd.
Qed.

End PortFacts.

Section PortReturns.
Import scanner comic_parser.

Variable fs : filesystem.

Lemma get_page_count_readable (p : string) :
  readable_entry fs p -> exists n, get_page_count fs p = Ret n.
Proof.
  intros [Hz Hl]. unfold get_page_count.
  destruct (is_cbz_file fs p) eqn:Hc.
  - destruct (Hz eq_refl) as [z Ez].
    unfold list_cbz_pages. rewrite Ez. simpl. eauto.
  - destruct (os_path_isdir fs p) eqn:Hd; [|eauto].
    destruct (Hl eq_refl eq_refl) as [l El].
    unfold list_folder_pages. rewrite Hd, El. simpl. eauto.
Qed.

Lemma discover_chapters_readable (d : string) (entries : list string) :
  (forall e, In e entries -> readable_entry fs (OsPath.join d e)) ->
  forall acc, exists chs, discover_chapters fs d entries acc = Ret chs.
Proof.
  induction entries as [|e rest IH]; intros H acc; simpl; [eauto|].
  destruct (get_page_count_readable (OsPath.join d e)
              (H e (or_introl eq_refl))) as [n Hn].
  rewrite Hn. simpl.
  assert (Hrest : forall x, In x rest -> readable_entry fs (OsPath.join d x))
    by (intros x Hx; apply H; right; exact Hx).
  destruct (is_cbz_file fs (OsPath.join d e)); [apply IH, Hrest|].
  destruct (os_path_isdir fs (OsPath.join d e)); [|apply IH, Hrest].
  destruct (n >? 0); apply IH, Hrest.
Qed.

Variable Store : Type.
Variable add_manga :
  Store -> string -> Z -> string -> Z -> outcome Z * Store.
Variable add_chapter :
  Store -> Z -> Q -> string -> string -> Z -> outcome Z * Store.
Variable sid : Z.
Variable root : string.
Variable ready : Store -> Prop.
Variable open_ : Store -> Z -> Prop.
Hypothesis Hmanga :
  forall d name chs cover,
    ready d ->
    found fs root name chs ->
    _find_cover fs (OsPath.join root name) = Ret cover ->
    exists id d',
      add_manga d name sid (or_empty cover) (len chs) = (Ret id, d')
      /\ open_ d' id.
Hypothesis Hchapter :
  forall d id name chs ch,
    open_ d id ->
    found fs root name chs ->
    In ch chs ->
    exists cid d',
      add_chapter d id (number ch) (path ch) (title ch) (page_count ch)
      = (Ret cid, d')
      /\ open_ d' id.
Hypothesis Hready : forall d id, open_ d id -> ready d.

Lemma Port_register_chapters_returns (name : string)
      (all : list chapter) (chs : list chapter) :
  found fs root name all ->
  (forall ch, In ch chs -> In ch all) ->
  forall db id cc,
    open_ db id ->
    exists db',
      Port.register_chapters Store add_chapter db id chs cc
      = (Ret (cc + len chs), db')
      /\ open_ db' id.
Proof.
  intro Hfound.
  induction chs as [|ch rest IH]; intros Hin db id cc Ho.
  - exists db. simpl. unfold len. simpl. rewrite Z.add_0_r. auto.
  - cbn [Port.register_chapters].
    destruct (Hchapter db id name all ch Ho Hfound
                       (Hin ch (or_introl eq_refl)))
      as [cid [d' [E Ho']]].
    rewrite E.
    destruct (IH (fun x Hx => Hin x (or_intror Hx)) d' id (cc + 1) Ho')
      as [db' [E' Ho'']].
    exists db'. rewrite E'. split; [|exact Ho''].
    f_equal. f_equal. unfold len. simpl length. lia.
Qed.

Lemma Port_scan_mangas_returns (listing names : list string) :
  os_listdir fs root = Ret listing ->
  (forall n, In n names -> In n listing) ->
  (forall n, In n names -> readable_manga fs (OsPath.join root n)) ->
  forall db mc cc,
    ready db ->
    exists s,
      fst (Port.scan_mangas Store add_manga add_chapter fs sid root names
                            db mc cc) = Ret s.
Proof.
  intro Hroot.
  induction names as [|name rest IH]; intros Hsub H db mc cc Hr;
    [simpl; eauto|].
  assert (Hsub' : forall n, In n rest -> In n listing)
    by (intros n Hn; apply Hsub; right; exact Hn).
  assert (Hrest : forall n, In n rest ->
                            readable_manga fs (OsPath.join root n))
    by (intros n Hn; apply H; right; exact Hn).
  cbn [Port.scan_mangas].
  destruct (os_path_isdir fs (OsPath.join root name)) eqn:Hd; simpl negb;
    cbv iota; [|apply IH; assumption].
  destruct (H name (or_introl eq_refl) Hd) as [entries [El He]].
  rewrite El. simpl bind.
  destruct (discover_chapters_readable (OsPath.join root name)
              (sorted entries)
              (fun e Hin => He e (proj1 (sorted_In entries e) Hin)) [])
    as [chs Hchs].
  rewrite Hchs. destruct chs as [|ch chs']; [apply IH; assumption|].
  assert (Hfound : found fs root name (ch :: chs')).
  { exists listing, entries.
    repeat split; try assumption;
      [apply Hsub; left; reflexivity | discriminate]. }
  destruct (_find_cover fs (OsPath.join root name)) as [cover|e] eqn:Hc.
  - destruct (Hmanga db name (ch :: chs') cover Hr Hfound Hc)
      as [id [d1 [E1 Ho]]].
    rewrite E1.
    destruct (Port_register_chapters_returns name (ch :: chs') (ch :: chs')
                Hfound (fun x Hx => Hx) d1 id cc Ho)
      as [d2 [E2 Ho2]].
    rewrite E2. apply IH; [assumption | assumption |].
    exact (Hready d2 id Ho2).
  - exfalso. unfold _find_cover in Hc. rewrite Hd, El in Hc.
    simpl in Hc.
    destruct (first_match is_named_cover _ _); discriminate.
Qed.

End PortReturns.

Ltac each_listed :=
  repeat match goal with
         | H : In _ (_ :: _) |- _ => destruct H as [<-|H]
         | H : In _ [] |- _ => destruct H
         end.

Lemma library_and_more_readable :
  readable_source (Disk.mount library_and_more) "/lib".
Proof.
  intros _. eexists. split; [reflexivity|].
  intros n Hn. each_listed.
  - intros _. eexists. split; [reflexivity|]. intros e He. destruct He.
  - intros _. eexists. split; [reflexivity|]. intros e He. each_listed.
    + split; [intros _; eexists; reflexivity | discriminate].
    + split; [intros _; eexists; reflexivity | discriminate].
Qed.

(** C6 (as amended).  When the part of the tree that the scan reads can
    be read (the root lists; its entries that are directories list; of
    their entries, the archives that [is_cbz_file] accepts open and the
    other directories list) and the database accepts the inserts the scan
    asks for, [scan_source] returns its counts, whatever the rest of the
    file system is like and whatever the database does with other
    inserts; and an entry that is neither accepted by [is_cbz_file]
    (whose probes answer [False] instead of raising) nor a directory is
    skipped, the loop going on with the next entry. *)
Theorem scan_source_returns_when_readable :
  (forall Store add_manga add_chapter fs (db : Store) sid root,
      readable_source fs root ->
      accepts_scan Store add_manga add_chapter fs root sid db ->
      exists s,
        fst (Port.scan_source Store add_manga add_chapter fs db sid root)
        = Ret s)
  /\ (forall fs d e rest acc,
         comic_parser.is_cbz_file fs (OsPath.join d e) = false ->
         os_path_isdir fs (OsPath.join d e) = false ->
         scanner.discover_chapters fs d (e :: rest) acc
         = scanner.discover_chapters fs d rest acc).
Proof.
  split.
  - intros Store add_manga add_chapter fs db sid root Hread
           [ready [open_ [Hr [Hm [Hc Ho]]]]].
    unfold Port.scan_source.
    destruct (os_path_isdir fs root) eqn:Hd; simpl; [|eauto].
    destruct (Hread Hd) as [names [Hn Hnames]]. rewrite Hn.
    apply (Port_scan_mangas_returns fs Store add_manga add_chapter sid
             root ready open_ Hm Hc Ho names (sorted names) Hn).
    + intros n Hin. apply sorted_In. exact Hin.
    + intros n Hin. apply Hnames. apply sorted_In. exact Hin.
    + exact Hr.
  - intros fs d e rest acc Hc Hd. simpl. rewrite Hc, Hd. reflexivity.
Qed.

Lemma scan_source_returns_when_readable_witness :
  (exists s,
      fst (Port.scan_source Sqlite.Database Sqlite.add_manga
                            Sqlite.add_chapter
                            (Disk.mount library_and_more)
                            (Sqlite.mkSql [1] Disk.empty_db) 1 "/lib")
      = Ret s)
  /\ scanner.discover_chapters (Disk.mount Scenario.no_images) "/m"
                               ["notes.txt"] []
     = scanner.discover_chapters (Disk.mount Scenario.no_images) "/m" [] [].
Proof.
  split.
  - apply (proj1 scan_source_returns_when_readable).
    + exact library_and_more_readable.
    + apply Sqlite_accepts_scan. reflexivity.
  - apply (proj2 scan_source_returns_when_readable); reflexivity.
Defined.

(** C6, the statement as given: one archive that passes [is_zipfile] and
    cannot be opened, or one chapter folder that cannot be listed, makes
    the whole scan raise, and the sound archive beside it is not inserted;
    and on a tree that reads without fault the scan raises when SQLite
    refuses the insert, the source having no row. *)
Lemma scan_source_raises_on_bad_entry :
  scanner.scan_source (Disk.mount Scenario.damaged_library) Disk.empty_db 1
                      "/lib"
  = (Raise BadZipFile, Disk.empty_db)
  /\ scanner.scan_source (Disk.mount Scenario.locked_library) Disk.empty_db 1
                         "/lib"
     = (Raise OSError, Disk.empty_db)
  /\ Port.scan_source Sqlite.Database Sqlite.add_manga Sqlite.add_chapter
                      (Disk.mount Scenario.damaged_library)
                      (Sqlite.mkSql [1] Disk.empty_db) 1 "/lib"
     = (Raise BadZipFile, Sqlite.mkSql [1] Disk.empty_db)
  /\ Port.scan_source Sqlite.Database Sqlite.add_manga Sqlite.add_chapter
                      (Disk.mount Scenario.locked_library)
                      (Sqlite.mkSql [1] Disk.empty_db) 1 "/lib"
     = (Raise OSError, Sqlite.mkSql [1] Disk.empty_db)
  /\ Port.scan_source Sqlite.Database Sqlite.add_manga Sqlite.add_chapter
                      (Disk.mount Scenario.library)
                      (Sqlite.mkSql [] Disk.empty_db) 1 "/lib"
     = (Raise IntegrityError, Sqlite.mkSql [] Disk.empty_db).
Proof. repeat split; reflexivity. Qed.

(** C7 (as amended).  [get_page_image] has one failure value, [None].
    For an archive whose page listing succeeds, when reading the selected
    member raises [KeyError] or [BadZipFile] the result is [None]; [None]
    is also the result for the index just past the listing; and
    [extract_cbz_page] returns [None] for every archive that cannot be
    opened ([BadZipFile]), whatever the member asked for.  Each of the
    three parts stands under its own premises only. *)
Theorem unreadable_member_gives_none :
  (forall fs p i pages z,
      comic_parser.is_cbz_file fs p = true ->
      comic_parser.list_cbz_pages fs p = Ret pages ->
      zipfile_open fs p = Ret z ->
      0 <= i < len pages ->
      (zip_read z (comic_parser.item pages i) = Raise KeyError
       \/ zip_read z (comic_parser.item pages i) = Raise BadZipFile) ->
      comic_parser.get_page_image fs p i = Ret None)
  /\ (forall fs p pages,
         comic_parser.is_cbz_file fs p = true ->
         comic_parser.list_cbz_pages fs p = Ret pages ->
         comic_parser.get_page_image fs p (len pages) = Ret None)
  /\ (forall fs q name,
         zipfile_open fs q = Raise BadZipFile ->
         comic_parser.extract_cbz_page fs q name = Ret None).
Proof.
  split; [|split].
  - intros fs p i pages z Hc Hl Hz Hi Hread.
    unfold comic_parser.get_page_image. rewrite Hc, Hl. simpl.
    rewrite (in_range_true _ _ Hi).
    unfold comic_parser.extract_cbz_page. rewrite Hz. simpl.
    destruct Hread as [-> | ->]; reflexivity.
  - intros fs p pages Hc Hl.
    unfold comic_parser.get_page_image. rewrite Hc, Hl. simpl.
    rewrite in_range_false by lia. reflexivity.
  - intros fs q name Hq. unfold comic_parser.extract_cbz_page.
    rewrite Hq. reflexivity.
Qed.

Lemma unreadable_member_gives_none_witness :
  comic_parser.get_page_image (Disk.mount Scenario.bad_member) "/c.cbz" 0
  = Ret None
  /\ comic_parser.get_page_image (Disk.mount Scenario.bad_member) "/c.cbz" 1
     = Ret None
  /\ comic_parser.extract_cbz_page (Disk.mount Scenario.damaged_library)
                                   "/lib/Alpha/Chapter 02.cbz" "p1.jpg"
     = Ret None.
Proof.
  split; [|split].
  - refine (proj1 unreadable_member_gives_none
                  (Disk.mount Scenario.bad_member) "/c.cbz" 0 ["p1.jpg"]
                  (mkZip [("p1.jpg", Raise BadZipFile)])
                  eq_refl eq_refl eq_refl _ (or_intror eq_refl)).
    unfold len; simpl; lia.
  - exact (proj1 (proj2 unreadable_member_gives_none)
                 (Disk.mount Scenario.bad_member) "/c.cbz" ["p1.jpg"]
                 eq_refl eq_refl).
  - exact (proj2 (proj2 unreadable_member_gives_none)
                 (Disk.mount Scenario.damaged_library)
                 "/lib/Alpha/Chapter 02.cbz" "p1.jpg" eq_refl).
Defined.

(** C7, the statement as given: a member that cannot be read gives the
    very value an index out of range gives; so does a file cut off before
    its end record, which [is_zipfile] rejects; and an archive that passes
    [is_zipfile] with a central directory that cannot be read makes
    [get_page_image] raise [BadZipFile]. *)
Lemma corrupt_archive_not_distinguished :
  comic_parser.get_page_image (Disk.mount Scenario.bad_member) "/c.cbz" 0
  = comic_parser.get_page_image (Disk.mount Scenario.bad_member) "/c.cbz" 1
  /\ comic_parser.get_page_image (Disk.mount Scenario.bad_member) "/c.cbz" 0
     = Ret None
  /\ comic_parser.get_page_image (Disk.mount Scenario.truncated) "/t.cbz" 0
     = Ret None
  /\ comic_parser.get_page_image (Disk.mount Scenario.damaged_library)
                                 "/lib/Alpha/Chapter 02.cbz" 0
     = Raise BadZipFile.
Proof. repeat split; reflexivity. Qed.

Lemma mem_In (x : string) (l : list string) :
  comic_parser.mem x l = true <-> In x l.
Proof.
  unfold comic_parser.mem. rewrite existsb_exists. split.
  - intros [y [Hy He]]. apply String.eqb_eq in He. subst y. exact Hy.
  - intro H. exists x. split; [exact H | apply String.eqb_refl].
Qed.

(** C8.  An entry is a named cover exactly when its stem ([os.path.splitext]),
    lower-cased, is one of cover, folder, poster, thumb, thumbnail and its
    extension, lower-cased, is one of .jpg, .jpeg, .png, .webp, .gif, .bmp,
    .tiff.  For a manga directory with the entries [names], [_find_cover]
    returns the first named cover by name; when no entry is one, the first
    entry by name with an image extension; when no entry has one, [None].
    A directory with cover.jpg and page_001.jpg yields cover.jpg, one with
    page_001.jpg and page_002.jpg yields page_001.jpg, one with no image
    yields [None]; each of the five names, in any letter case, wins over an
    image that sorts before it, while covers.jpg, cover.txt and
    cover.tar.jpg do not. *)
Theorem find_cover_picks :
  (forall f,
      scanner.is_named_cover f = true <->
      In (PyStr.lower (fst (OsPath.splitext f)))
         ["cover"; "folder"; "poster"; "thumb"; "thumbnail"]
      /\ In (PyStr.lower (snd (OsPath.splitext f)))
            [".jpg"; ".jpeg"; ".png"; ".webp"; ".gif"; ".bmp"; ".tiff"])
  /\ (forall fs path names,
         os_path_isdir fs path = true ->
         os_listdir fs path = Ret names ->
         (forall f,
             first_by_name scanner.is_named_cover names f ->
             scanner._find_cover fs path = Ret (Some (OsPath.join path f)))
         /\ (forall f,
                (forall g, In g names -> scanner.is_named_cover g = false) ->
                first_by_name comic_parser.is_image_file names f ->
                scanner._find_cover fs path
                = Ret (Some (OsPath.join path f)))
         /\ ((forall g, In g names -> comic_parser.is_image_file g = false) ->
             scanner._find_cover fs path = Ret None))
  /\ (scanner._find_cover (Disk.mount Scenario.with_cover) "/m"
      = Ret (Some "/m/cover.jpg")
      /\ scanner._find_cover (Disk.mount Scenario.without_cover) "/m"
         = Ret (Some "/m/page_001.jpg")
      /\ scanner._find_cover (Disk.mount Scenario.no_images) "/m" = Ret None)
  /\ (scanner._find_cover
        (Disk.mount (Scenario.shelf ["001.jpg"; "zz.png"; "COVER.jpeg"])) "/m"
      = Ret (Some "/m/COVER.jpeg")
      /\ scanner._find_cover
           (Disk.mount (Scenario.shelf ["Folder.PNG"; "001.jpg"])) "/m"
         = Ret (Some "/m/Folder.PNG")
      /\ scanner._find_cover
           (Disk.mount (Scenario.shelf ["001.jpg"; "poster.webp"])) "/m"
         = Ret (Some "/m/poster.webp")
      /\ scanner._find_cover
           (Disk.mount (Scenario.shelf ["001.jpg"; "tHuMb.Gif"])) "/m"
         = Ret (Some "/m/tHuMb.Gif")
      /\ scanner._find_cover
           (Disk.mount (Scenario.shelf ["001.jpg"; "ThumbNail.bmp"])) "/m"
         = Ret (Some "/m/ThumbNail.bmp")
      /\ scanner._find_cover
           (Disk.mount (Scenario.shelf ["thumb.png"; "001.jpg"; "cover.tiff"]))
           "/m"
         = Ret (Some "/m/cover.tiff"))
  /\ (scanner._find_cover
        (Disk.mount (Scenario.shelf ["covers.jpg"; "001.jpg"])) "/m"
      = Ret (Some "/m/001.jpg")
      /\ scanner._find_cover
           (Disk.mount (Scenario.shelf ["cover.txt"; "001.jpg"])) "/m"
         = Ret (Some "/m/001.jpg")
      /\ scanner._find_cover
           (Disk.mount (Scenario.shelf ["cover.tar.jpg"; "001.jpg"])) "/m"
         = Ret (Some "/m/001.jpg")
      /\ scanner._find_cover
           (Disk.mount (Scenario.shelf ["cover"; "thumb.cbz"])) "/m"
         = Ret None).
Proof.
  split; [|split; [|split; [|split]]].
  - intro f. unfold scanner.is_named_cover.
    destruct (OsPath.splitext f) as [stem ext]. simpl fst. simpl snd.
    rewrite andb_true_iff.
    rewrite (mem_In (PyStr.lower stem) scanner.cover_names).
    rewrite (mem_In (PyStr.lower ext) comic_parser.IMAGE_EXTENSIONS).
    reflexivity.
  - intros fs path names Hd Hl. split; [|split].
    + intros f Hf. unfold scanner._find_cover. rewrite Hd, Hl. simpl.
      rewrite (first_match_least _ path (sorted names) f
                 (sorted_ascending names) (first_by_name_sorted _ _ _ Hf)).
      reflexivity.
    + intros f Hnone Hf. unfold scanner._find_cover. rewrite Hd, Hl. simpl.
      rewrite first_match_none.
      * rewrite (first_match_least _ path (sorted names) f
                   (sorted_ascending names) (first_by_name_sorted _ _ _ Hf)).
        reflexivity.
      * intros g Hg. apply Hnone. apply sorted_In. exact Hg.
    + intro Hnone. unfold scanner._find_cover. rewrite Hd, Hl. simpl.
      rewrite first_match_none.
      * rewrite first_match_none; [reflexivity|].
        intros g Hg. apply Hnone. apply sorted_In. exact Hg.
      * intros g Hg.
        destruct (scanner.is_named_cover g) eqn:E; [|reflexivity].
        apply named_cover_is_image in E.
        rewrite (Hnone g (proj1 (sorted_In names g) Hg)) in E. discriminate.
  - repeat split; reflexivity.
  - repeat split; reflexivity.
  - repeat split; reflexivity.
Qed.

Lemma find_cover_picks_witness :
  scanner.is_named_cover "THUMB.png" = true
  /\ scanner._find_cover
       (Disk.mount (Scenario.shelf ["001.jpg"; "THUMB.png"; "a.jpg"])) "/m"
     = Ret (Some "/m/THUMB.png")
  /\ scanner._find_cover (Disk.mount Scenario.without_cover) "/m"
     = Ret (Some "/m/page_001.jpg")
  /\ scanner._find_cover (Disk.mount Scenario.no_images) "/m" = Ret None.
Proof.
  assert (Hn : scanner.is_named_cover "THUMB.png" = true).
  { apply (proj2 (proj1 find_cover_picks "THUMB.png")).
    split; simpl; tauto. }
  split; [exact Hn|]. split; [|split].
  - apply (proj1 (proj1 (proj2 find_cover_picks)
                        (Disk.mount
                           (Scenario.shelf ["001.jpg"; "THUMB.png"; "a.jpg"]))
                        "/m" ["001.jpg"; "THUMB.png"; "a.jpg"]
                        eq_refl eq_refl)
                 "THUMB.png").
    split; [simpl; tauto|]. split; [exact Hn|].
    intros g [<-|[<-|[<-|[]]]] Hg;
      [discriminate Hg | reflexivity | discriminate Hg].
  - apply (proj1 (proj2 (proj1 (proj2 find_cover_picks)
                               (Disk.mount Scenario.without_cover) "/m"
                               ["page_002.jpg"; "page_001.jpg"]
                               eq_refl eq_refl))
                 "page_001.jpg").
    + intros g [<-|[<-|[]]]; reflexivity.
    + split; [simpl; tauto|]. split; [reflexivity|].
      intros g [<-|[<-|[]]] _; reflexivity.
  - apply (proj2 (proj2 (proj1 (proj2 find_cover_picks)
                               (Disk.mount Scenario.no_images) "/m"
                               ["notes.txt"; "Chapter 01.cbz"]
                               eq_refl eq_refl))).
    intros g [<-|[<-|[]]]; reflexivity.
Defined.

(* ------------------------------------------------------------------ *)
(** ** Thumbnails *)

(** C10.  [get_page_thumbnail] gives the same result, [None], for two
    different causes: when [get_page_image] finds no page, and when the
    page bytes are there and decoding, resizing or encoding them raises.
    The result alone does not tell a missing page from a damaged image. *)
Theorem thumbnail_failures_collapse
        (Image : Type) (Image_open : bytes -> outcome Image)
        (Image_thumbnail : Image -> Z * Z -> outcome Image)
        (Image_save_jpeg : Image -> Z -> outcome bytes)
        (fs : filesystem) (p : string) (i : Z) (max_size : Z * Z) :
  (comic_parser.get_page_image fs p i = Ret None ->
   get_page_thumbnail Image Image_open Image_thumbnail Image_save_jpeg
                      fs p i max_size = Ret None)
  /\ (forall data e,
         comic_parser.get_page_image fs p i = Ret (Some data) ->
         render_thumbnail Image Image_open Image_thumbnail Image_save_jpeg
                          data max_size = Raise e ->
         get_page_thumbnail Image Image_open Image_thumbnail Image_save_jpeg
                            fs p i max_size = Ret None).
Proof.
  unfold get_page_thumbnail. split.
  - intros ->. reflexivity.
  - intros data e -> Hr. simpl. rewrite Hr. reflexivity.
Qed.

Lemma thumbnail_failures_collapse_witness :
  get_page_thumbnail (Z * Z) Scenario.toy_open Scenario.toy_thumbnail
                     Scenario.toy_save
                     (Disk.mount Scenario.folder_chapter) "/m/001" 2
                     (300, 400)
  = Ret None
  /\ get_page_thumbnail (Z * Z) Scenario.toy_open Scenario.toy_thumbnail
                        Scenario.toy_save
                        (Disk.mount Scenario.folder_chapter) "/m/001" 1
                        (300, 400)
     = Ret None.
Proof.
  split.
  - apply (proj1 (thumbnail_failures_collapse
                    (Z * Z) Scenario.toy_open Scenario.toy_thumbnail
                    Scenario.toy_save
                    (Disk.mount Scenario.folder_chapter) "/m/001" 2
                    (300, 400))).
    reflexivity.
  - apply (proj2 (thumbnail_failures_collapse
                    (Z * Z) Scenario.toy_open Scenario.toy_thumbnail
                    Scenario.toy_save
                    (Disk.mount Scenario.folder_chapter) "/m/001" 1
                    (300, 400))
                 Scenario.png UnidentifiedImageError); reflexivity.
Defined.

(* ------------------------------------------------------------------ *)
(** ** The size and the mode of a thumbnail *)

Section ThumbnailSize.
Import Pillow.

Lemma inject_Z_nonzero (c : Z) : 0 < c -> ~ (inject_Z c == 0)%Q.
Proof.
  intros Hc H. unfold Qeq in H. simpl in H. lia.
Qed.

Lemma Qfloor_scaled (a b c : Z) :
  0 < c ->
  Qfloor (inject_Z a * (inject_Z b / inject_Z c))%Q = (a * b) / c.
Proof.
  intro Hc. rewrite (Zdiv_Qdiv (a * b) c). apply Qfloor_comp.
  rewrite inject_Z_mult. field. apply inject_Z_nonzero. exact Hc.
Qed.

Lemma Qceiling_scaled (a b c : Z) :
  0 < c ->
  Qceiling (inject_Z a * (inject_Z b / inject_Z c))%Q = - ((- (a * b)) / c).
Proof.
  intro Hc. unfold Qceiling. f_equal.
  rewrite (Zdiv_Qdiv (- (a * b)) c). apply Qfloor_comp.
  rewrite inject_Z_opp, inject_Z_mult. field.
  apply inject_Z_nonzero. exact Hc.
Qed.

Lemma Qfloor_unscaled (a b c : Z) :
  0 < b -> 0 < c ->
  Qfloor (inject_Z a / (inject_Z b / inject_Z c))%Q = (a * c) / b.
Proof.
  intros Hb Hc. rewrite (Zdiv_Qdiv (a * c) b). apply Qfloor_comp.
  rewrite inject_Z_mult. field.
  split; apply inject_Z_nonzero; assumption.
Qed.

Lemma Qceiling_unscaled (a b c : Z) :
  0 < b -> 0 < c ->
  Qceiling (inject_Z a / (inject_Z b / inject_Z c))%Q
  = - ((- (a * c)) / b).
Proof.
  intros Hb Hc. unfold Qceiling. f_equal.
  rewrite (Zdiv_Qdiv (- (a * c)) b). apply Qfloor_comp.
  rewrite inject_Z_opp, inject_Z_mult. field.
  split; apply inject_Z_nonzero; assumption.
Qed.

Lemma aspect_le (w h x y : Z) :
  0 < h -> 0 < y ->
  Qle_bool (inject_Z w / inject_Z h) (inject_Z x / inject_Z y) = true
  <-> w * y <= x * h.
Proof.
  intros Hh Hy. rewrite Qle_bool_iff.
  assert (Eh : (inject_Z w / inject_Z h == w # Z.to_pos h)%Q).
  { destruct h as [|p|p]; try lia. unfold Qdiv, Qinv, Qmult, Qeq. simpl.
    lia. }
  assert (Ey : (inject_Z x / inject_Z y == x # Z.to_pos y)%Q).
  { destruct y as [|p|p]; try lia. unfold Qdiv, Qinv, Qmult, Qeq. simpl.
    lia. }
  rewrite Eh, Ey. unfold Qle. simpl.
  rewrite !Z2Pos.id by assumption. lia.
Qed.

Lemma round_aspect_cases (number : Q) (key : Z -> Q) :
  round_aspect number key = Z.max (Qfloor number) 1
  \/ round_aspect number key = Z.max (Qceiling number) 1.
Proof.
  unfold round_aspect.
  destruct (Qle_bool (key (Qfloor number)) (key (Qceiling number))); auto.
Qed.

(** Rounding a positive quotient [n / d] down or up, and to 1 at least:
    the result stays within one of the quotient, above 0, and below any
    whole number the quotient does not exceed. *)
Lemma rounded_quotient (n d r bound : Z) :
  0 < n -> 0 < d ->
  r = Z.max (n / d) 1 \/ r = Z.max (- ((- n) / d)) 1 ->
  n <= bound * d ->
  1 <= r <= bound /\ Z.abs (r * d - n) < d.
Proof.
  intros Hn Hd Hr Hb.
  assert (Hlo := Z.mul_div_le n d Hd).
  assert (Hlo' := Z.mul_succ_div_gt n d Hd).
  assert (Hhi := Z.mul_div_le (- n) d Hd).
  assert (Hhi' := Z.mul_succ_div_gt (- n) d Hd).
  set (lo := n / d) in *. set (q := (- n) / d) in *.
  replace (d * Z.succ lo) with (d * lo + d) in Hlo' by ring.
  replace (d * Z.succ q) with (d * q + d) in Hhi' by ring.
  set (dlo := d * lo) in *. set (dq := d * q) in *.
  assert (Hlo0 : 0 <= lo) by (apply Z.div_pos; lia).
  assert (Hq1 : 1 <= - q).
  { assert (E : d * q < d * 0) by (fold dq; lia).
    apply Z.mul_lt_mono_pos_l in E; lia. }
  assert (Hqb : - q <= bound).
  { assert (E : d * (- q - 1) < d * bound).
    { replace (d * (- q - 1)) with (- dq - d) by (unfold dq; ring).
      rewrite (Z.mul_comm d bound). lia. }
    apply Z.mul_lt_mono_pos_l in E; lia. }
  assert (Hb1 : 1 <= bound) by lia.
  assert (Hlob : lo <= - q).
  { assert (E : d * lo < d * (- q + 1)).
    { replace (d * (- q + 1)) with (- dq + d) by (unfold dq; ring).
      fold dlo. lia. }
    apply Z.mul_lt_mono_pos_l in E; lia. }
  destruct Hr as [-> | ->]; split; try lia.
Qed.

Lemma thumbnail_size (w h mw mh : Z) (m : string) :
  1 <= w -> 1 <= h -> 1 <= mw -> 1 <= mh ->
  exists x y,
    thumbnail (mkImage w h m) (mw, mh) = Ret (mkImage x y m)
    /\ 1 <= x <= mw /\ 1 <= y <= mh /\ x <= w /\ y <= h
    /\ ((x = w /\ y = h)
        \/ (y = mh /\ Z.abs (x * h - mh * w) < h)
        \/ (x = mw /\ Z.abs (y * w - mw * h) < w)).
Proof.
  intros Hw Hh Hmw Hmh.
  unfold thumbnail, preserve_aspect_ratio. cbn [width height mode snd].
  destruct ((mw >=? w) && (mh >=? h)) eqn:Hfit.
  - apply andb_true_iff in Hfit. destruct Hfit as [H1 H2].
    exists w, h. split; [reflexivity|]. lia.
  - assert (Hnot : mw < w \/ mh < h).
    { apply andb_false_iff in Hfit. destruct Hfit as [H|H]; lia. }
    replace (h =? 0) with false by (symmetry; apply Z.eqb_neq; lia).
    replace (w =? 0) with false by (symmetry; apply Z.eqb_neq; lia).
    replace (mh =? 0) with false by (symmetry; apply Z.eqb_neq; lia).
    cbn [orb].
    destruct (Qle_bool (inject_Z w / inject_Z h) (inject_Z mw / inject_Z mh))
      eqn:Ha.
    + apply aspect_le in Ha; [|lia|lia].
      match goal with
      | |- context [round_aspect ?n ?k] =>
          destruct (round_aspect_cases n k) as [Hr|Hr];
          [rewrite Qfloor_scaled in Hr by lia
          |rewrite Qceiling_scaled in Hr by lia];
          set (r := round_aspect n k) in *
      end;
        (destruct (rounded_quotient (mh * w) h r mw) as [Hb Hd];
         [nia | lia | auto | nia |];
         assert (Hrw : r <= w) by
           (destruct Hnot;
            [lia
            |destruct (rounded_quotient (mh * w) h r w); [nia|lia|auto|nia|lia]]);
         replace (0 <? r) with true by (symmetry; apply Z.ltb_lt; lia);
         replace (0 <? mh) with true by (symmetry; apply Z.ltb_lt; lia);
         exists r, mh; split; [reflexivity|];
         repeat split; try lia;
         destruct Hnot; [|lia];
         assert (mh * w <= mw * h) by lia;
         destruct (Z_lt_le_dec mh h); [lia|]; nia).
    + assert (Hb0 : ~ w * mh <= mw * h).
      { intro H. apply (aspect_le w h mw mh) in H; [congruence|lia|lia]. }
      match goal with
      | |- context [round_aspect ?n ?k] =>
          destruct (round_aspect_cases n k) as [Hr|Hr];
          [rewrite Qfloor_unscaled in Hr by lia
          |rewrite Qceiling_unscaled in Hr by lia];
          set (r := round_aspect n k) in *
      end;
        (destruct (rounded_quotient (mw * h) w r mh) as [Hb Hd];
         [nia | lia | auto | nia |];
         assert (Hrh : r <= h) by
           (destruct Hnot;
            [destruct (rounded_quotient (mw * h) w r h); [nia|lia|auto|nia|lia]
            |lia]);
         replace (0 <? r) with true by (symmetry; apply Z.ltb_lt; lia);
         replace (0 <? mw) with true by (symmetry; apply Z.ltb_lt; lia);
         exists mw, r; split; [reflexivity|];
         repeat split; try lia;
         destruct Hnot; [lia|];
         destruct (Z_lt_le_dec w mw); [|lia]; nia).
Qed.

Lemma thumbnail_mode (img img' : Image) (size : Z * Z) :
  thumbnail img size = Ret img' -> mode img' = mode img.
Proof.
  unfold thumbnail.
  destruct (preserve_aspect_ratio img size) as [[x y]|].
  - destruct ((height img =? 0) || (width img =? 0) || (snd size =? 0));
      [discriminate|].
    destruct ((0 <? x) && (0 <? y)); [|discriminate].
    intro H. injection H as <-. reflexivity.
  - intro H. injection H as <-. reflexivity.
Qed.

End ThumbnailSize.

(** C9.  The size rule is as claimed: for an image of at least one pixel
    and bounds of at least one pixel, [Image.thumbnail] yields an image
    that fits the bounds, is no larger than the input in either
    direction, keeps the mode, and either is the input unchanged or meets
    one bound exactly with the other side within one pixel of the exact
    proportional value; 1200 by 1600 within 300 by 400 gives 300 by 400
    and 100 by 100 stays 100 by 100.  [get_page_thumbnail] delivers that
    image for a page whose decoded mode the JPEG writer accepts.  It does
    not for every decodable image: the image is saved as JPEG without
    being converted, so for a page of any other mode (RGBA, a PNG with an
    alpha channel; P, a GIF or a PNG with a colour palette) saving raises
    and the result is [None]. *)
Theorem thumbnail_scaled_for_jpeg_modes_only :
  (forall w h mw mh m,
      1 <= w -> 1 <= h -> 1 <= mw -> 1 <= mh ->
      exists x y,
        Pillow.thumbnail (Pillow.mkImage w h m) (mw, mh)
        = Ret (Pillow.mkImage x y m)
        /\ 1 <= x <= mw /\ 1 <= y <= mh /\ x <= w /\ y <= h
        /\ ((x = w /\ y = h)
            \/ (y = mh /\ Z.abs (x * h - mh * w) < h)
            \/ (x = mw /\ Z.abs (y * w - mw * h) < w)))
  /\ (forall decode encode fs p i data img mw mh,
         comic_parser.get_page_image fs p i = Ret (Some data) ->
         decode data = Ret img ->
         1 <= Pillow.width img -> 1 <= Pillow.height img ->
         1 <= mw -> 1 <= mh ->
         In (Pillow.mode img) Pillow.JPEG_RAWMODE ->
         exists img',
           Pillow.thumbnail img (mw, mh) = Ret img'
           /\ get_page_thumbnail Pillow.Image decode Pillow.thumbnail
                                 (Pillow.save_jpeg encode) fs p i (mw, mh)
              = Ret (Some (encode img' 85)))
  /\ (forall decode encode fs p i data img max_size,
         comic_parser.get_page_image fs p i = Ret (Some data) ->
         decode data = Ret img ->
         ~ In (Pillow.mode img) Pillow.JPEG_RAWMODE ->
         get_page_thumbnail Pillow.Image decode Pillow.thumbnail
                            (Pillow.save_jpeg encode) fs p i max_size
         = Ret None)
  /\ (Pillow.thumbnail (Pillow.mkImage 1200 1600 "RGB") (300, 400)
      = Ret (Pillow.mkImage 300 400 "RGB")
      /\ Pillow.thumbnail (Pillow.mkImage 100 100 "RGB") (300, 400)
         = Ret (Pillow.mkImage 100 100 "RGB")
      /\ Pillow.thumbnail (Pillow.mkImage 1600 1200 "L") (300, 400)
         = Ret (Pillow.mkImage 300 225 "L")
      /\ Pillow.thumbnail (Pillow.mkImage 1000 3000 "RGB") (300, 400)
         = Ret (Pillow.mkImage 133 400 "RGB")
      /\ Pillow.thumbnail (Pillow.mkImage 200 800 "RGB") (300, 400)
         = Ret (Pillow.mkImage 100 400 "RGB"))
  /\ (get_page_thumbnail Pillow.Image sample_decode Pillow.thumbnail
                         (Pillow.save_jpeg sample_encode)
                         (Disk.mount mixed_chapter) "/m/002" 0 (300, 400)
      = Ret (Some (sample_encode (Pillow.mkImage 300 400 "RGB") 85))
      /\ get_page_thumbnail Pillow.Image sample_decode Pillow.thumbnail
                            (Pillow.save_jpeg sample_encode)
                            (Disk.mount mixed_chapter) "/m/002" 1 (300, 400)
         = Ret None
      /\ get_page_thumbnail Pillow.Image sample_decode Pillow.thumbnail
                            (Pillow.save_jpeg sample_encode)
                            (Disk.mount mixed_chapter) "/m/002" 2 (300, 400)
         = Ret None).
Proof.
  split; [|split; [|split; [|split]]].
  - exact thumbnail_size.
  - intros decode encode fs p i data img mw mh Hp Hdec Hw Hh Hmw Hmh Hmode.
    destruct img as [w h m]. cbn [Pillow.width Pillow.height Pillow.mode] in *.
    destruct (thumbnail_size w h mw mh m Hw Hh Hmw Hmh)
      as [x [y [Ht _]]].
    exists (Pillow.mkImage x y m). split; [exact Ht|].
    unfold get_page_thumbnail, render_thumbnail. rewrite Hp. simpl.
    rewrite Hdec. simpl. rewrite Ht. simpl.
    unfold Pillow.save_jpeg. cbn [Pillow.mode].
    rewrite (proj2 (mem_In m Pillow.JPEG_RAWMODE) Hmode). reflexivity.
  - intros decode encode fs p i data img max_size Hp Hdec Hmode.
    unfold get_page_thumbnail, render_thumbnail. rewrite Hp. simpl.
    rewrite Hdec. simpl.
    destruct (Pillow.thumbnail img max_size) as [img'|e] eqn:Ht;
      [|reflexivity].
    simpl. unfold Pillow.save_jpeg.
    rewrite (thumbnail_mode img img' max_size Ht).
    destruct (comic_parser.mem (Pillow.mode img) Pillow.JPEG_RAWMODE) eqn:E;
      [|reflexivity].
    apply mem_In in E. contradiction.
  - repeat split; vm_compute; reflexivity.
  - repeat split; vm_compute; reflexivity.
Qed.

Lemma thumbnail_scaled_for_jpeg_modes_only_witness :
  (exists x y,
      Pillow.thumbnail (Pillow.mkImage 1200 1600 "RGBA") (300, 400)
      = Ret (Pillow.mkImage x y "RGBA")
      /\ 1 <= x <= 300 /\ 1 <= y <= 400 /\ x <= 1200 /\ y <= 1600
      /\ ((x = 1200 /\ y = 1600)
          \/ (y = 400 /\ Z.abs (x * 1600 - 400 * 1200) < 1600)
          \/ (x = 300 /\ Z.abs (y * 1200 - 300 * 1600) < 1200)))
  /\ (exists img',
         Pillow.thumbnail (Pillow.mkImage 1200 1600 "RGB") (300, 400)
         = Ret img'
         /\ get_page_thumbnail Pillow.Image sample_decode Pillow.thumbnail
                               (Pillow.save_jpeg sample_encode)
                               (Disk.mount mixed_chapter) "/m/002" 0
                               (300, 400)
            = Ret (Some (sample_encode img' 85)))
  /\ get_page_thumbnail Pillow.Image sample_decode Pillow.thumbnail
                        (Pillow.save_jpeg sample_encode)
                        (Disk.mount mixed_chapter) "/m/002" 1 (300, 400)
     = Ret None.
Proof.
  split; [|split].
  - apply (proj1 thumbnail_scaled_for_jpeg_modes_only); lia.
  - apply (proj1 (proj2 thumbnail_scaled_for_jpeg_modes_only)
                 sample_decode sample_encode (Disk.mount mixed_chapter)
                 "/m/002" 0 Scenario.jpeg
                 (Pillow.mkImage 1200 1600 "RGB") 300 400);
      try reflexivity; simpl; try lia.
    tauto.
  - apply (proj1 (proj2 (proj2 thumbnail_scaled_for_jpeg_modes_only))
                 sample_decode sample_encode (Disk.mount mixed_chapter)
                 "/m/002" 1 Scenario.png
                 (Pillow.mkImage 1200 1600 "RGBA") (300, 400));
      try reflexivity.
    simpl. intros [H|[H|[H|[H|[H|[H|[]]]]]]]; discriminate H.
Defined.

(* ================================================================== *)
(** * Further properties of the page source and of the scanner *)

(* ------------------------------------------------------------------ *)
(** ** Sorting is canonical *)

Lemma ascending_unique (l1 : list string) :
  forall l2,
    Permutation l1 l2 ->
    StronglySorted le_name l1 -> StronglySorted le_name l2 -> l1 = l2.
Proof.
  induction l1 as [|a l1 IH]; intros l2 Hp H1 H2.
  - apply Permutation_nil in Hp. congruence.
  - destruct l2 as [|b l2].
    + apply Permutation_sym, Permutation_nil in Hp. discriminate.
    + inversion H1 as [|? ? H1' Ha]; subst.
      inversion H2 as [|? ? H2' Hb]; subst.
      rewrite Forall_forall in Ha, Hb.
      assert (a = b) as ->.
      { apply String.leb_antisym.
        - assert (Hin : In b (a :: l1)).
          { eapply Permutation_in;
              [apply Permutation_sym, Hp | left; reflexivity]. }
          destruct Hin as [->|Hin]; [|exact (Ha b Hin)].
          destruct (String.leb_total b b); assumption.
        - assert (Hin : In a (b :: l2)).
          { eapply Permutation_in; [exact Hp | left; reflexivity]. }
          destruct Hin as [->|Hin]; [|exact (Hb a Hin)].
          destruct (String.leb_total a a); assumption. }
      f_equal. apply IH; [|assumption|assumption].
      eapply Permutation_cons_inv. exact Hp.
Qed.

Lemma sorted_permutation (l1 l2 : list string) :
  Permutation l1 l2 -> sorted l1 = sorted l2.
Proof.
  intro Hp. apply ascending_unique; try apply sorted_ascending.
  eapply Permutation_trans; [apply Permutation_sym, sorted_perm|].
  eapply Permutation_trans; [exact Hp | apply sorted_perm].
Qed.

Section OrderIndependence.
Import comic_parser scanner.
Variables fs fs' : filesystem.
Hypothesis Hsame : same_up_to_listing_order fs fs'.

Lemma same_isdir p : os_path_isdir fs p = os_path_isdir fs' p.
Proof. apply Hsame. Qed.

Lemma same_is_cbz_file p : is_cbz_file fs p = is_cbz_file fs' p.
Proof.
  destruct Hsame as (_ & Hf & Hz & _).
  unfold is_cbz_file. rewrite Hf, Hz. reflexivity.
Qed.

Lemma same_sorted_listing p A (f : list string -> outcome A) :
  (forall l l', Permutation l l' -> f l = f l') ->
  bind (os_listdir fs p) f = bind (os_listdir fs' p) f.
Proof.
  intro Hf. destruct Hsame as (_ & _ & _ & _ & _ & Hl).
  specialize (Hl p). unfold same_listing in Hl.
  destruct (os_listdir fs p), (os_listdir fs' p); simpl; try contradiction.
  - apply Hf, Hl.
  - congruence.
Qed.

Lemma same_list_cbz_pages p : list_cbz_pages fs p = list_cbz_pages fs' p.
Proof.
  destruct Hsame as (_ & _ & _ & Ho & _).
  unfold list_cbz_pages. rewrite Ho. reflexivity.
Qed.

Lemma same_list_folder_pages p :
  list_folder_pages fs p = list_folder_pages fs' p.
Proof.
  unfold list_folder_pages. rewrite <- same_isdir.
  destruct (negb (os_path_isdir fs p)); [reflexivity|].
  apply (same_sorted_listing p). intros l l' Hp. f_equal.
  apply sorted_permutation, Permutation_map.
  clear -Hp. induction Hp; simpl; auto.
  - destruct (is_image_file x); auto.
  - destruct (is_image_file x), (is_image_file y); auto. apply perm_swap.
  - eapply Permutation_trans; eassumption.
Qed.

Lemma same_get_page_count p : get_page_count fs p = get_page_count fs' p.
Proof.
  unfold get_page_count.
  rewrite same_is_cbz_file, same_isdir, same_list_cbz_pages,
    same_list_folder_pages.
  reflexivity.
Qed.

Lemma same_get_page_image p i : get_page_image fs p i = get_page_image fs' p i.
Proof.
  destruct Hsame as (_ & _ & _ & Ho & Hr & _).
  unfold get_page_image.
  rewrite same_is_cbz_file, same_isdir, same_list_cbz_pages,
    same_list_folder_pages.
  destruct (is_cbz_file fs' p).
  - destruct (list_cbz_pages fs' p); simpl; [|reflexivity].
    destruct ((0 <=? i) && (i <? len a)); [|reflexivity].
    unfold extract_cbz_page. rewrite Ho. reflexivity.
  - destruct (os_path_isdir fs' p); [|reflexivity].
    destruct (list_folder_pages fs' p); simpl; [|reflexivity].
    destruct ((0 <=? i) && (i <? len a)); [|reflexivity].
    rewrite Hr. reflexivity.
Qed.

Lemma same_find_cover p : _find_cover fs p = _find_cover fs' p.
Proof.
  unfold _find_cover. rewrite <- same_isdir.
  destruct (negb (os_path_isdir fs p)); [reflexivity|].
  apply (same_sorted_listing p). intros l l' Hp.
  rewrite (sorted_permutation l l' Hp). reflexivity.
Qed.

Lemma same_discover_chapters d entries :
  forall acc,
    discover_chapters fs d entries acc = discover_chapters fs' d entries acc.
Proof.
  induction entries as [|e rest IH]; intro acc; simpl; [reflexivity|].
  rewrite same_is_cbz_file, same_isdir, same_get_page_count.
  destruct (is_cbz_file fs' (OsPath.join d e)).
  - destruct (get_page_count fs' (OsPath.join d e)); simpl;
      [apply IH|reflexivity].
  - destruct (os_path_isdir fs' (OsPath.join d e)); [|apply IH].
    destruct (get_page_count fs' (OsPath.join d e)) as [n|]; simpl;
      [|reflexivity].
    destruct (n >? 0); apply IH.
Qed.

Lemma same_scan_mangas sid root names :
  forall db mc cc,
    scan_mangas fs sid root names db mc cc
    = scan_mangas fs' sid root names db mc cc.
Proof.
  induction names as [|name rest IH]; intros db mc cc; simpl; [reflexivity|].
  rewrite same_isdir, same_find_cover.
  destruct (negb (os_path_isdir fs' (OsPath.join root name))); [apply IH|].
  assert (H : bind (os_listdir fs (OsPath.join root name))
                (fun entries =>
                   discover_chapters fs (OsPath.join root name)
                                     (sorted entries) [])
              = bind (os_listdir fs' (OsPath.join root name))
                (fun entries =>
                   discover_chapters fs' (OsPath.join root name)
                                     (sorted entries) [])).
  { destruct Hsame as (_ & _ & _ & _ & _ & Hl).
    specialize (Hl (OsPath.join root name)). unfold same_listing in Hl.
    destruct (os_listdir fs (OsPath.join root name)),
      (os_listdir fs' (OsPath.join root name)); simpl; try contradiction.
    - rewrite (sorted_permutation _ _ Hl). apply same_discover_chapters.
    - congruence. }
  rewrite H.
  destruct (bind (os_listdir fs' (OsPath.join root name)) _) as [[|ch chs]|e];
    [apply IH| |reflexivity].
  destruct (_find_cover fs' (OsPath.join root name)); [|reflexivity].
  unfold add_manga.
  destruct (register_chapters _ _ (ch :: chs) cc) as [cc' db2].
  apply IH.
Qed.

End OrderIndependence.

(* ------------------------------------------------------------------ *)
(** ** Results of the page source and of the cover picker *)

Lemma range_test (i n : Z) : (0 <=? i) && (i <? n) = true -> 0 <= i < n.
Proof. intro H. apply andb_true_iff in H. lia. Qed.

(** X1.  [get_page_image] returns bytes only for an index that
    [get_page_count] counts: whenever it returns [Some] bytes at index [i],
    the count of the same path is returned and [0 <= i < count]. *)
Theorem served_page_is_counted (fs : filesystem) (p : string) (i : Z)
        (b : bytes) :
  comic_parser.get_page_image fs p i = Ret (Some b) ->
  exists n, comic_parser.get_page_count fs p = Ret n /\ 0 <= i < n.
Proof.
  unfold comic_parser.get_page_image, comic_parser.get_page_count.
  destruct (comic_parser.is_cbz_file fs p).
  - destruct (comic_parser.list_cbz_pages fs p) as [pages|e]; simpl;
      [|discriminate].
    destruct ((0 <=? i) && (i <? len pages)) eqn:Hr; [|discriminate].
    intros _. exists (len pages). split; [reflexivity | apply range_test, Hr].
  - destruct (os_path_isdir fs p); [|discriminate].
    destruct (comic_parser.list_folder_pages fs p) as [pages|e]; simpl;
      [|discriminate].
    destruct ((0 <=? i) && (i <? len pages)) eqn:Hr; [|discriminate].
    intros _. exists (len pages). split; [reflexivity | apply range_test, Hr].
Qed.

Lemma served_page_is_counted_witness :
  exists n,
    comic_parser.get_page_count (Disk.mount Scenario.library)
                                "/lib/Alpha/Chapter 01.cbz" = Ret n
    /\ 0 <= 1 < n.
Proof.
  apply (served_page_is_counted (Disk.mount Scenario.library)
                                "/lib/Alpha/Chapter 01.cbz" 1 [x32]).
  reflexivity.
Defined.

(** X2.  When the archive opens, [list_cbz_pages] returns, in ascending
    order of name, exactly the members that have an image extension and do
    not start with [__MACOSX], a name listed twice in the archive being
    listed twice; when opening raises, the same exception leaves
    [list_cbz_pages]. *)
Theorem list_cbz_pages_content (fs : filesystem) (p : string) :
  (forall z,
      zipfile_open fs p = Ret z ->
      exists pages,
        comic_parser.list_cbz_pages fs p = Ret pages
        /\ StronglySorted le_name pages
        /\ Permutation (filter is_page_member (namelist z)) pages
        /\ forall name,
            In name pages ->
            comic_parser.is_image_file name = true
            /\ PyStr.startswith name "__MACOSX" = false)
  /\ (forall e,
         zipfile_open fs p = Raise e ->
         comic_parser.list_cbz_pages fs p = Raise e).
Proof.
  unfold comic_parser.list_cbz_pages. split.
  - intros z ->. simpl. eexists. split; [reflexivity|].
    split; [apply sorted_ascending|]. split; [apply sorted_perm|].
    intros name Hin. apply sorted_In, filter_In in Hin.
    destruct Hin as [_ Hq]. apply andb_true_iff in Hq.
    rewrite negb_true_iff in Hq. exact Hq.
  - intros e ->. reflexivity.
Qed.

Lemma list_cbz_pages_content_witness :
  exists pages,
    comic_parser.list_cbz_pages (Disk.mount Scenario.library)
                                "/lib/Alpha/Chapter 01.cbz" = Ret pages
    /\ StronglySorted le_name pages
    /\ Permutation (filter is_page_member (namelist Scenario.chapter01))
                   pages
    /\ forall name,
        In name pages ->
        comic_parser.is_image_file name = true
        /\ PyStr.startswith name "__MACOSX" = false.
Proof.
  apply (proj1 (list_cbz_pages_content (Disk.mount Scenario.library)
                                       "/lib/Alpha/Chapter 01.cbz")).
  reflexivity.
Defined.

(** X3.  [list_folder_pages] answers the empty list for a path that is
    not a directory, without listing it; for a directory it returns, in
    ascending order, the paths [folder/f] of exactly the entries [f] with
    an image extension; an exception of [os.listdir] leaves it. *)
Theorem list_folder_pages_content (fs : filesystem) (p : string) :
  (os_path_isdir fs p = false ->
   comic_parser.list_folder_pages fs p = Ret [])
  /\ (forall names,
         os_path_isdir fs p = true ->
         os_listdir fs p = Ret names ->
         exists pages,
           comic_parser.list_folder_pages fs p = Ret pages
           /\ StronglySorted le_name pages
           /\ Permutation
                (map (OsPath.join p)
                     (filter comic_parser.is_image_file names))
                pages)
  /\ (forall e,
         os_path_isdir fs p = true ->
         os_listdir fs p = Raise e ->
         comic_parser.list_folder_pages fs p = Raise e).
Proof.
  unfold comic_parser.list_folder_pages. split; [|split].
  - intros ->. reflexivity.
  - intros names -> ->. simpl. eexists. split; [reflexivity|].
    split; [apply sorted_ascending | apply sorted_perm].
  - intros e -> ->. reflexivity.
Qed.

Lemma list_folder_pages_content_witness :
  comic_parser.list_folder_pages (Disk.mount Scenario.library)
                                 "/lib/Alpha/Chapter 01.cbz" = Ret []
  /\ exists pages,
      comic_parser.list_folder_pages (Disk.mount Scenario.folder_chapter)
                                     "/m/001" = Ret pages
      /\ StronglySorted le_name pages
      /\ Permutation
           (map (OsPath.join "/m/001")
                (filter comic_parser.is_image_file
                        ["b.png"; "notes.txt"; "a.jpg"]))
           pages.
Proof.
  split.
  - apply (proj1 (list_folder_pages_content
                    (Disk.mount Scenario.library)
                    "/lib/Alpha/Chapter 01.cbz")).
    reflexivity.
  - apply (proj1 (proj2 (list_folder_pages_content
                           (Disk.mount Scenario.folder_chapter) "/m/001")));
      reflexivity.
Defined.

Lemma NameToInfo_absent (l : list (string * outcome bytes)) (name : string) :
  ~ In name (map fst l) -> NameToInfo l name = None.
Proof.
  induction l as [|[n r] t IH]; simpl; intro H; [reflexivity|].
  rewrite IH by tauto.
  destruct (String.eqb_spec n name); [|reflexivity].
  exfalso. apply H. left. assumption.
Qed.

(** X4.  [extract_cbz_page] never lets [KeyError] or [BadZipFile] escape;
    it returns bytes exactly when the archive opens and reading the member
    yields them; and for a name that is not in the archive it returns
    [None]. *)
Theorem extract_cbz_page_outcomes (fs : filesystem) (p name : string) :
  comic_parser.extract_cbz_page fs p name <> Raise KeyError
  /\ comic_parser.extract_cbz_page fs p name <> Raise BadZipFile
  /\ (forall b,
         comic_parser.extract_cbz_page fs p name = Ret (Some b) <->
         exists z, zipfile_open fs p = Ret z /\ zip_read z name = Ret b)
  /\ (forall z,
         zipfile_open fs p = Ret z ->
         ~ In name (namelist z) ->
         comic_parser.extract_cbz_page fs p name = Ret None).
Proof.
  unfold comic_parser.extract_cbz_page.
  split; [|split; [|split]].
  - destruct (zipfile_open fs p) as [z|[]]; simpl; try discriminate.
    destruct (zip_read z name) as [b|[]]; discriminate.
  - destruct (zipfile_open fs p) as [z|[]]; simpl; try discriminate.
    destruct (zip_read z name) as [b|[]]; discriminate.
  - intro b. split.
    + destruct (zipfile_open fs p) as [z|[]]; simpl; try discriminate.
      destruct (zip_read z name) as [b'|[]] eqn:Hr; try discriminate.
      intro H. injection H as <-. eauto.
    + intros [z [-> Hr]]. simpl. rewrite Hr. reflexivity.
  - intros z -> Hn. simpl. unfold zip_read.
    rewrite NameToInfo_absent by exact Hn. reflexivity.
Qed.

Lemma extract_cbz_page_outcomes_witness :
  comic_parser.extract_cbz_page (Disk.mount Scenario.library)
                                "/lib/Alpha/Chapter 01.cbz" "p9.jpg"
  = Ret None.
Proof.
  apply (proj2 (proj2 (proj2 (extract_cbz_page_outcomes
                                (Disk.mount Scenario.library)
                                "/lib/Alpha/Chapter 01.cbz" "p9.jpg")))
               Scenario.chapter01 eq_refl).
  simpl. intros [H|[H|[H|[H|[]]]]]; discriminate H.
Defined.

(** X5.  [get_page_thumbnail] raises exactly when [get_page_image]
    raises, and then the same exception: the call that fetches the page
    stands outside the [try].  It returns thumbnail bytes exactly when the
    page bytes are found and decoding, resizing and encoding them all
    succeed. *)
Theorem thumbnail_outcomes
        (Image : Type) (Image_open : bytes -> outcome Image)
        (Image_thumbnail : Image -> Z * Z -> outcome Image)
        (Image_save_jpeg : Image -> Z -> outcome bytes)
        (fs : filesystem) (p : string) (i : Z) (max_size : Z * Z) :
  (forall e,
      get_page_thumbnail Image Image_open Image_thumbnail Image_save_jpeg
                         fs p i max_size = Raise e <->
      comic_parser.get_page_image fs p i = Raise e)
  /\ (forall b,
         get_page_thumbnail Image Image_open Image_thumbnail Image_save_jpeg
                            fs p i max_size = Ret (Some b) <->
         exists data,
           comic_parser.get_page_image fs p i = Ret (Some data)
           /\ render_thumbnail Image Image_open Image_thumbnail
                               Image_save_jpeg data max_size = Ret b).
Proof.
  unfold get_page_thumbnail.
  destruct (comic_parser.get_page_image fs p i) as [[data|]|e0]; simpl.
  - split.
    + intro e. destruct (render_thumbnail _ _ _ _ data max_size);
        split; discriminate.
    + intro b. split.
      * destruct (render_thumbnail _ _ _ _ data max_size) as [b'|] eqn:Hr;
          [|discriminate].
        intro H. injection H as <-. eauto.
      * intros [d [Hd Hr]]. injection Hd as <-. rewrite Hr. reflexivity.
  - split.
    + intro e. split; discriminate.
    + intro b. split; [discriminate|]. intros [d [Hd _]]. discriminate.
  - split.
    + intro e. tauto.
    + intro b. split; [discriminate|]. intros [d [Hd _]]. discriminate.
Qed.

Lemma thumbnail_outcomes_witness :
  get_page_thumbnail (Z * Z) Scenario.toy_open Scenario.toy_thumbnail
                     Scenario.toy_save
                     (Disk.mount Scenario.damaged_library)
                     "/lib/Alpha/Chapter 02.cbz" 0 (300, 400)
  = Raise BadZipFile
  /\ get_page_thumbnail (Z * Z) Scenario.toy_open Scenario.toy_thumbnail
                        Scenario.toy_save
                        (Disk.mount Scenario.folder_chapter) "/m/001" 0
                        (300, 400)
     = Ret (Some [xff; xd8]).
Proof.
  split.
  - apply (proj2 (proj1 (thumbnail_outcomes
                           (Z * Z) Scenario.toy_open Scenario.toy_thumbnail
                           Scenario.toy_save
                           (Disk.mount Scenario.damaged_library)
                           "/lib/Alpha/Chapter 02.cbz" 0 (300, 400))
                        BadZipFile)).
    reflexivity.
  - apply (proj2 (proj2 (thumbnail_outcomes
                           (Z * Z) Scenario.toy_open Scenario.toy_thumbnail
                           Scenario.toy_save
                           (Disk.mount Scenario.folder_chapter) "/m/001" 0
                           (300, 400))
                        [xff; xd8])).
    exists Scenario.jpeg. split; reflexivity.
Defined.

Section CoverResult.
Import scanner comic_parser.

Lemma first_match_some (test : string -> bool) (path : string)
      (files : list string) (p : string) :
  first_match test path files = Some p ->
  exists f, In f files /\ test f = true /\ p = OsPath.join path f.
Proof.
  induction files as [|x rest IH]; simpl; [discriminate|].
  destruct (test x) eqn:Hx.
  - intro H. injection H as <-. exists x. auto.
  - intro H. destruct (IH H) as (f & Hin & Hf & Hp). exists f. auto.
Qed.

Lemma first_match_none_iff (test : string -> bool) (path : string)
      (files : list string) :
  first_match test path files = None <->
  forall g, In g files -> test g = false.
Proof.
  split; [|apply first_match_none].
  induction files as [|x rest IH]; simpl; [tauto|].
  destruct (test x) eqn:Hx; [discriminate|].
  intros H g [<-|Hg]; [exact Hx | exact (IH H g Hg)].
Qed.

(** X6.  [_find_cover] answers [None] for a path that is not a directory.
    For a directory that lists, a cover it returns is always [path/f] for
    an entry [f] of the directory with an image extension; it returns
    [None] exactly when no entry has an image extension; and when some
    entry is a named cover, the cover returned is a named cover. *)
Theorem find_cover_result (fs : filesystem) (path : string) :
  (os_path_isdir fs path = false -> _find_cover fs path = Ret None)
  /\ (forall names,
         os_path_isdir fs path = true ->
         os_listdir fs path = Ret names ->
         (forall p,
             _find_cover fs path = Ret (Some p) ->
             exists f, p = OsPath.join path f /\ In f names
                       /\ is_image_file f = true)
         /\ (_find_cover fs path = Ret None <->
             forall g, In g names -> is_image_file g = false)
         /\ ((exists g, In g names /\ is_named_cover g = true) ->
             exists f, _find_cover fs path = Ret (Some (OsPath.join path f))
                       /\ In f names /\ is_named_cover f = true)).
Proof.
  unfold _find_cover. split.
  - intros ->. reflexivity.
  - intros names -> ->. simpl.
    destruct (first_match is_named_cover path (sorted names)) as [c|] eqn:Hc.
    + apply first_match_some in Hc. destruct Hc as (f & Hin & Hf & ->).
      apply (proj1 (sorted_In _ _)) in Hin.
      split; [|split].
      * intros p H. injection H as <-. exists f.
        split; [reflexivity|].
        split; [exact Hin | apply named_cover_is_image, Hf].
      * split; [discriminate|]. intro H.
        pose proof (named_cover_is_image f Hf) as Hi.
        rewrite (H f Hin) in Hi. discriminate.
      * intros _. exists f. split; [reflexivity|]. split; assumption.
    + rewrite first_match_none_iff in Hc.
      split; [|split].
      * intros p H. injection H as H. apply first_match_some in H.
        destruct H as (f & Hin & Hf & ->). apply (proj1 (sorted_In _ _)) in Hin.
        exists f. split; [reflexivity|]. split; assumption.
      * split.
        -- intro H. injection H as H. rewrite first_match_none_iff in H.
           intros g Hg. apply H. apply (proj2 (sorted_In _ _)). exact Hg.
        -- intro H. f_equal. apply first_match_none.
           intros g Hg. apply H. apply (proj1 (sorted_In _ _)). exact Hg.
      * intros (g & Hg & Hn). rewrite (Hc g) in Hn; [discriminate|].
        apply (proj2 (sorted_In _ _)). exact Hg.
Qed.

Lemma find_cover_result_witness :
  scanner._find_cover (Disk.mount Scenario.no_images) "/m" = Ret None
  /\ exists f,
      scanner._find_cover (Disk.mount Scenario.with_cover) "/m"
      = Ret (Some (OsPath.join "/m" f))
      /\ In f ["page_001.jpg"; "cover.jpg"]
      /\ scanner.is_named_cover f = true.
Proof.
  split.
  - apply (proj2 (proj1 (proj2 (proj2 (find_cover_result
             (Disk.mount Scenario.no_images) "/m")
             ["notes.txt"; "Chapter 01.cbz"] eq_refl eq_refl)))).
    intros g [<-|[<-|[]]]; reflexivity.
  - apply (proj2 (proj2 (proj2 (find_cover_result
             (Disk.mount Scenario.with_cover) "/m")
             ["page_001.jpg"; "cover.jpg"] eq_refl eq_refl))).
    exists "cover.jpg". split; [simpl; tauto | reflexivity].
Defined.

End CoverResult.

(* ------------------------------------------------------------------ *)
(** ** Rows inserted by a scan *)

Lemma ids_from_nil (s : Z) : ids_from s 0 = [].
Proof. reflexivity. Qed.

Lemma ids_from_cons (s : Z) (n : nat) :
  ids_from s (S n) = s :: ids_from (s + 1) n.
Proof.
  unfold ids_from. simpl. f_equal; [lia|].
  rewrite <- seq_shift, map_map. apply map_ext. intro k. lia.
Qed.

Lemma ids_from_app (s : Z) (a b : nat) :
  ids_from s (a + b) = (ids_from s a ++ ids_from (s + Z.of_nat a) b)%list.
Proof.
  revert s. induction a as [|a IH]; intro s.
  - simpl. rewrite Z.add_0_r. reflexivity.
  - change (S a + b)%nat with (S (a + b)).
    rewrite !ids_from_cons, IH, <- app_comm_cons.
    do 3 f_equal. lia.
Qed.

Section Rows.
Import scanner comic_parser.
Variable fs : filesystem.

Lemma register_chapters_ids (chs : list chapter) :
  forall db mid cc,
  exists rows,
    snd (register_chapters db mid chs cc)
    = mkDb (mangas db) (chapters db ++ rows)%list (mangas_seq db)
           (chapters_seq db + len chs)
    /\ Forall2 (row_of mid) chs rows
    /\ map c_id rows = ids_from (chapters_seq db + 1) (length chs).
Proof.
  induction chs as [|ch rest IH]; intros db mid cc; simpl.
  - exists []. unfold len. simpl. rewrite app_nil_r, Z.add_0_r.
    destruct db; repeat split; constructor.
  - destruct (IH (snd (add_chapter db mid (number ch) (path ch) (title ch)
                                   (page_count ch)))
                 mid (cc + 1))
      as (rows & Hdb & Hrows & Hids).
    simpl in Hdb, Hids.
    eexists (_ :: rows). split; [|split].
    + rewrite Hdb. unfold len. simpl length. rewrite <- app_assoc. simpl.
      f_equal. lia.
    + constructor; [|exact Hrows]. repeat split.
    + simpl. rewrite ids_from_cons, Hids. reflexivity.
Qed.

Lemma discover_paths (d : string) (all : list string) (entries : list string) :
  forall acc chs,
    incl entries all ->
    Forall (fun ch => exists e, In e all /\ path ch = OsPath.join d e) acc ->
    discover_chapters fs d entries acc = Ret chs ->
    Forall (fun ch => exists e, In e all /\ path ch = OsPath.join d e) chs.
Proof.
  induction entries as [|e rest IH]; intros acc chs Hincl Hacc; simpl.
  - intro H. injection H as <-. exact Hacc.
  - assert (He : In e all) by (apply Hincl; left; reflexivity).
    assert (Hrest : incl rest all).
    { intros x Hx. apply Hincl. right. exact Hx. }
    destruct (is_cbz_file fs (OsPath.join d e)).
    + destruct (get_page_count fs (OsPath.join d e)); simpl; [|discriminate].
      apply IH; [exact Hrest|]. apply Forall_app. split; [exact Hacc|].
      constructor; [|constructor]. exists e. auto.
    + destruct (os_path_isdir fs (OsPath.join d e)); [|apply IH; assumption].
      destruct (get_page_count fs (OsPath.join d e)) as [n|]; simpl;
        [|discriminate].
      destruct (n >? 0); [|apply IH; assumption].
      apply IH; [exact Hrest|]. apply Forall_app. split; [exact Hacc|].
      constructor; [|constructor]. exists e. auto.
Qed.

Lemma inserted_nothing sid root names db : inserted fs sid root names db db.
Proof.
  exists [], []. rewrite !app_nil_r. unfold len. simpl.
  rewrite !Z.add_0_r. repeat split; constructor.
Qed.

Lemma inserted_more_names sid root name names db db' :
  inserted fs sid root names db db' ->
  inserted fs sid root (name :: names) db db'.
Proof.
  intros (new_m & new_c & Hm & Hc & Hmi & Hms & Hci & Hcs & Hsrc & Hlev).
  exists new_m, new_c. repeat (split; [assumption|]). split.
  - eapply Forall_impl; [|exact Hsrc]. simpl. intros m (H1 & H2 & H3). auto.
  - eapply Forall_impl; [|exact Hlev].
    intros c (m & e & entries & H1 & H2 & H3 & H4). 
    exists m, e, entries. simpl. tauto.
Qed.

Lemma rows_two_levels (root : string) (names : list string) (name : string)
      (entries : list string) (new_m : list manga_row) (row : manga_row)
      (mid : Z) (chs : list chapter) (rows : list chapter_row) :
  m_id row = mid ->
  m_title row = name ->
  In name names ->
  os_listdir fs (OsPath.join root name) = Ret entries ->
  Forall2 (row_of mid) chs rows ->
  Forall (fun ch => exists e, In e entries
                    /\ path ch = OsPath.join (OsPath.join root name) e)
         chs ->
  Forall (two_levels_below fs root names (row :: new_m)) rows.
Proof.
  intros Hid Htitle Hname Hl Hrows.
  induction Hrows as [|ch r chs rows Hr _ IHr]; intro Hpaths;
    [constructor|].
  inversion Hpaths as [|? ? (e & He & Hp) Hrest]; subst.
  constructor; [|apply IHr; exact Hrest].
  destruct Hr as (Hmid & _ & _ & Hpath & _).
  exists row, e, entries.
  split; [left; reflexivity|]. split; [exact Hmid|].
  split; [exact Hname|]. split; [exact Hl|]. split; [exact He|].
  rewrite Hpath. exact Hp.
Qed.

Lemma scan_mangas_inserted (sid : Z) (root : string) (names : list string) :
  forall db mc cc,
    inserted fs sid root names db
             (snd (scan_mangas fs sid root names db mc cc)).
Proof.
  induction names as [|name rest IH]; intros db mc cc; simpl.
  - apply inserted_nothing.
  - destruct (os_path_isdir fs (OsPath.join root name)) eqn:Hd; simpl;
      [|apply inserted_more_names, IH].
    destruct (os_listdir fs (OsPath.join root name)) as [entries|e] eqn:Hl;
      simpl; [|apply inserted_nothing].
    destruct (discover_chapters fs (OsPath.join root name) (sorted entries) [])
      as [chs|e] eqn:Hdisc; [|apply inserted_nothing].
    destruct chs as [|ch chs']; [apply inserted_more_names, IH|].
    destruct (_find_cover fs (OsPath.join root name)) as [cover|e];
      [|apply inserted_nothing].
    remember (ch :: chs') as chs eqn:Echs. clear Echs ch chs'.
    unfold add_manga.
    set (row := mkManga _ _ _ _ _).
    set (db1 := mkDb _ _ _ _).
    destruct (register_chapters_ids chs db1 (mangas_seq db + 1) cc)
      as (rows & Hdb2 & Hrows & Hids).
    destruct (register_chapters db1 (mangas_seq db + 1) chs cc)
      as [cc' db2] eqn:Hreg.
    simpl in Hdb2. subst db2.
    set (db2 := mkDb _ _ _ _).
    destruct (IH db2 (mc + 1) cc')
      as (new_m & new_c & Hm & Hc & Hmi & Hms & Hci & Hcs & Hsrc & Hlev).
    assert (Hlen : length rows = length chs).
    { symmetry. eapply Forall2_length. exact Hrows. }
    assert (Hpaths :
              Forall (fun ch =>
                        exists e,
                          In e entries
                          /\ path ch
                             = OsPath.join (OsPath.join root name) e) chs).
    { eapply (discover_paths _ entries); [|constructor|exact Hdisc].
      intros x Hx. apply (proj1 (sorted_In _ _)). exact Hx. }
    exists (row :: new_m), (rows ++ new_c)%list.
    rewrite Hm, Hc, Hms, Hcs. simpl mangas. simpl chapters.
    simpl mangas_seq. simpl chapters_seq.
    rewrite <- !app_assoc. simpl.
    split; [reflexivity|]. split; [reflexivity|].
    split; [rewrite ids_from_cons, Hmi; reflexivity|].
    split; [unfold len; simpl length; lia|].
    split.
    { rewrite map_app, length_app, ids_from_app, Hci, Hids, Hlen.
      simpl chapters_seq. unfold len. do 2 f_equal. lia. }
    split; [unfold len; rewrite length_app, Hlen; lia|].
    split.
    { constructor; [simpl; auto|].
      eapply Forall_impl; [|exact Hsrc]. simpl. intros m (H1 & H2 & H3). auto. }
    apply Forall_app. split.
    + eapply (rows_two_levels root (name :: rest) name entries new_m row
                              (mangas_seq db + 1) chs rows);
        try reflexivity; try assumption.
      left. reflexivity.
    + eapply Forall_impl; [|exact Hlev].
      intros c (m & e & entries' & H1 & H2 & H3 & H4).
      exists m, e, entries'. simpl. tauto.
Qed.

End Rows.

Section Repeat.
Import scanner comic_parser.
Variable fs : filesystem.

Lemma total_of_at_least (ms : list manga_row) :
  Forall (fun m => 1 <= m_total_chapters m) ms -> len ms <= total_of ms.
Proof.
  induction 1 as [|m ms Hm _ IH]; unfold len in *; simpl; [lia|].
  fold (total_of ms). lia.
Qed.

End Repeat.

(* ------------------------------------------------------------------ *)
(** ** The order of [os.listdir] does not matter *)

Lemma reversed_listing_same (fs : filesystem) :
  same_up_to_listing_order fs (reversed_listing fs).
Proof.
  repeat split. intro p. unfold same_listing. simpl.
  destruct (os_listdir fs p); simpl; [apply Permutation_rev | reflexivity].
Qed.

(** X7.  The page source does not depend on the order in which
    [os.listdir] enumerates a directory: on two file systems that differ
    only in that order, [list_folder_pages], [get_page_count] and
    [get_page_image] give the same results for every path and index. *)
Theorem page_source_ignores_listing_order (fs fs' : filesystem) :
  same_up_to_listing_order fs fs' ->
  forall p,
    comic_parser.list_folder_pages fs p
    = comic_parser.list_folder_pages fs' p
    /\ comic_parser.get_page_count fs p = comic_parser.get_page_count fs' p
    /\ forall i,
        comic_parser.get_page_image fs p i
        = comic_parser.get_page_image fs' p i.
Proof.
  intros Hsame p. split; [|split].
  - apply same_list_folder_pages, Hsame.
  - apply same_get_page_count, Hsame.
  - intro i. apply same_get_page_image, Hsame.
Qed.

Lemma page_source_ignores_listing_order_witness :
  comic_parser.get_page_image
    (reversed_listing (Disk.mount Scenario.folder_chapter)) "/m/001" 0
  = Ret (Some Scenario.jpeg).
Proof.
  rewrite <- (proj2 (proj2 (page_source_ignores_listing_order
                              (Disk.mount Scenario.folder_chapter)
                              (reversed_listing
                                 (Disk.mount Scenario.folder_chapter))
                              (reversed_listing_same _) "/m/001")) 0).
  reflexivity.
Defined.

(** X8.  A scan does not depend on the order in which [os.listdir]
    enumerates directories: on two file systems that differ only in that
    order, [scan_source] returns the same outcome and leaves the same
    tables, row for row, and [_find_cover] picks the same cover. *)
Theorem scan_source_ignores_listing_order (fs fs' : filesystem) :
  same_up_to_listing_order fs fs' ->
  (forall db sid root,
      scanner.scan_source fs db sid root
      = scanner.scan_source fs' db sid root)
  /\ (forall p, scanner._find_cover fs p = scanner._find_cover fs' p).
Proof.
  intro Hsame. split.
  - intros db sid root. unfold scanner.scan_source.
    rewrite (same_isdir fs fs' Hsame).
    destruct (negb (os_path_isdir fs' root)); [reflexivity|].
    destruct Hsame as (H1 & H2 & H3 & H4 & H5 & Hl).
    pose proof (Hl root) as Hroot. unfold same_listing in Hroot.
    destruct (os_listdir fs root), (os_listdir fs' root);
      try contradiction.
    + rewrite (sorted_permutation _ _ Hroot).
      apply same_scan_mangas. repeat split; assumption.
    + congruence.
  - intro p. apply same_find_cover, Hsame.
Qed.

Lemma scan_source_ignores_listing_order_witness :
  scanner.scan_source (reversed_listing (Disk.mount Scenario.library))
                      Disk.empty_db 1 "/lib"
  = scanner.scan_source (Disk.mount Scenario.library) Disk.empty_db 1 "/lib".
Proof.
  symmetry.
  apply (proj1 (scan_source_ignores_listing_order
                  (Disk.mount Scenario.library)
                  (reversed_listing (Disk.mount Scenario.library))
                  (reversed_listing_same _))).
Defined.

(* ------------------------------------------------------------------ *)
(** ** Identifiers, references and paths of the inserted rows *)

Lemma inserted_names_incl (fs : filesystem) (sid : Z) (root : string)
      (names names' : list string) (db db' : DatabaseManager) :
  (forall x, In x names -> In x names') ->
  inserted fs sid root names db db' ->
  inserted fs sid root names' db db'.
Proof.
  intros Hincl
         (new_m & new_c & Hm & Hc & Hmi & Hms & Hci & Hcs & Hsrc & Hlev).
  exists new_m, new_c. repeat (split; [assumption|]). split.
  - eapply Forall_impl; [|exact Hsrc]. simpl. intros m (H1 & H2 & H3). auto.
  - eapply Forall_impl; [|exact Hlev].
    intros c (m & e & entries & H1 & H2 & H3 & H4).
    exists m, e, entries. auto.
Qed.

(** X9.  The rows a scan inserts.  When the root is not a directory or
    cannot be listed, the tables are left as they were.  Otherwise the scan
    only appends rows: the new manga rows and the new chapter rows take
    the next identifiers of their tables, consecutively; every new manga
    row carries the scanned source id and is titled after a directory of
    the root; and every new chapter row refers to one of the new manga
    rows and has the path [root/title/e] of an entry [e] of that manga's
    directory, two levels below the root and never deeper. *)
Theorem scan_source_rows (fs : filesystem) (db : DatabaseManager) (sid : Z)
        (root : string) :
  (os_path_isdir fs root = false ->
   snd (scanner.scan_source fs db sid root) = db)
  /\ (forall e,
         os_listdir fs root = Raise e ->
         snd (scanner.scan_source fs db sid root) = db)
  /\ (forall names,
         os_path_isdir fs root = true ->
         os_listdir fs root = Ret names ->
         inserted fs sid root names db
                  (snd (scanner.scan_source fs db sid root))).
Proof.
  unfold scanner.scan_source. split; [|split].
  - intros ->. reflexivity.
  - intros e ->. destruct (negb (os_path_isdir fs root)); reflexivity.
  - intros names -> ->. simpl.
    apply (inserted_names_incl fs sid root (sorted names) names).
    + intros x Hx. apply (proj1 (sorted_In _ _)). exact Hx.
    + apply scan_mangas_inserted.
Qed.

Lemma scan_source_rows_witness :
  inserted (Disk.mount Scenario.library) 1 "/lib" ["Beta"; "Alpha"]
           Disk.empty_db
           (snd (scanner.scan_source (Disk.mount Scenario.library)
                                     Disk.empty_db 1 "/lib")).
Proof.
  apply (proj2 (proj2 (scan_source_rows (Disk.mount Scenario.library)
                                        Disk.empty_db 1 "/lib")));
    reflexivity.
Defined.

(* ------------------------------------------------------------------ *)
(** ** Scanning again *)

Section Counts.
Import scanner comic_parser.


Variable fs : filesystem.
Variables S1 S2 : Type.
Variable add_manga1 : S1 -> string -> Z -> string -> Z -> outcome Z * S1.
Variable add_chapter1 :
  S1 -> Z -> Q -> string -> string -> Z -> outcome Z * S1.
Variable add_manga2 : S2 -> string -> Z -> string -> Z -> outcome Z * S2.
Variable add_chapter2 :
  S2 -> Z -> Q -> string -> string -> Z -> outcome Z * S2.


End Counts.



(** X11.  The counts a scan returns are ordered: there are never more
    mangas than chapters, and neither count is negative. *)
Theorem scan_source_counts_ordered (fs : filesystem) (db : DatabaseManager)
        (sid : Z) (root : string) (s : scanner.summary) :
  fst (scanner.scan_source fs db sid root) = Ret s ->
  0 <= scanner.s_mangas s <= scanner.s_chapters s.
Proof.
  intro Hs.
  assert (He : emitted fs db (snd (scanner.scan_source fs db sid root))
                       (fst (scanner.scan_source fs db sid root)) 0 0).
  { unfold scanner.scan_source.
    destruct (negb (os_path_isdir fs root)).
    - apply emitted_nothing. intros s' H. injection H as <-. reflexivity.
    - destruct (os_listdir fs root) as [names|e].
      + apply scan_mangas_emitted.
      + apply emitted_nothing. discriminate. }
  destruct He as (new_m & new_c & _ & _ & Htot & _ & Hsum & Hret).
  destruct (Hret s Hs) as [Hm Hc].
  pose proof (total_of_at_least new_m Htot) as Hle.
  rewrite Hm, Hc, <- Hsum. unfold len in *. lia.
Qed.

Lemma scan_source_counts_ordered_witness :
  0 <= 1 <= 2.
Proof.
  apply (scan_source_counts_ordered (Disk.mount Scenario.library)
                                    Disk.empty_db 1 "/lib"
                                    (scanner.mkSummary 1 2)).
  reflexivity.
Defined.

(* ------------------------------------------------------------------ *)
(** ** The chapter number and the file extension *)

Section Suffix.
Import HeuristicSpec.

Lemma append_empty (s : string) : s ++ "" = s.
Proof. induction s; simpl; congruence. Qed.

Lemma take_while_stop (p : ascii -> bool) (s : string) (c : ascii)
      (r : string) :
  p c = false -> take_while p (s ++ String c r) = take_while p s.
Proof.
  intro Hc. induction s as [|a s IH]; simpl.
  - rewrite Hc. reflexivity.
  - destruct (p a); [f_equal; exact IH | reflexivity].
Qed.

Lemma drop_while_stop (p : ascii -> bool) (s : string) (c : ascii)
      (r : string) :
  p c = false ->
  drop_while p (s ++ String c r) = drop_while p s ++ String c r.
Proof.
  intro Hc. induction s as [|a s IH]; simpl.
  - rewrite Hc. reflexivity.
  - destruct (p a); [exact IH | reflexivity].
Qed.

Lemma drop_while_app (p : ascii -> bool) (s x : string) :
  drop_while p (s ++ x)
  = match drop_while p s with
    | EmptyString => drop_while p x
    | String c u => String c u ++ x
    end.
Proof.
  induction s as [|a s IH]; simpl; [reflexivity|].
  destruct (p a); [exact IH | reflexivity].
Qed.

Lemma dot_not_digit : re.digit "." = false.
Proof. reflexivity. Qed.

(** A numeric token does not change when the text goes on with a dot that
    no digit follows. *)
Lemma numeric_token_app (s : string) (c : ascii) (r : string) :
  re.digit c = false ->
  numeric_token (s ++ String "." (String c r)) = numeric_token s.
Proof.
  intro Hc. unfold numeric_token.
  rewrite (take_while_stop re.digit s "." _ dot_not_digit).
  rewrite (drop_while_stop re.digit s "." _ dot_not_digit).
  destruct (take_while re.digit s) as [|a ip]; [reflexivity|].
  destruct (drop_while re.digit s) as [|d u]; simpl.
  - rewrite Hc. reflexivity.
  - destruct (Ascii.eqb d "."); [|reflexivity].
    rewrite (take_while_stop re.digit u "." _ dot_not_digit). reflexivity.
Qed.

Lemma lit_ci_app_some (w s t x : string) :
  re.lit_ci w s = Some t -> re.lit_ci w (s ++ x) = Some (t ++ x).
Proof.
  revert s. induction w as [|a w IH]; intros s; simpl.
  - intro H. injection H as <-. reflexivity.
  - destruct s as [|c s]; simpl; [discriminate|].
    destruct (Ascii.eqb (PyStr.lower_char c) (PyStr.lower_char a));
      [apply IH | discriminate].
Qed.


Lemma lit_ci_app_none (w s r : string) :
  dotless w = true ->
  re.lit_ci w s = None -> re.lit_ci w (s ++ String "." r) = None.
Proof.
  revert s. induction w as [|a w IH]; intros s Hw; simpl.
  - discriminate.
  - simpl in Hw. apply andb_true_iff in Hw. destruct Hw as [Ha Hw].
    destruct s as [|c s]; simpl.
    + intros _. apply negb_true_iff in Ha. rewrite Ha. reflexivity.
    + destruct (Ascii.eqb (PyStr.lower_char c) (PyStr.lower_char a));
        [apply IH; exact Hw | reflexivity].
Qed.

Variable x : string.
Variable c1 : ascii.
Variable r : string.
Hypothesis Hx : x = String "." (String c1 r).
Hypothesis Hc1 : re.digit c1 = false.
Hypothesis Hsep : numeric_token (drop_while scanner.separator x) = None.
Hypothesis Hfind : find_marker scanner.separator x = None.

Lemma numeric_token_suffix (s : string) :
  numeric_token (s ++ x) = numeric_token s.
Proof. rewrite Hx. apply numeric_token_app, Hc1. Qed.

Lemma after_separators_suffix (s : string) :
  numeric_token (drop_while scanner.separator (s ++ x))
  = numeric_token (drop_while scanner.separator s).
Proof.
  rewrite drop_while_app.
  destruct (drop_while scanner.separator s) as [|c u];
    [exact Hsep | apply numeric_token_suffix].
Qed.

Lemma marker_at_suffix (s : string) :
  marker_at scanner.separator (s ++ x) = marker_at scanner.separator s.
Proof.
  unfold marker_at.
  destruct (re.lit_ci "ch" s) as [s1|] eqn:Hch.
  - rewrite (lit_ci_app_some _ _ _ x Hch).
    destruct (re.lit_ci "apter" s1) as [t|] eqn:Ha.
    + rewrite (lit_ci_app_some _ _ _ x Ha). apply after_separators_suffix.
    + rewrite Hx, (lit_ci_app_none "apter" s1 _ eq_refl Ha), <- Hx.
      apply after_separators_suffix.
  - rewrite Hx, (lit_ci_app_none "ch" s _ eq_refl Hch). reflexivity.
Qed.

Lemma find_marker_suffix (s : string) :
  find_marker scanner.separator (s ++ x) = find_marker scanner.separator s.
Proof.
  induction s as [|a s IH].
  - simpl. rewrite Hfind. reflexivity.
  - change (String a s ++ x) with (String a (s ++ x)).
    cbn [find_marker].
    change (String a (s ++ x)) with (String a s ++ x).
    rewrite marker_at_suffix, IH. reflexivity.
Qed.

End Suffix.

Section Extension.
Import HeuristicSpec.

Lemma lower_char_inv (c a : ascii) :
  PyStr.lower_char c = a ->
  c = a \/ c = ascii_of_N (N_of_ascii a - 32).
Proof.
  intros <-.
  destruct c as [[] [] [] [] [] [] [] []];
    first [left; reflexivity | right; reflexivity].
Qed.


Lemma archive_extension_shape (x : string) :
  archive_extension x ->
  exists c1 c2 c3,
    x = String "." (String c1 (String c2 (String c3 "")))
    /\ re.digit c1 = false
    /\ numeric_token (drop_while scanner.separator x) = None
    /\ find_marker scanner.separator x = None
    /\ Ascii.eqb c1 "." = false /\ Ascii.eqb c2 "." = false
    /\ Ascii.eqb c3 "." = false
    /\ Ascii.eqb c1 "/" = false /\ Ascii.eqb c2 "/" = false
    /\ Ascii.eqb c3 "/" = false.
Proof.
  intros [H|H];
    destruct x as [|c0 [|c1 [|c2 [|c3 [|c4 x]]]]]; try discriminate H;
    simpl in H; injection H as H0 H1 H2 H3;
    exists c1, c2, c3;
    destruct (lower_char_inv _ _ H0) as [->| ->];
    try (vm_compute in H0; discriminate H0);
    destruct (lower_char_inv _ _ H1) as [->| ->];
    destruct (lower_char_inv _ _ H2) as [->| ->];
    destruct (lower_char_inv _ _ H3) as [->| ->];
    repeat split; reflexivity.
Qed.

End Extension.

Section Splitext.
Import PyStr.

Lemma rfind_from_app (c : ascii) (a b : string) :
  forall i last,
    rfind_from c (a ++ b) i last
    = rfind_from c b (i + Z.of_nat (String.length a)) (rfind_from c a i last).
Proof.
  induction a as [|d a IH]; intros i last.
  - simpl. rewrite Z.add_0_r. reflexivity.
  - cbn [append rfind_from String.length]. rewrite IH. f_equal. lia.
Qed.

Lemma rfind_from_range (c : ascii) (s : string) :
  forall i last,
    rfind_from c s i last = last
    \/ i <= rfind_from c s i last < i + Z.of_nat (String.length s).
Proof.
  induction s as [|d s IH]; intros i last.
  - left. reflexivity.
  - cbn [rfind_from String.length].
    destruct (IH (i + 1) (if Ascii.eqb d c then i else last)) as [H|H].
    + rewrite H. destruct (Ascii.eqb d c); [right; lia | left; reflexivity].
    + right. lia.
Qed.

Lemma substring_all (s : string) : substring 0 (String.length s) s = s.
Proof. induction s as [|c s IH]; simpl; [reflexivity | f_equal; exact IH]. Qed.

Lemma substring_skip (a x : string) (m : nat) :
  substring (String.length a) m (a ++ x) = substring 0 m x.
Proof. induction a as [|c a IH]; simpl; [reflexivity | exact IH]. Qed.

Lemma slice_to_app (a x : string) :
  slice_to (a ++ x) (Z.of_nat (String.length a)) = a.
Proof. unfold slice_to. rewrite Nat2Z.id. apply substring_prefix. Qed.

Lemma slice_from_app (a x : string) :
  slice_from (a ++ x) (Z.of_nat (String.length a)) = x.
Proof.
  unfold slice_from. rewrite Nat2Z.id, substring_skip, length_append.
  replace (String.length a + String.length x - String.length a)%nat
    with (String.length x) by lia.
  apply substring_all.
Qed.

(** [os.path.splitext] of a name that ends in a dot and three characters
    that are neither dots nor slashes: the stem is what stands before, or
    the whole name when only dots stand before. *)
Lemma splitext_three (a : string) (c1 c2 c3 : ascii) :
  Ascii.eqb c1 "." = false -> Ascii.eqb c2 "." = false ->
  Ascii.eqb c3 "." = false ->
  Ascii.eqb c1 "/" = false -> Ascii.eqb c2 "/" = false ->
  Ascii.eqb c3 "/" = false ->
  let x := String "." (String c1 (String c2 (String c3 ""))) in
  OsPath.splitext (a ++ x) = (a, x)
  \/ OsPath.splitext (a ++ x) = (a ++ x, "").
Proof.
  intros D1 D2 D3 S1 S2 S3 x. unfold OsPath.splitext, rfind.
  rewrite !rfind_from_app. unfold x. cbn [rfind_from].
  rewrite D1, D2, D3, S1, S2, S3. simpl Ascii.eqb.
  rewrite Z.add_0_l.
  destruct (_ <? _); [|right; reflexivity].
  destruct (OsPath.has_non_dot _ _ _); [|right; reflexivity].
  left. fold x. rewrite slice_to_app, slice_from_app. reflexivity.
Qed.

Lemma length_lower (s : string) : String.length (lower s) = String.length s.
Proof. induction s; simpl; congruence. Qed.

Lemma substring_lower (s : string) :
  forall n m, substring n m (lower s) = lower (substring n m s).
Proof.
  induction s as [|c s IH]; intros [|n] [|m]; simpl; try reflexivity.
  - f_equal. apply IH.
  - apply IH.
  - apply IH.
Qed.

Lemma substring_split (s : string) :
  forall n m,
    (n + m = String.length s)%nat ->
    s = substring 0 n s ++ substring n m s.
Proof.
  induction s as [|c s IH]; intros n m H; simpl in H.
  - destruct n, m; try discriminate. reflexivity.
  - destruct n as [|n].
    + simpl in H. subst m. simpl. f_equal. symmetry. apply substring_all.
    + simpl. f_equal. apply IH. lia.
Qed.

Lemma endswith_split (e suf : string) :
  endswith (lower e) suf = true ->
  exists a x, e = a ++ x /\ lower x = suf.
Proof.
  unfold endswith. rewrite length_lower, andb_true_iff.
  intros [Hlen Heq]. apply Nat.leb_le in Hlen. apply String.eqb_eq in Heq.
  exists (substring 0 (String.length e - String.length suf) e),
         (substring (String.length e - String.length suf)
                    (String.length suf) e).
  split.
  - apply substring_split. lia.
  - rewrite <- substring_lower. exact Heq.
Qed.

End Splitext.

Lemma extract_as_rules (name : string) :
  scanner._extract_chapter_number name
  = HeuristicSpec.extractNumber scanner.separator name.
Proof.
  unfold scanner._extract_chapter_number, HeuristicSpec.extractNumber.
  rewrite search_chapter_pattern, number_group_token.
  destruct (HeuristicSpec.find_marker scanner.separator name);
    [reflexivity|].
  destruct (HeuristicSpec.numeric_token name); reflexivity.
Qed.

Lemma archive_number_of_title (e : string) :
  PyStr.endswith (PyStr.lower e) ".cbz"
  || PyStr.endswith (PyStr.lower e) ".zip" = true ->
  scanner._extract_chapter_number e
  = scanner._extract_chapter_number (fst (OsPath.splitext e)).
Proof.
  intro H.
  assert (Hx : exists a x, e = a ++ x /\ archive_extension x).
  { apply orb_true_iff in H. destruct H as [H|H];
      apply endswith_split in H; destruct H as (a & x & He & Hl);
      exists a, x; (split; [exact He|]); [left | right]; exact Hl. }
  destruct Hx as (a & x & -> & Hext).
  destruct (archive_extension_shape x Hext)
    as (c1 & c2 & c3 & Hx & Hd & Htok & Hfind & D1 & D2 & D3 & S1 & S2 & S3).
  destruct (splitext_three a c1 c2 c3 D1 D2 D3 S1 S2 S3) as [Hs|Hs];
    rewrite <- Hx in Hs; rewrite Hs; simpl fst; [|reflexivity].
  rewrite !extract_as_rules. unfold HeuristicSpec.extractNumber.
  rewrite (find_marker_suffix x c1 _ Hx Hd Htok Hfind a).
  rewrite (numeric_token_suffix x c1 _ Hx Hd a).
  reflexivity.
Qed.

Section JoinSuffix.
Import PyStr.

Lemma append_split (a b c d : string) :
  a ++ b = c ++ d ->
  (exists m, a = c ++ m /\ d = m ++ b)
  \/ (exists m, c = a ++ m /\ b = m ++ d).
Proof.
  revert c. induction a as [|x a IH]; intros c H.
  - right. exists c. split; [reflexivity | exact H].
  - destruct c as [|y c].
    + left. exists (String x a). split; [reflexivity|]. symmetry. exact H.
    + simpl in H. injection H as -> H.
      destruct (IH c H) as [(m & -> & ->)|(m & -> & ->)];
        [left | right]; exists m; split; reflexivity.
Qed.


Lemma has_slash_app (a b : string) :
  has_slash (a ++ b) = has_slash a || has_slash b.
Proof.
  induction a as [|c a IH]; simpl; [reflexivity|].
  rewrite IH, orb_assoc. reflexivity.
Qed.

Lemma endswith_exact (s suf : string) :
  endswith s suf = true -> exists a, s = a ++ suf.
Proof.
  unfold endswith. rewrite andb_true_iff. intros [Hlen Heq].
  apply Nat.leb_le in Hlen. apply String.eqb_eq in Heq.
  exists (substring 0 (String.length s - String.length suf) s).
  pose proof (substring_split s (String.length s - String.length suf)
                              (String.length suf)) as H.
  rewrite Heq in H. apply H. lia.
Qed.

Lemma endswith_app (a x : string) : endswith (a ++ x) x = true.
Proof.
  unfold endswith. rewrite length_append. apply andb_true_iff. split.
  - apply Nat.leb_le. lia.
  - replace (String.length a + String.length x - String.length x)%nat
      with (String.length a) by lia.
    rewrite substring_skip, substring_all. apply String.eqb_refl.
Qed.

Lemma lower_app (a b : string) : lower (a ++ b) = lower a ++ lower b.
Proof. induction a; simpl; congruence. Qed.

Lemma tail_of_slash (s a m : string) :
  s ++ "/" = a ++ m -> m = "" \/ has_slash m = true.
Proof.
  intro H. destruct (append_split _ _ _ _ H) as [(k & Hs & Hm)|(k & Ha & Hm)].
  - right. subst m. rewrite has_slash_app. simpl. apply orb_true_r.
  - destruct k as [|c k].
    + right. simpl in Hm. subst m. reflexivity.
    + simpl in Hm. injection Hm as _ Hm.
      destruct k; [|discriminate]. simpl in Hm. left. symmetry. exact Hm.
Qed.

(** A suffix without a slash of [d' ++ e], where [d'] is empty or ends
    with a slash, is a suffix of [e]. *)
Lemma suffix_after_slash (d' e a x : string) :
  d' = "" \/ (exists d'', d' = d'' ++ "/") ->
  has_slash x = false ->
  d' ++ e = a ++ x ->
  exists a', e = a' ++ x.
Proof.
  intros Hd Hx H. destruct Hd as [->|[d'' ->]].
  - exists a. exact H.
  - destruct (append_split _ _ _ _ H) as [(m & Hm & Hxm)|(m & Ha & He)].
    + destruct (tail_of_slash _ _ _ Hm) as [->|Hs].
      * exists "". exact (eq_sym Hxm).
      * subst x. rewrite has_slash_app, Hs in Hx. discriminate.
    + exists m. exact He.
Qed.

(** The extension test of [is_cbz_file] on [join d e] is a test on the
    entry [e]. *)
Lemma join_archive_suffix (d e : string) :
  endswith (lower (OsPath.join d e)) ".cbz"
  || endswith (lower (OsPath.join d e)) ".zip" = true ->
  endswith (lower e) ".cbz" || endswith (lower e) ".zip" = true.
Proof.
  intro H.
  assert (Hj : OsPath.join d e = e
               \/ exists d', (d' = "" \/ exists d'', d' = d'' ++ "/")
                             /\ OsPath.join d e = d' ++ e).
  { unfold OsPath.join. destruct (startswith e "/"); [left; reflexivity|].
    right. destruct (String.eqb_spec d "").
    - subst d. exists "". split; [left; reflexivity | reflexivity].
    - simpl. destruct (endswith d "/") eqn:Hd.
      + exists d. split; [|reflexivity]. right. apply endswith_exact, Hd.
      + exists (d ++ "/"). split; [right; exists d; reflexivity|].
        rewrite append_assoc. reflexivity. }
  destruct Hj as [Hj|(d' & Hd' & Hj)]; [rewrite Hj in H; exact H|].
  rewrite Hj in H. apply orb_true_iff in H. apply orb_true_iff.
  destruct H as [H|H]; [left | right];
    apply endswith_split in H; destruct H as (a & x & Hax & Hl);
    (assert (Hx : has_slash x = false);
     [ assert (Hext : archive_extension x)
         by (first [left; exact Hl | right; exact Hl]);
       destruct (archive_extension_shape x Hext)
         as (c1 & c2 & c3 & -> & _ & _ & _ & _ & _ & _ & S1 & S2 & S3);
       simpl; rewrite S1, S2, S3; reflexivity
     | destruct (suffix_after_slash d' e a x Hd' Hx Hax) as [a' ->];
       rewrite lower_app, <- Hl; apply endswith_app ]).
Qed.

End JoinSuffix.

Section Lift.
Import scanner comic_parser.
Variable fs : filesystem.
Variable P : chapter -> Prop.
Variable P' : chapter_row -> Prop.
Hypothesis Hrow : forall mid ch r, row_of mid ch r -> P ch -> P' r.
Hypothesis Hdisc :
  forall d entries chs,
    discover_chapters fs d entries [] = Ret chs -> Forall P chs.

(** A property of every discovered chapter is a property of every chapter
    row a scan appends. *)
Lemma scan_mangas_lift (sid : Z) (root : string) (names : list string) :
  forall db mc cc,
  exists new_c,
    chapters (snd (scan_mangas fs sid root names db mc cc))
    = (chapters db ++ new_c)%list
    /\ Forall P' new_c.
Proof.
  assert (Hnone : forall db : DatabaseManager,
             exists new_c, chapters db = (chapters db ++ new_c)%list
                           /\ Forall P' new_c).
  { intro db. exists []. rewrite app_nil_r. split; [reflexivity|constructor]. }
  induction names as [|name rest IH]; intros db mc cc; simpl.
  - apply Hnone.
  - destruct (negb (os_path_isdir fs (OsPath.join root name))); [apply IH|].
    destruct (os_listdir fs (OsPath.join root name)) as [entries|e]; simpl;
      [|apply Hnone].
    destruct (discover_chapters fs (OsPath.join root name) (sorted entries) [])
      as [chs|e] eqn:Hd; [|apply Hnone].
    destruct chs as [|ch chs']; [apply IH|].
    destruct (_find_cover fs (OsPath.join root name)) as [cover|e];
      [|apply Hnone].
    pose proof (Hdisc _ _ _ Hd) as HP.
    remember (ch :: chs') as chs eqn:Echs. clear Echs ch chs' Hd.
    unfold add_manga.
    match goal with
    | |- context [register_chapters ?d ?m chs cc] =>
        destruct (register_chapters_rows chs d m cc) as (rows & Hreg & Hrows)
    end.
    rewrite Hreg. simpl mangas. simpl chapters.
    simpl mangas_seq. simpl chapters_seq.
    match goal with
    | |- context [scan_mangas _ _ _ _ ?a ?m ?c] =>
        destruct (IH a m c) as (new_c & Hc & Hnew)
    end.
    simpl in Hc.
    exists (rows ++ new_c)%list. rewrite Hc, <- app_assoc.
    split; [reflexivity|]. apply Forall_app. split; [|exact Hnew].
    clear -Hrows HP Hrow. induction Hrows as [|ch r chs rows Hr _ IHr];
      [constructor|].
    inversion HP; subst. constructor; [eapply Hrow; eassumption | auto].
Qed.

End Lift.

Section Numbered.
Import scanner comic_parser.
Variable fs : filesystem.

Lemma discover_numbered (d : string) (entries : list string) :
  forall acc chs,
    Forall (fun ch => number ch = _extract_chapter_number (title ch)) acc ->
    discover_chapters fs d entries acc = Ret chs ->
    Forall (fun ch => number ch = _extract_chapter_number (title ch)) chs.
Proof.
  induction entries as [|e rest IH]; intros acc chs Hacc; simpl.
  - intro H. injection H as <-. exact Hacc.
  - destruct (is_cbz_file fs (OsPath.join d e)) eqn:Hc.
    + destruct (get_page_count fs (OsPath.join d e)); simpl; [|discriminate].
      apply IH. apply Forall_app. split; [exact Hacc|].
      constructor; [|constructor]. simpl.
      apply archive_number_of_title, (join_archive_suffix d).
      unfold is_cbz_file in Hc. apply andb_true_iff in Hc.
      destruct Hc as [Hc _]. apply andb_true_iff in Hc. tauto.
    + destruct (os_path_isdir fs (OsPath.join d e)); [|apply IH, Hacc].
      destruct (get_page_count fs (OsPath.join d e)) as [n|]; simpl;
        [|discriminate].
      destruct (n >? 0); [|apply IH, Hacc].
      apply IH. apply Forall_app. split; [exact Hacc|].
      constructor; [|constructor]. reflexivity.
Qed.

End Numbered.

(** X12.  The chapter number of an archive is the number of its title:
    for a name that ends in [.cbz] or [.zip], in any letter case, the
    heuristic gives the same number on the name with its extension (what
    [scan_source] passes) as on the name without it (what it stores as
    title).  So in every chapter row a scan appends, archive or folder,
    the chapter number is the heuristic applied to the row's title. *)
Theorem chapter_number_is_number_of_title :
  (forall e,
      PyStr.endswith (PyStr.lower e) ".cbz"
      || PyStr.endswith (PyStr.lower e) ".zip" = true ->
      scanner._extract_chapter_number e
      = scanner._extract_chapter_number (fst (OsPath.splitext e)))
  /\ (forall fs db sid root,
         exists new_c,
           chapters (snd (scanner.scan_source fs db sid root))
           = (chapters db ++ new_c)%list
           /\ Forall (fun r => c_chapter_number r
                               = scanner._extract_chapter_number (c_title r))
                     new_c).
Proof.
  split; [exact archive_number_of_title|].
  intros fs db sid root. unfold scanner.scan_source.
  assert (Hnone : exists new_c,
             chapters db = (chapters db ++ new_c)%list
             /\ Forall (fun r => c_chapter_number r
                                 = scanner._extract_chapter_number (c_title r))
                       new_c).
  { exists []. rewrite app_nil_r. split; [reflexivity|constructor]. }
  destruct (negb (os_path_isdir fs root)); [exact Hnone|].
  destruct (os_listdir fs root) as [names|e]; [|exact Hnone].
  apply (scan_mangas_lift fs
           (fun ch => scanner.number ch
                      = scanner._extract_chapter_number (scanner.title ch))).
  - intros mid ch r (_ & Hn & Ht & _) Hch. rewrite Hn, Ht. exact Hch.
  - intros d entries chs H.
    eapply discover_numbered; [constructor | exact H].
Qed.

Lemma chapter_number_is_number_of_title_witness :
  scanner._extract_chapter_number "Vol 3 Ch.12.5.CBZ"
  = scanner._extract_chapter_number
      (fst (OsPath.splitext "Vol 3 Ch.12.5.CBZ")).
Proof.
  apply (proj1 chapter_number_is_number_of_title "Vol 3 Ch.12.5.CBZ").
  reflexivity.
Defined.

(* ------------------------------------------------------------------ *)
(** ** Letter case *)

Section LetterCase.
Import PyStr.

Lemma lower_char_idem (c : ascii) : lower_char (lower_char c) = lower_char c.
Proof. destruct c as [[] [] [] [] [] [] [] []]; reflexivity. Qed.

Lemma lower_idem (s : string) : lower (lower s) = lower s.
Proof.
  induction s as [|c s IH]; simpl; [reflexivity|].
  rewrite lower_char_idem, IH. reflexivity.
Qed.

Lemma lower_keeps_dot (c : ascii) :
  Ascii.eqb (lower_char c) "." = Ascii.eqb c ".".
Proof. destruct c as [[] [] [] [] [] [] [] []]; reflexivity. Qed.

Lemma lower_keeps_slash (c : ascii) :
  Ascii.eqb (lower_char c) "/" = Ascii.eqb c "/".
Proof. destruct c as [[] [] [] [] [] [] [] []]; reflexivity. Qed.

Lemma rfind_from_lower (c : ascii) (s : string) :
  (forall a, Ascii.eqb (lower_char a) c = Ascii.eqb a c) ->
  forall i last, rfind_from c (lower s) i last = rfind_from c s i last.
Proof.
  intro Hc. induction s as [|a s IH]; intros i last; simpl; [reflexivity|].
  rewrite Hc. apply IH.
Qed.

Lemma get_lower (s : string) :
  forall n, String.get n (lower s) = option_map lower_char (String.get n s).
Proof.
  induction s as [|a s IH]; intros [|n]; simpl; try reflexivity. apply IH.
Qed.

Lemma has_non_dot_lower (p : string) (n : nat) :
  forall i, OsPath.has_non_dot (lower p) i n = OsPath.has_non_dot p i n.
Proof.
  induction n as [|n IH]; intro i; simpl; [reflexivity|].
  unfold char_at. rewrite get_lower.
  destruct (String.get (Z.to_nat i) p) as [c|]; simpl; [|reflexivity].
  rewrite lower_keeps_dot. destruct (Ascii.eqb c "."); [apply IH|reflexivity].
Qed.

Lemma splitext_lower (p : string) :
  OsPath.splitext (lower p)
  = (lower (fst (OsPath.splitext p)), lower (snd (OsPath.splitext p))).
Proof.
  unfold OsPath.splitext, rfind.
  rewrite !rfind_from_lower
    by (apply lower_keeps_slash || apply lower_keeps_dot).
  rewrite has_non_dot_lower.
  destruct (_ <? _); [|reflexivity].
  destruct (OsPath.has_non_dot _ _ _); [|reflexivity].
  unfold slice_to, slice_from. rewrite length_lower, !substring_lower.
  reflexivity.
Qed.

Lemma is_image_file_lower (f : string) :
  comic_parser.is_image_file (lower f) = comic_parser.is_image_file f.
Proof.
  unfold comic_parser.is_image_file. rewrite splitext_lower.
  destruct (OsPath.splitext f) as [stem ext]. simpl.
  rewrite lower_idem. reflexivity.
Qed.

Lemma is_named_cover_lower (f : string) :
  scanner.is_named_cover (lower f) = scanner.is_named_cover f.
Proof.
  unfold scanner.is_named_cover. rewrite splitext_lower.
  destruct (OsPath.splitext f) as [stem ext]. simpl.
  rewrite !lower_idem. reflexivity.
Qed.

End LetterCase.

Section HeuristicCase.
Import PyStr HeuristicSpec.

Lemma digit_lower (c : ascii) : re.digit (lower_char c) = re.digit c.
Proof. destruct c as [[] [] [] [] [] [] [] []]; reflexivity. Qed.

Lemma separator_lower (c : ascii) :
  scanner.separator (lower_char c) = scanner.separator c.
Proof. destruct c as [[] [] [] [] [] [] [] []]; reflexivity. Qed.

Lemma digit_fixed (c : ascii) : re.digit c = true -> lower_char c = c.
Proof.
  destruct c as [[] [] [] [] [] [] [] []]; vm_compute; congruence.
Qed.

Lemma take_digits_lower (s : string) :
  take_while re.digit (lower s) = take_while re.digit s.
Proof.
  induction s as [|c s IH]; simpl; [reflexivity|].
  rewrite digit_lower. destruct (re.digit c) eqn:Hc; [|reflexivity].
  rewrite (digit_fixed c Hc), IH. reflexivity.
Qed.

Lemma drop_while_lower (p : ascii -> bool) (s : string) :
  (forall c, p (lower_char c) = p c) ->
  drop_while p (lower s) = lower (drop_while p s).
Proof.
  intro Hp. induction s as [|c s IH]; simpl; [reflexivity|].
  rewrite Hp. destruct (p c); [exact IH | reflexivity].
Qed.

Lemma numeric_token_lower (s : string) :
  numeric_token (lower s) = numeric_token s.
Proof.
  unfold numeric_token.
  rewrite take_digits_lower, (drop_while_lower _ _ digit_lower).
  destruct (take_while re.digit s) as [|a ip]; [reflexivity|].
  destruct (drop_while re.digit s) as [|d u]; simpl; [reflexivity|].
  rewrite lower_keeps_dot, take_digits_lower. reflexivity.
Qed.

Lemma lit_ci_lower (w s : string) :
  re.lit_ci w (lower s) = option_map lower (re.lit_ci w s).
Proof.
  revert s. induction w as [|a w IH]; intro s; simpl; [reflexivity|].
  destruct s as [|c s]; simpl; [reflexivity|].
  rewrite lower_char_idem.
  destruct (Ascii.eqb (lower_char c) (lower_char a)); [apply IH|reflexivity].
Qed.

Lemma marker_at_lower (s : string) :
  marker_at scanner.separator (lower s) = marker_at scanner.separator s.
Proof.
  unfold marker_at. rewrite lit_ci_lower.
  destruct (re.lit_ci "ch" s) as [s1|]; cbn [option_map]; [|reflexivity].
  rewrite lit_ci_lower.
  destruct (re.lit_ci "apter" s1) as [t|]; cbn [option_map];
    rewrite (drop_while_lower _ _ separator_lower);
    apply numeric_token_lower.
Qed.

Lemma find_marker_lower (s : string) :
  find_marker scanner.separator (lower s) = find_marker scanner.separator s.
Proof.
  induction s as [|c s IH]; [reflexivity|].
  change (lower (String c s)) with (String (lower_char c) (lower s)).
  cbn [find_marker].
  change (String (lower_char c) (lower s)) with (lower (String c s)).
  rewrite marker_at_lower, IH. reflexivity.
Qed.

Lemma extract_lower (s : string) :
  scanner._extract_chapter_number (lower s)
  = scanner._extract_chapter_number s.
Proof.
  rewrite !extract_as_rules. unfold extractNumber.
  rewrite find_marker_lower, numeric_token_lower. reflexivity.
Qed.

End HeuristicCase.

(** X13.  [is_image_file] and the named-cover test of [_find_cover] do
    not depend on letter case: two names that are equal once lower-cased
    are classified alike. *)
Theorem classification_ignores_letter_case (f g : string) :
  PyStr.lower f = PyStr.lower g ->
  comic_parser.is_image_file f = comic_parser.is_image_file g
  /\ scanner.is_named_cover f = scanner.is_named_cover g.
Proof.
  intro H. split.
  - rewrite <- (is_image_file_lower f), <- (is_image_file_lower g), H.
    reflexivity.
  - rewrite <- (is_named_cover_lower f), <- (is_named_cover_lower g), H.
    reflexivity.
Qed.

Lemma classification_ignores_letter_case_witness :
  comic_parser.is_image_file "Cover.JPeG"
  = comic_parser.is_image_file "cOVER.jpeg"
  /\ scanner.is_named_cover "Cover.JPeG"
     = scanner.is_named_cover "cOVER.jpeg".
Proof.
  apply (classification_ignores_letter_case "Cover.JPeG" "cOVER.jpeg").
  reflexivity.
Defined.

(** X14.  [_extract_chapter_number] does not depend on letter case: two
    names that are equal once lower-cased get the same number. *)
Theorem chapter_number_ignores_letter_case (f g : string) :
  PyStr.lower f = PyStr.lower g ->
  scanner._extract_chapter_number f = scanner._extract_chapter_number g.
Proof.
  intro H. rewrite <- (extract_lower f), <- (extract_lower g), H.
  reflexivity.
Qed.

Lemma chapter_number_ignores_letter_case_witness :
  scanner._extract_chapter_number "CHAPTER 7.5 Extra"
  = scanner._extract_chapter_number "chapter 7.5 extra".
Proof.
  apply (chapter_number_ignores_letter_case "CHAPTER 7.5 Extra"
                                            "chapter 7.5 extra").
  reflexivity.
Defined.

(* ------------------------------------------------------------------ *)
(** ** Sign of the chapter number *)

Section Sign.
Import HeuristicSpec.


Lemma take_digits_all (s : string) : all_digits (take_while re.digit s) = true.
Proof.
  induction s as [|c s IH]; simpl; [reflexivity|].
  destruct (re.digit c) eqn:Hc; simpl; [rewrite Hc; exact IH | reflexivity].
Qed.

Lemma digit_value_nonneg (c : ascii) :
  re.digit c = true -> 0 <= PyFloat.digit_value c.
Proof.
  unfold re.digit, PyFloat.digit_value, PyStr.code.
  intro H. apply andb_true_iff in H. destruct H as [H _].
  apply N.leb_le in H. lia.
Qed.

Lemma digit_not_dot (c : ascii) :
  re.digit c = true -> Ascii.eqb c "." = false.
Proof. destruct c as [[] [] [] [] [] [] [] []]; vm_compute; congruence. Qed.

Lemma int_digits_nonneg (s : string) :
  forall acc, all_digits s = true -> 0 <= acc -> 0 <= PyFloat.int_digits s acc.
Proof.
  induction s as [|c s IH]; intros acc Hs Hacc; cbn [PyFloat.int_digits];
    [exact Hacc|].
  cbn [all_digits] in Hs. apply andb_true_iff in Hs. destruct Hs as [Hc Hs].
  apply IH; [exact Hs|]. pose proof (digit_value_nonneg c Hc). lia.
Qed.

Lemma split_dot_digits (ip rest : string) :
  all_digits ip = true ->
  PyFloat.split_dot (ip ++ String "." rest) = (ip, rest)
  /\ PyFloat.split_dot ip = (ip, "").
Proof.
  induction ip as [|c ip IH]; intro H; simpl.
  - split; reflexivity.
  - simpl in H. apply andb_true_iff in H. destruct H as [Hc H].
    rewrite (digit_not_dot c Hc). destruct (IH H) as [-> ->].
    split; reflexivity.
Qed.


Lemma numeric_token_shape (s t : string) :
  numeric_token s = Some t -> token_shape t.
Proof.
  unfold numeric_token.
  pose proof (take_digits_all s) as Hip.
  destruct (take_while re.digit s) as [|a ip]; [discriminate|].
  destruct (drop_while re.digit s) as [|d u].
  - intro H. injection H as <-. exists (String a ip), "". auto.
  - destruct (Ascii.eqb d ".").
    + pose proof (take_digits_all u) as Hfp.
      destruct (take_while re.digit u) as [|b fp].
      * intro H. injection H as <-. exists (String a ip), "". auto.
      * intro H. injection H as <-.
        exists (String a ip), (String b fp). auto.
    + intro H. injection H as <-. exists (String a ip), "". auto.
Qed.

Lemma find_marker_shape (sep : ascii -> bool) (s t : string) :
  find_marker sep s = Some t -> token_shape t.
Proof.
  induction s as [|c s IH]; cbn [find_marker].
  - unfold marker_at. simpl. discriminate.
  - destruct (marker_at sep (String c s)) as [t'|] eqn:Hm; [|exact IH].
    intro H. injection H as <-. unfold marker_at in Hm.
    destruct (re.lit_ci "ch" (String c s)) as [s1|]; [|discriminate].
    eapply numeric_token_shape. exact Hm.
Qed.

Lemma float_nonneg (t : string) : token_shape t -> (0 <= PyFloat.float t)%Q.
Proof.
  intros (ip & fp & Hip & Hfp & Ht). unfold PyFloat.float.
  assert (H : forall a b, all_digits a = true -> all_digits b = true ->
              (0 <= Qred (PyFloat.int_digits b (PyFloat.int_digits a 0)
                          # Z.to_pos (10 ^ Z.of_nat (String.length b))))%Q).
  { intros a b Ha Hb. rewrite Qred_correct. unfold Qle. simpl.
    rewrite Z.mul_1_r. apply int_digits_nonneg; [exact Hb|].
    apply int_digits_nonneg; [exact Ha | lia]. }
  destruct Ht as [->| ->].
  - rewrite (proj2 (split_dot_digits ip "" Hip)). apply H; auto.
  - rewrite (proj1 (split_dot_digits ip fp Hip)). apply H; auto.
Qed.

End Sign.

(** X15.  [_extract_chapter_number] never returns a negative number:
    the 0.0 of a name without a number is the least value there is. *)
Theorem chapter_number_not_negative (name : string) :
  (0 <= scanner._extract_chapter_number name)%Q.
Proof.
  rewrite extract_as_rules. unfold HeuristicSpec.extractNumber.
  destruct (HeuristicSpec.find_marker scanner.separator name) as [t|] eqn:Hm.
  - apply float_nonneg. eapply find_marker_shape. exact Hm.
  - destruct (HeuristicSpec.numeric_token name) as [t|] eqn:Ht.
    + apply float_nonneg. eapply numeric_token_shape. exact Ht.
    + apply Qle_refl.
Qed.

(* ------------------------------------------------------------------ *)
(** ** Extraction to a folder *)

Lemma extracted_members_app (a b : list disk_event) :
  extracted_members (a ++ b)
  = (extracted_members a ++ extracted_members b)%list.
Proof.
  induction a as [|[p|n d] a IH]; simpl; [reflexivity | exact IH |].
  f_equal. exact IH.
Qed.

Section ExtractFacts.
Variable tempfile_mkdtemp : string -> outcome string.
Variable zip_extract : ZipFile -> string -> string -> outcome string.

Lemma extract_members_log (z : ZipFile) (dest : string) (names : list string) :
  forall log,
  exists done,
    extracted_members
      (snd (extract_members zip_extract z names dest log))
    = (extracted_members log ++ done)%list
    /\ Forall (fun n => is_page_member n = true) done
    /\ (fst (extract_members zip_extract z names dest log) = Ret tt ->
        done = filter is_page_member names)
    /\ (forall e,
           fst (extract_members zip_extract z names dest log) = Raise e ->
           exists n, In n names /\ is_page_member n = true
                     /\ zip_extract z n dest = Raise e).
Proof.
  induction names as [|name rest IH]; intro log; simpl.
  - exists []. rewrite app_nil_r.
    repeat split; try constructor. discriminate.
  - fold (is_page_member name).
    destruct (is_page_member name) eqn:Hq.
    + destruct (zip_extract z name dest) as [p|e] eqn:Hx.
      * destruct (IH (log ++ [Extracted name dest])%list)
          as (done & Hlog & Hall & Hret & Hraise).
        exists (name :: done). split; [|split; [|split]].
        -- rewrite Hlog, extracted_members_app, <- app_assoc. reflexivity.
        -- constructor; assumption.
        -- intro H. rewrite (Hret H). reflexivity.
        -- intros e H. destruct (Hraise e H) as (n & Hn & Hqn & Hxn).
           exists n. auto.
      * exists []. rewrite app_nil_r. simpl.
        split; [reflexivity|]. split; [constructor|].
        split; [discriminate|].
        intros e' H. injection H as <-. exists name. auto.
    + destruct (IH log) as (done & Hlog & Hall & Hret & Hraise).
      exists done. split; [exact Hlog|]. split; [exact Hall|].
      split; [exact Hret|].
      intros e H. destruct (Hraise e H) as (n & Hn & Hqn & Hxn).
      exists n. auto.
Qed.

Lemma extract_members_ret (z : ZipFile) (dest : string)
      (names : list string) (log log' : list disk_event) :
  extract_members zip_extract z names dest log = (Ret tt, log') ->
  extracted_members log = nil ->
  extracted_members log' = filter is_page_member names.
Proof.
  intros Hx Hempty.
  destruct (extract_members_log z dest names log)
    as (done & Hlog & _ & Hret & _).
  rewrite Hx in Hlog, Hret. simpl in Hlog, Hret.
  rewrite Hlog, Hempty, (Hret eq_refl). reflexivity.
Qed.

(** X16.  [extract_cbz_to_folder] extracts the pages and nothing else.
    Whatever the outcome, every member it has extracted has an image
    extension and does not start with [__MACOSX].  When it returns, it
    returns the directory given, or else the one [tempfile.mkdtemp] made,
    and the members extracted are, in archive order, exactly those
    [list_cbz_pages] lists.  When no directory is given and the archive
    cannot be opened, the exception leaves the function after the
    temporary directory was made. *)
Theorem extract_cbz_to_folder_members (fs : filesystem) (p : string)
        (dest_dir : option string) :
  Forall (fun n => is_page_member n = true)
         (extracted_members
            (snd (extract_cbz_to_folder tempfile_mkdtemp zip_extract
                                        fs p dest_dir)))
  /\ (forall d,
         fst (extract_cbz_to_folder tempfile_mkdtemp zip_extract
                                    fs p dest_dir) = Ret d ->
         (dest_dir = Some d
          \/ (dest_dir = None /\ tempfile_mkdtemp "comicviewer_" = Ret d))
         /\ exists z pages,
             zipfile_open fs p = Ret z
             /\ extracted_members
                  (snd (extract_cbz_to_folder tempfile_mkdtemp zip_extract
                                              fs p dest_dir))
                = filter is_page_member (namelist z)
             /\ comic_parser.list_cbz_pages fs p = Ret pages
             /\ Permutation
                  (extracted_members
                     (snd (extract_cbz_to_folder tempfile_mkdtemp zip_extract
                                                 fs p dest_dir)))
                  pages)
  /\ (forall d e,
         dest_dir = None ->
         tempfile_mkdtemp "comicviewer_" = Ret d ->
         zipfile_open fs p = Raise e ->
         extract_cbz_to_folder tempfile_mkdtemp zip_extract fs p dest_dir
         = (Raise e, [MadeTempDir d])).
Proof.
  unfold extract_cbz_to_folder. split; [|split].
  - destruct dest_dir as [d|].
    + destruct (zipfile_open fs p) as [z|e]; [|constructor].
      destruct (extract_members_log z d (namelist z) [])
        as (done & Hlog & Hall & _).
      destruct (extract_members zip_extract z (namelist z) d [])
        as [[u|e] log']; simpl in *; rewrite Hlog; exact Hall.
    + destruct (tempfile_mkdtemp "comicviewer_") as [d|e]; [|constructor].
      destruct (zipfile_open fs p) as [z|e]; [|constructor].
      destruct (extract_members_log z d (namelist z) [MadeTempDir d])
        as (done & Hlog & Hall & _).
      destruct (extract_members zip_extract z (namelist z) d [MadeTempDir d])
        as [[u|e] log']; simpl in *; rewrite Hlog; exact Hall.
  - intros d H. unfold comic_parser.list_cbz_pages.
    destruct dest_dir as [d0|].
    + destruct (zipfile_open fs p) as [z|e]; [|discriminate H].
      destruct (extract_members zip_extract z (namelist z) d0 nil)
        as [[[]|e] log'] eqn:Hx; [|discriminate H].
      simpl in H. injection H as ->.
      split; [left; reflexivity|].
      exists z, (sorted (filter is_page_member (namelist z))).
      simpl. rewrite (extract_members_ret z d (namelist z) nil log' Hx eq_refl).
      repeat split. apply sorted_perm.
    + destruct (tempfile_mkdtemp "comicviewer_") as [d0|e];
        [|discriminate H].
      destruct (zipfile_open fs p) as [z|e]; [|discriminate H].
      destruct (extract_members zip_extract z (namelist z) d0
                                (cons (MadeTempDir d0) nil))
        as [[[]|e] log'] eqn:Hx; [|discriminate H].
      simpl in H. injection H as ->.
      split; [right; split; reflexivity|].
      exists z, (sorted (filter is_page_member (namelist z))).
      simpl. rewrite (extract_members_ret z d (namelist z) _ log' Hx eq_refl).
      repeat split. apply sorted_perm.
  - intros d e -> -> ->. reflexivity.
Qed.


End ExtractFacts.

Lemma extract_cbz_to_folder_members_witness :
  (Some "/out" = Some "/out"
   \/ (Some "/out" = None /\ toy_mkdtemp "comicviewer_" = Ret "/out"))
  /\ exists z pages,
      zipfile_open (Disk.mount Scenario.library)
                   "/lib/Alpha/Chapter 01.cbz" = Ret z
      /\ extracted_members
           (snd (extract_cbz_to_folder toy_mkdtemp toy_extract
                   (Disk.mount Scenario.library)
                   "/lib/Alpha/Chapter 01.cbz" (Some "/out")))
         = filter is_page_member (namelist z)
      /\ comic_parser.list_cbz_pages (Disk.mount Scenario.library)
                                     "/lib/Alpha/Chapter 01.cbz"
         = Ret pages
      /\ Permutation
           (extracted_members
              (snd (extract_cbz_to_folder toy_mkdtemp toy_extract
                      (Disk.mount Scenario.library)
                      "/lib/Alpha/Chapter 01.cbz" (Some "/out"))))
           pages.
Proof.
  apply (proj1 (proj2 (extract_cbz_to_folder_members
                         toy_mkdtemp toy_extract
                         (Disk.mount Scenario.library)
                         "/lib/Alpha/Chapter 01.cbz" (Some "/out")))
               "/out").
  reflexivity.
Defined.

(* ------------------------------------------------------------------ *)
(** ** Page endpoints *)

Section Endpoints.
Import api.

Lemma range_In (n i : Z) : In i (range n) <-> 0 <= i < n.
Proof.
  unfold range. rewrite in_map_iff. split.
  - intros (k & <- & Hk). apply in_seq in Hk. lia.
  - intro H. exists (Z.to_nat i). split; [lia|]. apply in_seq. lia.
Qed.

Lemma range_length (n : Z) : 0 <= n -> len (range n) = n.
Proof.
  intro H. unfold len, range. rewrite length_map, length_seq. lia.
Qed.

Lemma get_page_count_nonneg (fs : filesystem) (p : string) (n : Z) :
  comic_parser.get_page_count fs p = Ret n -> 0 <= n.
Proof.
  unfold comic_parser.get_page_count.
  destruct (comic_parser.is_cbz_file fs p).
  - destruct (comic_parser.list_cbz_pages fs p); simpl; [|discriminate].
    intro H. injection H as <-. unfold len. lia.
  - destruct (os_path_isdir fs p).
    + destruct (comic_parser.list_folder_pages fs p); simpl; [|discriminate].
      intro H. injection H as <-. unfold len. lia.
    + intro H. injection H as <-. lia.
Qed.

Lemma content_type_values (b : bytes) :
  In (content_type b) ["image/png"; "image/webp"; "image/gif"; "image/jpeg"].
Proof.
  unfold content_type.
  destruct (bytes_eqb _ _); [simpl; tauto|].
  destruct (_ && _); [simpl; tauto|].
  destruct (bytes_eqb _ _); simpl; tauto.
Qed.

Lemma image_index_counted (fs : filesystem) (p : string) (i : Z)
      (b : bytes) (n : Z) :
  comic_parser.get_page_image fs p i = Ret (Some b) ->
  comic_parser.get_page_count fs p = Ret n ->
  0 <= i < n.
Proof.
  unfold comic_parser.get_page_image, comic_parser.get_page_count.
  destruct (comic_parser.is_cbz_file fs p).
  - destruct (comic_parser.list_cbz_pages fs p) as [pages|e]; simpl;
      [|discriminate].
    destruct ((0 <=? i) && (i <? len pages)) eqn:Hr; [|discriminate].
    intros _ H. injection H as <-. apply andb_true_iff in Hr. lia.
  - destruct (os_path_isdir fs p); [|discriminate].
    destruct (comic_parser.list_folder_pages fs p) as [pages|e]; simpl;
      [|discriminate].
    destruct ((0 <=? i) && (i <? len pages)) eqn:Hr; [|discriminate].
    intros _ H. injection H as <-. apply andb_true_iff in Hr. lia.
Qed.

(** X17.  The two page endpoints of api.py agree.  For a chapter id the
    table does not hold, both answer 404 "Chapter not found.".  When
    [list_pages] answers, its page count is the number of pages it lists,
    the pages are numbered [0 .. count - 1] in order, and every page number
    for which [get_page] serves an image is among them.  What [get_page]
    serves is the bytes [get_page_image] returned, under one of the four
    media types. *)
Theorem page_endpoints_agree (db : DatabaseManager) (fs : filesystem)
        (chapter_id : Z) :
  (get_chapter db chapter_id = None ->
   list_pages db fs chapter_id = HTTPException 404 "Chapter not found."
   /\ forall i,
       get_page db fs chapter_id i
       = HTTPException 404 "Chapter not found.")
  /\ (forall l,
         list_pages db fs chapter_id = Ok l ->
         pl_page_count l = len (pl_pages l)
         /\ map page_number (pl_pages l) = range (pl_page_count l)
         /\ forall i r,
             get_page db fs chapter_id i = Ok r ->
             In i (map page_number (pl_pages l)))
  /\ (forall i r,
         get_page db fs chapter_id i = Ok r ->
         In (media_type r)
            ["image/png"; "image/webp"; "image/gif"; "image/jpeg"]
         /\ exists chapter,
             get_chapter db chapter_id = Some chapter
             /\ comic_parser.get_page_image fs (c_file_path chapter) i
                = Ret (Some (content r))).
Proof.
  unfold list_pages, get_page. split; [|split].
  - intros ->. split; reflexivity.
  - intros l.
    destruct (get_chapter db chapter_id) as [ch|]; [|discriminate].
    destruct (comic_parser.get_page_count fs (c_file_path ch)) as [n|e]
      eqn:Hn; [|discriminate].
    intro H. injection H as <-. simpl.
    rewrite map_map. simpl. rewrite map_id.
    split; [|split].
    + unfold len. rewrite length_map. fold (len (range n)).
      symmetry. apply range_length. eapply get_page_count_nonneg, Hn.
    + reflexivity.
    + intros i r.
      destruct (comic_parser.get_page_image fs (c_file_path ch) i)
        as [[b|]|e] eqn:Hi; try discriminate.
      intros _. apply range_In.
      exact (image_index_counted fs _ i b n Hi Hn).
  - intros i r.
    destruct (get_chapter db chapter_id) as [ch|]; [|discriminate].
    destruct (comic_parser.get_page_image fs (c_file_path ch) i)
      as [[b|]|e] eqn:Hi; try discriminate.
    intro H. injection H as <-. simpl.
    split; [apply content_type_values|]. exists ch. auto.
Qed.

Lemma page_endpoints_agree_witness :
  In 2 (map api.page_number
            [api.mkPageEntry 0 "/api/chapters/1/pages/0";
             api.mkPageEntry 1 "/api/chapters/1/pages/1";
             api.mkPageEntry 2 "/api/chapters/1/pages/2"])
  /\ api.get_page scanned_library (Disk.mount Scenario.library) 7 0
     = api.HTTPException 404 "Chapter not found.".
Proof.
  split.
  - apply (proj2 (proj2 (proj1 (proj2 (page_endpoints_agree
             scanned_library (Disk.mount Scenario.library) 1))
             (api.mkPageListing 1 3
                [api.mkPageEntry 0 "/api/chapters/1/pages/0";
                 api.mkPageEntry 1 "/api/chapters/1/pages/1";
                 api.mkPageEntry 2 "/api/chapters/1/pages/2"])
             eq_refl))
             2 (api.mkResponse [x33] "image/jpeg")).
    reflexivity.
  - apply (proj2 (proj1 (page_endpoints_agree
             scanned_library (Disk.mount Scenario.library) 7) eq_refl)).
Defined.

Lemma ids_from_In (s : Z) (n : nat) (x : Z) :
  In x (ids_from s n) -> s <= x.
Proof.
  unfold ids_from. rewrite in_map_iff. intros (k & <- & _). lia.
Qed.

Lemma ids_from_NoDup (n : nat) : forall s, NoDup (ids_from s n).
Proof.
  induction n as [|n IH]; intro s.
  - constructor.
  - rewrite ids_from_cons. constructor; [|apply IH].
    intro H. apply ids_from_In in H. lia.
Qed.

Lemma find_by_id (l : list chapter_row) (r : chapter_row) :
  NoDup (map c_id l) -> In r l ->
  find (fun x => c_id x =? c_id r) l = Some r.
Proof.
  induction l as [|x l IH]; intros Hnd Hin; [destruct Hin|].
  inversion Hnd as [|? ? Hx Hl]; subst. simpl.
  destruct Hin as [->|Hin].
  - rewrite Z.eqb_refl. reflexivity.
  - destruct (Z.eqb_spec (c_id x) (c_id r)) as [E|_]; [|apply IH; assumption].
    exfalso. apply Hx. rewrite E. apply in_map. exact Hin.
Qed.

Lemma find_app_none {A : Type} (f : A -> bool) (a b : list A) :
  (forall x, In x a -> f x = false) -> find f (a ++ b) = find f b.
Proof.
  induction a as [|x a IH]; intro H; simpl; [reflexivity|].
  rewrite (H x (or_introl eq_refl)). apply IH.
  intros y Hy. apply H. right. exact Hy.
Qed.

(** X18.  A chapter that a scan has just inserted can be served.  When
    the chapter identifiers already in the table do not exceed the
    table's counter, every chapter row the scan appends is the row
    [get_chapter] finds under its identifier, [list_pages] answers for it
    with the page count the scan stored, and [get_page] never answers
    "Chapter not found." for it. *)
Theorem scanned_chapter_is_served (fs : filesystem) (db : DatabaseManager)
        (sid : Z) (root : string) (new_c : list chapter_row)
        (r : chapter_row) :
  Forall (fun x => c_id x <= chapters_seq db) (chapters db) ->
  chapters (snd (scanner.scan_source fs db sid root))
  = (chapters db ++ new_c)%list ->
  In r new_c ->
  get_chapter (snd (scanner.scan_source fs db sid root)) (c_id r) = Some r
  /\ (exists l,
         list_pages (snd (scanner.scan_source fs db sid root)) fs (c_id r)
         = Ok l
         /\ pl_page_count l = c_page_count r)
  /\ forall i,
      get_page (snd (scanner.scan_source fs db sid root)) fs (c_id r) i
      <> HTTPException 404 "Chapter not found.".
Proof.
  intros Hold Hnew Hr.
  assert (Hins : exists names,
             inserted fs sid root names db
                      (snd (scanner.scan_source fs db sid root))).
  { unfold scanner.scan_source.
    destruct (negb (os_path_isdir fs root));
      [exists nil; apply inserted_nothing|].
    destruct (os_listdir fs root) as [names|e];
      [|exists nil; apply inserted_nothing].
    exists (sorted names). apply scan_mangas_inserted. }
  assert (Hem : emitted fs db (snd (scanner.scan_source fs db sid root))
                        (fst (scanner.scan_source fs db sid root)) 0 0).
  { unfold scanner.scan_source.
    destruct (negb (os_path_isdir fs root)).
    - apply emitted_nothing. intros s' H. injection H as <-. reflexivity.
    - destruct (os_listdir fs root) as [names|e].
      + apply scan_mangas_emitted.
      + apply emitted_nothing. discriminate. }
  destruct Hins as (names & m1 & c1 & _ & Hc1 & _ & _ & Hids & _).
  destruct Hem as (m2 & c2 & _ & Hc2 & _ & Hacc & _).
  rewrite Hnew in Hc1, Hc2.
  apply app_inv_head in Hc1, Hc2. subst c1 c2.
  assert (Hget : get_chapter (snd (scanner.scan_source fs db sid root))
                             (c_id r) = Some r).
  { unfold get_chapter. rewrite Hnew, find_app_none.
    - apply find_by_id; [|exact Hr]. rewrite Hids. apply ids_from_NoDup.
    - intros x Hx. rewrite Forall_forall in Hold.
      specialize (Hold x Hx).
      assert (Hid : In (c_id r) (map c_id new_c)) by (apply in_map, Hr).
      rewrite Hids in Hid. apply ids_from_In in Hid.
      apply Z.eqb_neq. lia. }
  rewrite Forall_forall in Hacc. destruct (Hacc r Hr) as [Hcount _].
  split; [exact Hget|]. split.
  - unfold list_pages. rewrite Hget, Hcount. eexists. split; reflexivity.
  - intro i. unfold get_page. rewrite Hget.
    destruct (comic_parser.get_page_image fs (c_file_path r) i)
      as [[b|]|e]; discriminate.
Qed.

Lemma scanned_chapter_is_served_witness :
  api.get_chapter scanned_library 2
  = Some (mkChapter 2 1 2%Q "Chapter 02" "/lib/Alpha/Chapter 02.cbz" 0).
Proof.
  apply (proj1 (scanned_chapter_is_served
                  (Disk.mount Scenario.library) Disk.empty_db 1 "/lib"
                  [mkChapter 1 1 1%Q "Chapter 01"
                             "/lib/Alpha/Chapter 01.cbz" 3;
                   mkChapter 2 1 2%Q "Chapter 02"
                             "/lib/Alpha/Chapter 02.cbz" 0]
                  (mkChapter 2 1 2%Q "Chapter 02"
                             "/lib/Alpha/Chapter 02.cbz" 0)
                  (Forall_nil _) eq_refl
                  (or_intror (or_introl eq_refl)))).
Defined.

End Endpoints.

(* ------------------------------------------------------------------ *)
(** ** No chapter is missed *)

Section Complete.
Import scanner comic_parser.
Variable fs : filesystem.

Lemma discover_complete (d : string) (entries : list string) :
  forall acc chs,
    discover_chapters fs d entries acc = Ret chs ->
    (forall ch, In ch acc -> In ch chs)
    /\ (forall e,
           In e entries -> chapter_path fs (OsPath.join d e) ->
           exists ch, In ch chs /\ path ch = OsPath.join d e).
Proof.
  induction entries as [|e0 rest IH]; intros acc chs; simpl.
  - intro H. injection H as <-. split; [auto|]. intros e [].
  - destruct (is_cbz_file fs (OsPath.join d e0)) eqn:Hc.
    + destruct (get_page_count fs (OsPath.join d e0)) as [n|x]; simpl;
        [|discriminate].
      intro H. destruct (IH _ _ H) as [Hacc Hall]. split.
      * intros ch Hch. apply Hacc, in_or_app. left. exact Hch.
      * intros e [<-|He] Hq; [|exact (Hall e He Hq)].
        eexists. split; [apply Hacc, in_or_app; right; left; reflexivity|].
        reflexivity.
    + destruct (os_path_isdir fs (OsPath.join d e0)) eqn:Hd.
      * destruct (get_page_count fs (OsPath.join d e0)) as [n|x] eqn:Hn;
          simpl; [|discriminate].
        destruct (n >? 0) eqn:Hpos.
        -- intro H. destruct (IH _ _ H) as [Hacc Hall]. split.
           ++ intros ch Hch. apply Hacc, in_or_app. left. exact Hch.
           ++ intros e [<-|He] Hq; [|exact (Hall e He Hq)].
              eexists. split;
                [apply Hacc, in_or_app; right; left; reflexivity|].
              reflexivity.
        -- intro H. destruct (IH _ _ H) as [Hacc Hall].
           split; [exact Hacc|].
           intros e [<-|He] Hq; [|exact (Hall e He Hq)].
           destruct Hq as [Hq|(_ & n' & Hn' & Hlt)]; [congruence|].
           assert (n' = n) by congruence. subst n'. lia.
      * intro H. destruct (IH _ _ H) as [Hacc Hall].
        split; [exact Hacc|].
        intros e [<-|He] Hq; [|exact (Hall e He Hq)].
        destruct Hq as [Hq|(Hq & _)]; congruence.
Qed.

Lemma row_for_chapter (mid : Z) (chs : list chapter) (rows : list chapter_row)
      (ch : chapter) :
  Forall2 (row_of mid) chs rows -> In ch chs ->
  exists r, In r rows /\ c_file_path r = path ch.
Proof.
  induction 1 as [|c r chs rows Hr _ IH]; intros Hin; [destruct Hin|].
  destruct Hin as [->|Hin].
  - exists r. split; [left; reflexivity|]. apply Hr.
  - destruct (IH Hin) as (r' & Hr' & Hp). exists r'. split; [right|]; auto.
Qed.

Lemma scan_mangas_complete (sid : Z) (root : string) (names : list string) :
  forall db mc cc s,
    fst (scan_mangas fs sid root names db mc cc) = Ret s ->
    forall name entries e,
      In name names ->
      os_path_isdir fs (OsPath.join root name) = true ->
      os_listdir fs (OsPath.join root name) = Ret entries ->
      In e entries ->
      chapter_path fs (OsPath.join (OsPath.join root name) e) ->
      exists new_c r,
        chapters (snd (scan_mangas fs sid root names db mc cc))
        = (chapters db ++ new_c)%list
        /\ In r new_c
        /\ c_file_path r = OsPath.join (OsPath.join root name) e.
Proof.
  induction names as [|name0 rest IH]; intros db mc cc s Hs name entries e
    Hname Hd Hl He Hq; [destruct Hname|].
  simpl in Hs |- *.
  destruct (os_path_isdir fs (OsPath.join root name0)) eqn:Hd0; simpl in *.
  2:{ destruct Hname as [->|Hname]; [congruence|].
      exact (IH _ _ _ _ Hs name entries e Hname Hd Hl He Hq). }
  destruct (os_listdir fs (OsPath.join root name0)) as [entries0|x] eqn:Hl0;
    simpl in *; [|discriminate].
  destruct (discover_chapters fs (OsPath.join root name0) (sorted entries0) [])
    as [chs|x] eqn:Hdisc; [|discriminate].
  destruct (discover_complete _ _ _ _ Hdisc) as [_ Hall].
  destruct chs as [|ch chs'].
  { destruct Hname as [->|Hname].
    - assert (entries0 = entries) by congruence. subst entries0.
      destruct (Hall e (proj2 (sorted_In _ _) He) Hq) as (c & [] & _).
    - exact (IH _ _ _ _ Hs name entries e Hname Hd Hl He Hq). }
  destruct (_find_cover fs (OsPath.join root name0)) as [cover|x];
    [|discriminate].
  remember (ch :: chs') as chs eqn:Echs. clear Echs ch chs'.
  unfold add_manga in *.
  match type of Hs with
  | context [register_chapters ?d ?m chs cc] =>
      destruct (register_chapters_rows chs d m cc) as (rows & Hreg & Hrows)
  end.
  rewrite Hreg in Hs |- *. simpl mangas in *. simpl chapters in *.
  simpl mangas_seq in *. simpl chapters_seq in *.
  match type of Hs with
  | fst (scan_mangas _ _ _ _ ?a ?m ?c) = _ =>
      set (db2 := a) in *; set (mc2 := m) in *; set (cc2 := c) in *
  end.
  destruct Hname as [->|Hname].
  - assert (entries0 = entries) by congruence. subst entries0.
    destruct (Hall e (proj2 (sorted_In _ _) He) Hq) as (c & Hc & Hp).
    destruct (row_for_chapter _ _ _ c Hrows Hc) as (r & Hr & Hrp).
    destruct (scan_mangas_emitted fs sid root rest db2 mc2 cc2)
      as (m' & c' & _ & Hc' & _).
    exists (rows ++ c')%list, r. rewrite Hc'. unfold db2. simpl.
    rewrite <- app_assoc. split; [reflexivity|].
    split; [apply in_or_app; left; exact Hr | congruence].
  - destruct (IH db2 mc2 cc2 s Hs name entries e Hname Hd Hl He Hq)
      as (new_c & r & Hc' & Hr & Hrp).
    exists (rows ++ new_c)%list, r. rewrite Hc'. unfold db2. simpl.
    rewrite <- app_assoc. split; [reflexivity|].
    split; [apply in_or_app; right; exact Hr | exact Hrp].
Qed.

End Complete.

(** X19.  A scan that returns misses no chapter: for every directory
    [name] of the root and every entry [e] of it that is an archive
    accepted by [is_cbz_file] or a directory with a page count above 0,
    one of the chapter rows the scan appended has the path
    [root/name/e]. *)
Theorem scan_source_misses_no_chapter (fs : filesystem)
        (db : DatabaseManager) (sid : Z) (root : string)
        (s : scanner.summary) (names entries : list string)
        (name e : string) :
  fst (scanner.scan_source fs db sid root) = Ret s ->
  os_path_isdir fs root = true ->
  os_listdir fs root = Ret names ->
  In name names ->
  os_path_isdir fs (OsPath.join root name) = true ->
  os_listdir fs (OsPath.join root name) = Ret entries ->
  In e entries ->
  chapter_path fs (OsPath.join (OsPath.join root name) e) ->
  exists new_c r,
    chapters (snd (scanner.scan_source fs db sid root))
    = (chapters db ++ new_c)%list
    /\ In r new_c
    /\ c_file_path r = OsPath.join (OsPath.join root name) e.
Proof.
  unfold scanner.scan_source. intros Hs Hd Hl Hname Hd' Hl' He Hq.
  rewrite Hd, Hl in Hs |- *. simpl in Hs |- *.
  eapply scan_mangas_complete; try eassumption.
  apply (proj2 (sorted_In _ _)). exact Hname.
Qed.

Lemma scan_source_misses_no_chapter_witness :
  exists new_c r,
    chapters (snd (scanner.scan_source (Disk.mount Scenario.library)
                                       Disk.empty_db 1 "/lib"))
    = (chapters Disk.empty_db ++ new_c)%list
    /\ In r new_c
    /\ c_file_path r
       = OsPath.join (OsPath.join "/lib" "Alpha") "Chapter 02.cbz".
Proof.
  apply (scan_source_misses_no_chapter
           (Disk.mount Scenario.library) Disk.empty_db 1 "/lib"
           (scanner.mkSummary 1 2) ["Beta"; "Alpha"]
           ["Chapter 02.cbz"; "Chapter 01.cbz"] "Alpha" "Chapter 02.cbz");
    try reflexivity.
  - simpl. tauto.
  - simpl. tauto.
  - left. reflexivity.
Defined.

(* ------------------------------------------------------------------ *)
(** ** Thumbnail endpoint *)

(** X20.  The thumbnail endpoint follows the page endpoint.  It serves a
    thumbnail only for a page that [get_page] serves, always as
    [image/jpeg], and what it serves is the rendering of that page's bytes
    at 300 by 400; it lets an exception through exactly when [get_page]
    does; and whenever [get_page] answers with an [HTTPException], it
    answers with the same one. *)
Theorem thumbnail_endpoint_follows_page_endpoint
        (Image : Type) (Image_open : bytes -> outcome Image)
        (Image_thumbnail : Image -> Z * Z -> outcome Image)
        (Image_save_jpeg : Image -> Z -> outcome bytes)
        (db : DatabaseManager) (fs : filesystem) (chapter_id i : Z) :
  (forall r,
      get_thumbnail Image Image_open Image_thumbnail Image_save_jpeg
                    db fs chapter_id i = api.Ok r ->
      api.media_type r = "image/jpeg"
      /\ exists page,
          api.get_page db fs chapter_id i = api.Ok page
          /\ render_thumbnail Image Image_open Image_thumbnail
                              Image_save_jpeg (api.content page) (300, 400)
             = Ret (api.content r))
  /\ (forall e,
         get_thumbnail Image Image_open Image_thumbnail Image_save_jpeg
                       db fs chapter_id i = api.Unhandled e <->
         api.get_page db fs chapter_id i = api.Unhandled e)
  /\ (forall status detail,
         api.get_page db fs chapter_id i = api.HTTPException status detail ->
         get_thumbnail Image Image_open Image_thumbnail Image_save_jpeg
                       db fs chapter_id i
         = api.HTTPException status detail).
Proof.
  unfold get_thumbnail, api.get_page, get_page_thumbnail.
  destruct (api.get_chapter db chapter_id) as [ch|].
  2:{ split; [|split].
      - intros r H. discriminate H.
      - intro e. split; discriminate.
      - intros status detail H. exact H. }
  destruct (comic_parser.get_page_image fs (c_file_path ch) i)
    as [[data|]|e0]; simpl.
  - split; [|split].
    + intro r.
      destruct (render_thumbnail _ _ _ _ data (300, 400)) as [b|e] eqn:Hr;
        [|discriminate].
      intro H. injection H as <-. simpl. split; [reflexivity|].
      eexists. split; [reflexivity|]. exact Hr.
    + intro e.
      destruct (render_thumbnail _ _ _ _ data (300, 400));
        split; discriminate.
    + intros status detail H. discriminate H.
  - split; [|split].
    + intros r H. discriminate H.
    + intro e. split; discriminate.
    + intros status detail H. exact H.
  - split; [|split].
    + intros r H. discriminate H.
    + intro e. split; intro H; injection H as <-; reflexivity.
    + intros status detail H. discriminate H.
Qed.

Lemma thumbnail_endpoint_follows_page_endpoint_witness :
  get_thumbnail (Z * Z) Scenario.toy_open Scenario.toy_thumbnail
                Scenario.toy_save scanned_library
                (Disk.mount Scenario.library) 2 0
  = api.HTTPException 404 "Page not found.".
Proof.
  apply (proj2 (proj2 (thumbnail_endpoint_follows_page_endpoint
                         (Z * Z) Scenario.toy_open Scenario.toy_thumbnail
                         Scenario.toy_save scanned_library
                         (Disk.mount Scenario.library) 2 0))).
  reflexivity.
Defined.

(* ------------------------------------------------------------------ *)
(** ** The 8-bit reading of names and the Unicode one *)

Section EightBit.
Import Unicode.

Variable tolower : N -> N.
Variable todecimal : N -> option Z.
Hypothesis Hcont : continues_8bit tolower todecimal.

Lemma of_string_app (a b : string) :
  of_string (a ++ b) = (of_string a ++ of_string b)%list.
Proof. induction a as [|c a IH]; simpl; [reflexivity | f_equal; exact IH]. Qed.

Lemma of_string_length (s : string) :
  length (of_string s) = String.length s.
Proof. induction s as [|c s IH]; simpl; [reflexivity | f_equal; exact IH]. Qed.

Lemma N_of_ascii_inj (a b : ascii) : N_of_ascii a = N_of_ascii b -> a = b.
Proof.
  intro H. rewrite <- (ascii_N_embedding a), <- (ascii_N_embedding b), H.
  reflexivity.
Qed.

Lemma N_of_ascii_eqb (a b : ascii) :
  (N_of_ascii a =? N_of_ascii b)%N = Ascii.eqb a b.
Proof.
  destruct (Ascii.eqb a b) eqn:E.
  - apply Ascii.eqb_eq in E. subst. apply N.eqb_refl.
  - apply N.eqb_neq. intro H. apply N_of_ascii_inj in H. subst.
    rewrite Ascii.eqb_refl in E. discriminate.
Qed.

Lemma isdecimal_8bit (c : ascii) :
  isdecimal todecimal (N_of_ascii c) = re.digit c.
Proof.
  unfold isdecimal. rewrite (proj2 Hcont c).
  destruct (re.digit c); reflexivity.
Qed.

Lemma separator_8bit (c : ascii) :
  separator (N_of_ascii c) = scanner.separator c.
Proof. destruct c as [[] [] [] [] [] [] [] []]; reflexivity. Qed.

Lemma listed_separator_8bit (c : ascii) :
  listed_separator (N_of_ascii c) = HeuristicSpec.listed_separator c.
Proof. destruct c as [[] [] [] [] [] [] [] []]; reflexivity. Qed.

Lemma take_while_8bit (P : N -> bool) (p : ascii -> bool) :
  (forall c, P (N_of_ascii c) = p c) ->
  forall s,
    take_while P (of_string s) = of_string (HeuristicSpec.take_while p s).
Proof.
  intros H s. induction s as [|c s IH]; simpl; [reflexivity|].
  rewrite H. destruct (p c); simpl; [f_equal; exact IH | reflexivity].
Qed.

Lemma drop_while_8bit (P : N -> bool) (p : ascii -> bool) :
  (forall c, P (N_of_ascii c) = p c) ->
  forall s,
    drop_while P (of_string s) = of_string (HeuristicSpec.drop_while p s).
Proof.
  intros H s. induction s as [|c s IH]; simpl; [reflexivity|].
  rewrite H. destruct (p c); simpl; [exact IH | reflexivity].
Qed.

Lemma numeric_token_8bit (s : string) :
  numeric_token todecimal (of_string s)
  = option_map of_string (HeuristicSpec.numeric_token s).
Proof.
  unfold numeric_token, HeuristicSpec.numeric_token.
  rewrite (take_while_8bit _ _ isdecimal_8bit),
          (drop_while_8bit _ _ isdecimal_8bit).
  destruct (HeuristicSpec.take_while re.digit s) as [|a ip]; [reflexivity|].
  destruct (HeuristicSpec.drop_while re.digit s) as [|d u]; [reflexivity|].
  cbn [of_string]. change dot with (N_of_ascii ".").
  rewrite N_of_ascii_eqb.
  destruct (Ascii.eqb d "."); [|reflexivity].
  rewrite (take_while_8bit _ _ isdecimal_8bit).
  destruct (HeuristicSpec.take_while re.digit u) as [|b fp]; [reflexivity|].
  cbn [option_map of_string]. f_equal. f_equal.
  rewrite of_string_app. reflexivity.
Qed.

Lemma lit_ci_8bit (w s : string) :
  lit_ci tolower (of_string w) (of_string s)
  = option_map of_string (re.lit_ci w s).
Proof.
  revert s. induction w as [|a w IH]; intro s; [reflexivity|].
  destruct s as [|c s]; [reflexivity|].
  cbn [of_string lit_ci re.lit_ci].
  rewrite !(proj1 Hcont), N_of_ascii_eqb.
  destruct (Ascii.eqb (PyStr.lower_char c) (PyStr.lower_char a));
    [apply IH | reflexivity].
Qed.

Lemma marker_at_8bit (Sep : N -> bool) (sep : ascii -> bool) :
  (forall c, Sep (N_of_ascii c) = sep c) ->
  forall s,
    marker_at tolower todecimal Sep (of_string s)
    = option_map of_string (HeuristicSpec.marker_at sep s).
Proof.
  intros H s. unfold marker_at, HeuristicSpec.marker_at.
  rewrite lit_ci_8bit.
  destruct (re.lit_ci "ch" s) as [s1|]; [|reflexivity].
  cbn [option_map]. rewrite lit_ci_8bit.
  destruct (re.lit_ci "apter" s1) as [t|]; cbn [option_map];
    rewrite (drop_while_8bit _ _ H); apply numeric_token_8bit.
Qed.

Lemma find_marker_8bit (Sep : N -> bool) (sep : ascii -> bool) :
  (forall c, Sep (N_of_ascii c) = sep c) ->
  forall s,
    find_marker tolower todecimal Sep (of_string s)
    = option_map of_string (HeuristicSpec.find_marker sep s).
Proof.
  intros H s. induction s as [|c s IH].
  - cbn [of_string find_marker HeuristicSpec.find_marker].
    change (@nil N) with (of_string ""). rewrite (marker_at_8bit _ _ H).
    destruct (HeuristicSpec.marker_at sep ""); reflexivity.
  - cbn [find_marker HeuristicSpec.find_marker of_string].
    change (N_of_ascii c :: of_string s) with (of_string (String c s)).
    rewrite (marker_at_8bit _ _ H).
    destruct (HeuristicSpec.marker_at sep (String c s)); [reflexivity|].
    exact IH.
Qed.

Lemma int_digits_8bit (s : string) :
  all_digits s = true ->
  forall acc,
    int_digits todecimal (of_string s) acc = PyFloat.int_digits s acc.
Proof.
  induction s as [|c s IH]; intros H acc; [reflexivity|].
  cbn [all_digits] in H. apply andb_true_iff in H. destruct H as [Hc Hs].
  cbn [of_string int_digits PyFloat.int_digits].
  unfold digit_value. rewrite (proj2 Hcont c), Hc. apply IH. exact Hs.
Qed.

Lemma split_dot_8bit (s : string) :
  split_dot (of_string s)
  = (of_string (fst (PyFloat.split_dot s)),
     of_string (snd (PyFloat.split_dot s))).
Proof.
  induction s as [|c s IH]; [reflexivity|].
  cbn [of_string split_dot PyFloat.split_dot].
  change dot with (N_of_ascii "."). rewrite N_of_ascii_eqb.
  destruct (Ascii.eqb c "."); [reflexivity|].
  rewrite IH. destruct (PyFloat.split_dot s) as [a b]. reflexivity.
Qed.

Lemma split_dot_shape (t : string) :
  token_shape t ->
  all_digits (fst (PyFloat.split_dot t)) = true
  /\ all_digits (snd (PyFloat.split_dot t)) = true.
Proof.
  intros (ip & fp & Hip & Hfp & [-> | ->]).
  - rewrite (proj2 (split_dot_digits ip "" Hip)). auto.
  - rewrite (proj1 (split_dot_digits ip fp Hip)). auto.
Qed.

Lemma float_8bit (t : string) :
  token_shape t -> float todecimal (of_string t) = PyFloat.float t.
Proof.
  intro H. destruct (split_dot_shape t H) as [Hip Hfp].
  unfold float, PyFloat.float. rewrite split_dot_8bit.
  destruct (PyFloat.split_dot t) as [ip fp]. cbn [fst snd] in *.
  rewrite (int_digits_8bit ip Hip), (int_digits_8bit fp Hfp),
          of_string_length.
  reflexivity.
Qed.

Lemma extractNumber_8bit (Sep : N -> bool) (sep : ascii -> bool) :
  (forall c, Sep (N_of_ascii c) = sep c) ->
  forall name,
    extractNumber tolower todecimal Sep (of_string name)
    = HeuristicSpec.extractNumber sep name.
Proof.
  intros H name. unfold extractNumber, HeuristicSpec.extractNumber.
  rewrite (find_marker_8bit _ _ H), numeric_token_8bit.
  destruct (HeuristicSpec.find_marker sep name) as [t|] eqn:Hm.
  - cbn [option_map]. apply float_8bit.
    exact (find_marker_shape sep name t Hm).
  - cbn [option_map].
    destruct (HeuristicSpec.numeric_token name) as [t|] eqn:Ht;
      [|reflexivity].
    cbn [option_map]. apply float_8bit.
    exact (numeric_token_shape name t Ht).
Qed.

End EightBit.

Lemma sample_continues_8bit :
  Unicode.continues_8bit Unicode.sample_tolower Unicode.sample_todecimal.
Proof.
  split; intro c; destruct c as [[] [] [] [] [] [] [] []]; reflexivity.
Qed.

(** X21.  On a name whose code points are all below 256 the Unicode
    reading of the heuristic and the 8-bit one give the same number, for
    every Unicode database that continues the 8-bit classes (it
    lower-cases the code points below 256 as [PyStr.lower_char] does and
    has the ten ASCII digits as its only decimal digits there) and in
    which the letters of the pattern are plain.  The same holds of the
    rules read with the four listed separators. *)
Theorem extract_chapter_number_8bit :
  forall tolower todecimal,
    Unicode.plain_letters tolower todecimal ->
    Unicode.continues_8bit tolower todecimal ->
    forall name,
      Unicode._extract_chapter_number tolower todecimal
                                      (Unicode.of_string name)
      = scanner._extract_chapter_number name
      /\ Unicode.extractNumber tolower todecimal Unicode.listed_separator
                               (Unicode.of_string name)
         = HeuristicSpec.extractNumber HeuristicSpec.listed_separator name.
Proof.
  intros tolower todecimal Hplain Hcont name. split.
  - rewrite (Unicode_extract_as_rules tolower todecimal Hplain),
            extract_as_rules.
    apply (extractNumber_8bit tolower todecimal Hcont).
    exact separator_8bit.
  - apply (extractNumber_8bit tolower todecimal Hcont).
    exact listed_separator_8bit.
Qed.

Lemma extract_chapter_number_8bit_witness :
  Unicode._extract_chapter_number
    Unicode.sample_tolower Unicode.sample_todecimal
    (Unicode.of_string "Vol 2 CHAPTER_-12.50x")
  = scanner._extract_chapter_number "Vol 2 CHAPTER_-12.50x".
Proof.
  exact (proj1 (extract_chapter_number_8bit
                  Unicode.sample_tolower Unicode.sample_todecimal
                  sample_plain_letters sample_continues_8bit
                  "Vol 2 CHAPTER_-12.50x")).
Defined.
